(** * The MHD interface kernels of [mhd/interface.py]

    A shallow embedding of [states], [riemann_adiabatic], [calc_evals],
    [consFlux], [emf] and [sources], and the properties the specification
    states about them.

    The kernels are written once, over an interface [Num] of the float
    operations they use.  Two instances follow:

    - [float], IEEE binary64 (the type of a Python float and of a NumPy
      float64), on which the kernels run: the counterexamples are
      evaluated on it, and the floors and the signal-speed bounds of the
      Riemann solver are proved on it, from the specification of the float
      comparisons;
    - [xreal], the real numbers with one extra element for a result that
      is not a finite number, on which the algebraic properties are
      proved (exact arithmetic: no rounding, no overflow).

    All kernels but [sources] are compiled by [@njit(cache=True)], that
    is with numba's default error model: a scalar float division by zero
    raises [ZeroDivisionError], an array (ufunc) division does not.  The
    embedding keeps that difference: scalar divisions are [sdiv], in the
    error monad [result]; array divisions are the operation [div]. *)

From Stdlib Require Import ZArith List Bool Lia Reals Lra Psatz PrimFloat Floats.
Import ListNotations.

Set Implicit Arguments.
Open Scope Z_scope.

(** ** Float operations *)

Class Num (T : Type) : Type := {
  zero : T;            (* 0, 0.0 *)
  one : T;             (* 1, 1.0 *)
  two : T;             (* 2, 2. *)
  four : T;            (* 4 *)
  half : T;            (* 0.5 *)
  quarter : T;         (* 0.25 *)
  eighth : T;          (* 0.125 *)
  tiny : T;            (* 1.e-10, the value of smallc and of smallp *)
  pi : T;              (* np.pi *)
  add : T -> T -> T;
  sub : T -> T -> T;
  mul : T -> T -> T;
  div : T -> T -> T;   (* IEEE division: total *)
  neg : T -> T;
  sqrt : T -> T;       (* np.sqrt *)
  abs : T -> T;        (* np.abs *)
  ltb : T -> T -> bool;
  leb : T -> T -> bool;
  eqb : T -> T -> bool
}.

Declare Scope num_scope.
Delimit Scope num_scope with num.
Notation "x + y" := (add x y) : num_scope.
Notation "x - y" := (sub x y) : num_scope.
Notation "x * y" := (mul x y) : num_scope.
Notation "x / y" := (div x y) : num_scope.
Notation "- x" := (neg x) : num_scope.

(** ** Errors *)

Inductive pyerr : Type :=
| ZeroDivisionError
| ValueError.

Inductive result (A : Type) : Type :=
| Ok (a : A)
| Raise (e : pyerr).

Arguments Ok {A} a.
Arguments Raise {A} e.

Definition bind {A B : Type} (m : result A) (k : A -> result B) : result B :=
  match m with
  | Ok a => k a
  | Raise e => Raise e
  end.

Notation "x <- m ;; k" := (bind m (fun x => k))
  (at level 61, m at next level, right associativity).

(** [for x in xs: s = body(x, s)], stopping at the first exception. *)
Fixpoint for_each {A S : Type} (xs : list A) (body : A -> S -> result S) (s : S)
  : result S :=
  match xs with
  | [] => Ok s
  | x :: xs' => s' <- body x s ;; for_each xs' body s'
  end.

(** [for x in xs: s = body(x, s)], for a body that raises nothing. *)
Definition for_pure {A S : Type} (xs : list A) (body : A -> S -> S) (s : S) : S :=
  fold_left (fun s x => body x s) xs s.

(** ** Indices, ranges and slices *)

(** [range(a, b)] *)
Definition range (a b : Z) : list Z :=
  map (fun k => a + Z.of_nat k) (seq 0 (Z.to_nat (b - a))).

(** A negative index counts from the end. *)
Definition pyidx (n i : Z) : Z := if i <? 0 then i + n else i.

(** The bound [s] of a slice over [n] elements; [None] is an omitted bound,
    given by [dflt]. *)
Definition slice_bound (n : Z) (dflt : Z) (s : option Z) : Z :=
  match s with
  | None => dflt
  | Some s => Z.max 0 (Z.min n (pyidx n s))
  end.

Definition in_slice (n : Z) (a b : option Z) (k : Z) : bool :=
  (slice_bound n 0 a <=? k) && (k <? slice_bound n n b).

Section Arrays.
Context {T : Type} `{Num T}.

(** ** Arrays: a shape and the elements *)

Record vec : Type := mkvec { vlen : Z; vat : Z -> T }.
Record arr2 : Type := mkarr2 { shape2 : Z * Z; at2 : Z -> Z -> T }.
Record arr3 : Type := mkarr3 { shape3 : Z * Z * Z; at3 : Z -> Z -> Z -> T }.

Definition len0 (A : arr3) : Z := fst (fst (shape3 A)).
Definition len1 (A : arr3) : Z := snd (fst (shape3 A)).
Definition len2 (A : arr3) : Z := snd (shape3 A).

(** [v[i]] and [v[i] = x] *)
Definition vget (v : vec) (i : Z) : T := vat v (pyidx (vlen v) i).
Definition vset (v : vec) (i : Z) (x : T) : vec :=
  mkvec (vlen v) (fun k => if k =? pyidx (vlen v) i then x else vat v k).

(** [v[a:b] = rhs], [rhs] given at the position it is stored to *)
Definition vset_slice (v : vec) (a b : option Z) (rhs : Z -> T) : vec :=
  mkvec (vlen v) (fun k => if in_slice (vlen v) a b k then rhs k else vat v k).

(** [np.zeros_like(v)] and the elements as a list *)
Definition vzeros_like (v : vec) : vec := mkvec (vlen v) (fun _ => zero).

(** [A[i, j]] and [A[i, j] = x] *)
Definition get2 (A : arr2) (i j : Z) : T :=
  at2 A (pyidx (fst (shape2 A)) i) (pyidx (snd (shape2 A)) j).
Definition set2 (A : arr2) (i j : Z) (x : T) : arr2 :=
  mkarr2 (shape2 A)
    (fun a b => if (a =? pyidx (fst (shape2 A)) i) && (b =? pyidx (snd (shape2 A)) j)
                then x else at2 A a b).

(** [np.zeros((qx, qy))] *)
Definition zeros2 (qx qy : Z) : arr2 := mkarr2 (qx, qy) (fun _ _ => zero).

(** [A[i, j, k]], [A[i, j, :]], [A[i, j, k] = x] and [A[i, j, :] = v] *)
Definition get3 (A : arr3) (i j k : Z) : T :=
  at3 A (pyidx (len0 A) i) (pyidx (len1 A) j) (pyidx (len2 A) k).
Definition row3 (A : arr3) (i j : Z) : vec :=
  mkvec (len2 A) (at3 A (pyidx (len0 A) i) (pyidx (len1 A) j)).
Definition set3 (A : arr3) (i j k : Z) (x : T) : arr3 :=
  mkarr3 (shape3 A)
    (fun a b c => if (a =? pyidx (len0 A) i) && (b =? pyidx (len1 A) j)
                     && (c =? pyidx (len2 A) k)
                  then x else at3 A a b c).
Definition set_row3 (A : arr3) (i j : Z) (v : vec) : arr3 :=
  mkarr3 (shape3 A)
    (fun a b c => if (a =? pyidx (len0 A) i) && (b =? pyidx (len1 A) j)
                  then vat v c else at3 A a b c).

(** [np.zeros_like(A)] and [np.zeros((qx, qy, nvar))] *)
Definition zeros3 (qx qy nvar : Z) : arr3 := mkarr3 (qx, qy, nvar) (fun _ _ _ => zero).
Definition zeros_like3 (A : arr3) : arr3 := mkarr3 (shape3 A) (fun _ _ _ => zero).

(** [A[a:b, :, :] = rhs] and [A[:, a:b, :] = rhs], [rhs] given at the position
    it is stored to *)
Definition set_slab0 (A : arr3) (a b : option Z) (rhs : Z -> Z -> Z -> T) : arr3 :=
  mkarr3 (shape3 A)
    (fun i j k => if in_slice (len0 A) a b i then rhs i j k else at3 A i j k).
Definition set_slab1 (A : arr3) (a b : option Z) (rhs : Z -> Z -> Z -> T) : arr3 :=
  mkarr3 (shape3 A)
    (fun i j k => if in_slice (len1 A) a b j then rhs i j k else at3 A i j k).

(** [A[:, :, k] = x] *)
Definition set_plane (A : arr3) (k : Z) (x : T) : arr3 :=
  mkarr3 (shape3 A)
    (fun a b c => if c =? pyidx (len2 A) k then x else at3 A a b c).

(** ** Python and NumPy functions on floats *)

(** [x**2] *)
Definition sq (x : T) : T := (x * x)%num.

(** [x] is a nan: the only float that differs from itself *)
Definition isnan (x : T) : bool := negb (eqb x x).

(** The builtins [max(a, b)] and [min(a, b)]: the first argument, unless the
    second is greater (smaller). *)
Definition pymax (a b : T) : T := if ltb a b then b else a.
Definition pymin (a b : T) : T := if ltb b a then b else a.

(** [np.minimum(a, b)]: a nan of either argument is the result. *)
Definition np_minimum (a b : T) : T :=
  if isnan a then a else if isnan b then b else if leb a b then a else b.

(** [np.sign(x)] in compiled code: 1 for [x > 0], -1 for [x < 0], and [x]
    itself otherwise (a zero of either sign, or a nan) *)
Definition np_sign (x : T) : T :=
  if ltb zero x then one
  else if ltb x zero then neg one
  else x.

(** [np.max(a)] and [np.min(a)] of a one-dimensional array: the first nan met
    is the result. *)
Fixpoint np_max_from (m : T) (xs : list T) : T :=
  match xs with
  | [] => m
  | x :: xs' => if isnan x then x else np_max_from (if ltb m x then x else m) xs'
  end.
Fixpoint np_min_from (m : T) (xs : list T) : T :=
  match xs with
  | [] => m
  | x :: xs' => if isnan x then x else np_min_from (if ltb x m then x else m) xs'
  end.
Definition np_max (xs : list T) : T :=
  match xs with
  | [] => zero
  | x :: xs' => if isnan x then x else np_max_from x xs'
  end.
Definition np_min (xs : list T) : T :=
  match xs with
  | [] => zero
  | x :: xs' => if isnan x then x else np_min_from x xs'
  end.

(** [a / b] on two floats in compiled code *)
Definition sdiv (a b : T) : result T :=
  if eqb b zero then Raise ZeroDivisionError else Ok (a / b)%num.

End Arrays.

Arguments vec T : clear implicits.
Arguments arr2 T : clear implicits.
Arguments arr3 T : clear implicits.

Section Kernels.
Context {T : Type} `{Num T}.
Local Open Scope num_scope.

Local Notation "v .[ i ]" := (vget v i) (at level 1, format "v .[ i ]").

(** ** [consFlux] *)

Definition consFlux (idir : Z) (gamma : T)
    (idens ixmom iymom iener ixmag iymag irhoX naux : Z) (U_state : vec T)
  : result (vec T) :=
  let F := vzeros_like U_state in
  u <- sdiv U_state.[ixmom] U_state.[idens] ;;
  v <- sdiv U_state.[iymom] U_state.[idens] ;;
  let bx := U_state.[ixmag] in
  let by_ := U_state.[iymag] in
  let b2 := sq bx + sq by_ in
  let p := (U_state.[iener] - half * U_state.[idens] * (sq u + sq v) - half * b2)
           * (gamma - one) in
  if (idir =? 1)%Z then
    let F := vset F idens (U_state.[idens] * u) in
    let F := vset F ixmom (U_state.[ixmom] * u + p + half * b2 - sq bx) in
    let F := vset F iymom (U_state.[iymom] * u - bx * by_) in
    let F := vset F iener ((U_state.[iener] + p + half * b2) * u
                           - bx * (bx * u + by_ * v)) in
    let F := vset F ixmag zero in
    let F := vset F iymag (by_ * u - bx * v) in
    let F := if (0 <? naux)%Z
             then vset_slice F (Some irhoX) (Some (irhoX + naux)%Z)
                             (fun k => vat U_state k * u)
             else F in
    Ok F
  else
    let F := vset F idens (U_state.[idens] * v) in
    let F := vset F ixmom (U_state.[ixmom] * v - bx * by_) in
    let F := vset F iymom (U_state.[iymom] * v + p + half * b2 - sq by_) in
    let F := vset F iener ((U_state.[iener] + p + half * b2) * v
                           - by_ * (bx * u + by_ * v)) in
    let F := vset F ixmag (bx * v - by_ * u) in
    let F := vset F iymag zero in
    let F := if (0 <? naux)%Z
             then vset_slice F (Some irhoX) (Some (irhoX + naux)%Z)
                             (fun k => vat U_state k * v)
             else F in
    Ok F.

(** ** [calc_evals] *)

Definition calc_evals (idir : Z) (U : vec T) (gamma : T)
    (idens ixmom iymom iener ixmag iymag irhoX : Z) (X Y : T)
  : result (list T) :=
  let dens := U.[idens] in
  u <- sdiv U.[ixmom] U.[idens] ;;
  v <- sdiv U.[iymom] U.[idens] ;;
  let E := U.[iener] in
  let Bx := U.[ixmag] in
  let By := U.[iymag] in
  bx <- sdiv Bx (sqrt (four * pi)) ;;
  by_ <- sdiv By (sqrt (four * pi)) ;;
  let b2 := sq bx + sq by_ in
  let rhoe := E - half * dens * (sq u + sq v) - half * b2 in
  let P := rhoe * (gamma - one) in
  H_ <- sdiv (E + P + half * b2) dens ;;
  let gamma_d := gamma - one in
  let X_d := (gamma - two) * X in
  let Y_d := (gamma - two) * Y in
  b2_dens <- sdiv b2 dens ;;
  let a2 := gamma_d * (H_ - half * (sq u + sq v) - b2_dens) - X_d in
  CAx2 <- (if (idir =? 1)%Z then sdiv (sq bx) dens else sdiv (sq by_) dens) ;;
  let b_norm2 := if (idir =? 1)%Z then (gamma_d - Y_d) * sq by_
                 else (gamma_d - Y_d) * sq bx in
  b_norm2_dens <- sdiv b_norm2 dens ;;
  let CA2 := CAx2 + b_norm2_dens in
  let Cf2 := half * ((a2 + CA2) + sqrt (sq (a2 + CA2) - four * a2 * CAx2)) in
  let Cs2 := half * ((a2 + CA2) - sqrt (sq (a2 + CA2) - four * a2 * CAx2)) in
  let vx := if (idir =? 1)%Z then u else v in
  Ok [vx - sqrt Cf2; vx - sqrt CAx2; vx - sqrt Cs2;
      vx; vx + sqrt Cs2; vx + sqrt CAx2; vx + sqrt Cf2].

(** ** [riemann_adiabatic] *)

(** The local variables of one pass of the loop body, up to the two fluxes. *)
Record riemann_locals : Type := mk_riemann_locals {
  rl_rho_l : T; rl_un_l : T; rl_ut_l : T;
  rl_rho_r : T; rl_un_r : T; rl_ut_r : T;
  rl_rhoe_l : T; rl_rhoe_r : T;
  rl_p_l : T; rl_p_r : T;
  rl_c_l : T; rl_c_r : T;
  rl_U_av : vec T; rl_X : T; rl_Y : T;
  rl_evals : list T;
  rl_cf_l : T; rl_cf_r : T;
  rl_bp : T; rl_bm : T;
  rl_f_l : vec T; rl_f_r : vec T
}.

(** Lines 168 to 308 of the loop body, for the states [U_l[i, j, :]] and
    [U_r[i, j, :]] and the face values [Bx[i, j]] and [By[i, j]]. *)
Definition riemann_states (idir : Z)
    (idens ixmom iymom iener ixmag iymag irhoX nspec : Z)
    (gamma : T) (Ul Ur : vec T) (Bx_ij By_ij : T)
  : result riemann_locals :=
  let smallc := tiny in
  let smallp := tiny in
  let rho_l := Ul.[idens] in
  un_l <- (if (idir =? 1)%Z then sdiv Ul.[ixmom] rho_l else sdiv Ul.[iymom] rho_l) ;;
  ut_l <- (if (idir =? 1)%Z then sdiv Ul.[iymom] rho_l else sdiv Ul.[ixmom] rho_l) ;;
  let Bx_l := if (idir =? 1)%Z then Bx_ij else Ul.[ixmag] in
  let Bx_r := if (idir =? 1)%Z then Bx_ij else Ur.[ixmag] in
  let By_l := if (idir =? 1)%Z then Ul.[iymag] else By_ij in
  let By_r := if (idir =? 1)%Z then Ur.[iymag] else By_ij in
  let B2_l := sq Bx_l + sq By_l in
  let B2_r := sq Bx_r + sq By_r in
  let rhoe_l := Ul.[iener] - half * rho_l * (sq un_l + sq ut_l) - half * B2_l in
  let p_l := rhoe_l * (gamma - one) in
  let p_l := pymax p_l smallp in
  let rho_r := Ur.[idens] in
  un_r <- (if (idir =? 1)%Z then sdiv Ur.[ixmom] rho_r else sdiv Ur.[iymom] rho_r) ;;
  ut_r <- (if (idir =? 1)%Z then sdiv Ur.[iymom] rho_r else sdiv Ur.[ixmom] rho_r) ;;
  let rhoe_r := Ur.[iener] - half * rho_r * (sq un_r + sq ut_r) - half * B2_r in
  let p_r := rhoe_r * (gamma - one) in
  let p_r := pymax p_r smallp in
  (* and the regular sound speeds *)
  gp_l <- sdiv (gamma * p_l) rho_l ;;
  let c_l := pymax smallc (sqrt gp_l) in
  gp_r <- sdiv (gamma * p_r) rho_r ;;
  let c_r := pymax smallc (sqrt gp_r) in
  bx_l <- sdiv Bx_l (sqrt (four * pi)) ;;
  bx_r <- sdiv Bx_r (sqrt (four * pi)) ;;
  by_l <- sdiv By_l (sqrt (four * pi)) ;;
  by_r <- sdiv By_r (sqrt (four * pi)) ;;
  (* find the Roe average stuff *)
  let q_av := vzeros_like Ul in
  let q_av := vset q_av idens (sqrt (rho_l * rho_r)) in
  mx_l <- sdiv Ul.[ixmom] (sqrt rho_l) ;;
  mx_r <- sdiv Ur.[ixmom] (sqrt rho_r) ;;
  qx_av <- sdiv (mx_l + mx_r) (sqrt rho_l + sqrt rho_r) ;;
  let q_av := vset q_av ixmom qx_av in
  my_l <- sdiv Ul.[iymom] (sqrt rho_l) ;;
  my_r <- sdiv Ur.[iymom] (sqrt rho_r) ;;
  qy_av <- sdiv (my_l + my_r) (sqrt rho_l + sqrt rho_r) ;;
  let q_av := vset q_av iymom qy_av in
  (* this is the enthalpy *)
  ke_l <- sdiv ((gamma - one) * (sq Ul.[ixmom] + sq Ul.[iymom])) rho_l ;;
  h_l <- sdiv (gamma * Ul.[iener] - ke_l + half * gamma * B2_l) rho_l ;;
  ke_r <- sdiv ((gamma - one) * (sq Ur.[ixmom] + sq Ur.[iymom])) rho_r ;;
  h_r <- sdiv (gamma * Ur.[iener] - ke_r + half * gamma * B2_r) rho_r ;;
  h_av <- sdiv (h_l * sqrt rho_l + h_r * sqrt rho_r) (sqrt rho_l + sqrt rho_r) ;;
  let q_av := vset q_av iener h_av in
  let q_av := vset_slice q_av (Some ixmag) (Some (iymag + 1)%Z)
                (fun k => (vat Ul k * sqrt rho_l + vat Ur k * sqrt rho_r)
                          / (sqrt rho_l + sqrt rho_r)) in
  let q_av := vset_slice q_av (Some irhoX) None
                (fun k => (vat Ul k / sqrt rho_l + vat Ur k / sqrt rho_r)
                          / (sqrt rho_l + sqrt rho_r)) in
  let U_av := vzeros_like q_av in
  let U_av := vset U_av idens q_av.[idens] in
  let U_av := vset U_av ixmom (q_av.[idens] * q_av.[ixmom]) in
  let U_av := vset U_av iymom (q_av.[idens] * q_av.[iymom]) in
  E_av <- sdiv (q_av.[iener] * q_av.[idens]
                + (gamma - one) * q_av.[idens] * (sq q_av.[ixmom] + sq q_av.[iymom])
                - half * gamma * (sq q_av.[ixmag] + sq q_av.[iymag])) gamma ;;
  let U_av := vset U_av iener E_av in
  let U_av := vset_slice U_av (Some ixmag) (Some (iymag + 1)%Z) (fun k => vat q_av k) in
  let U_av := vset_slice U_av (Some irhoX) None (fun k => q_av.[idens] * vat q_av k) in
  X <- (if (idir =? 1)%Z
        then sdiv (half * sq (by_l - by_r)) (sqrt rho_l + sqrt rho_r)
        else sdiv (half * sq (bx_l - bx_r)) (sqrt rho_l + sqrt rho_r)) ;;
  Y <- sdiv (half * (rho_l + rho_r)) U_av.[idens] ;;
  evals <- calc_evals idir U_av gamma idens ixmom iymom iener ixmag iymag irhoX X Y ;;
  (* the fast magnetosonic speed in the left and right states *)
  cA2_l <- sdiv (sq bx_l + sq by_l) rho_l ;;
  cAx2_l <- (if (idir =? 1)%Z then sdiv (sq bx_l) rho_l else sdiv (sq by_l) rho_l) ;;
  let cf_l := sqrt (half * (sq c_l + cA2_l
                            + sqrt (sq (sq c_l + cA2_l) - four * sq c_l * cAx2_l))) in
  cA2_r <- sdiv (sq bx_r + sq by_r) rho_r ;;
  cAx2_r <- (if (idir =? 1)%Z then sdiv (sq bx_r) rho_r else sdiv (sq by_r) rho_r) ;;
  let cf_r := sqrt (half * (sq c_r + cA2_r
                            + sqrt (sq (sq c_r + cA2_r) - four * sq c_r * cAx2_r))) in
  let bp := pymax (pymax (np_max evals) (un_r + cf_r)) zero in
  let bm := pymin (pymin (np_min evals) (un_l - cf_l)) zero in
  f_l <- consFlux idir gamma idens ixmom iymom iener ixmag iymag irhoX nspec Ul ;;
  f_r <- consFlux idir gamma idens ixmom iymom iener ixmag iymag irhoX nspec Ur ;;
  Ok (mk_riemann_locals rho_l un_l ut_l rho_r un_r ut_r rhoe_l rhoe_r
        p_l p_r c_l c_r U_av X Y evals cf_l cf_r bp bm f_l f_r).

(** Lines 310 and 311: the flux stored to [F[i, j, :]]. *)
Definition riemann_flux (lc : riemann_locals) (Ul Ur : vec T) : result (vec T) :=
  let bp := rl_bp lc in
  let bm := rl_bm lc in
  let f_l := rl_f_l lc in
  let f_r := rl_f_r lc in
  s <- sdiv (bp * bm) (bp - bm) ;;
  Ok (mkvec (vlen Ul)
        (fun k => (bp * vat f_l k - bm * vat f_r k) / (bp - bm)
                  + s * (vat Ur k - vat Ul k))).

(** The loop body *)
Definition riemann_cell (idir : Z)
    (idens ixmom iymom iener ixmag iymag irhoX nspec : Z)
    (gamma : T) (U_l U_r : arr3 T) (Bx By : arr2 T) (i j : Z) : result (vec T) :=
  lc <- riemann_states idir idens ixmom iymom iener ixmag iymag irhoX nspec gamma
          (row3 U_l i j) (row3 U_r i j) (get2 Bx i j) (get2 By i j) ;;
  riemann_flux lc (row3 U_l i j) (row3 U_r i j).

Definition riemann_adiabatic (idir ng : Z)
    (idens ixmom iymom iener ixmag iymag irhoX nspec : Z)
    (lower_solid upper_solid : Z)
    (gamma : T) (U_l U_r : arr3 T) (Bx By : arr2 T) : result (arr3 T) :=
  let qx := len0 U_l in
  let qy := len1 U_l in
  let F := zeros_like3 U_l in
  let nx := (qx - 2 * ng)%Z in
  let ny := (qy - 2 * ng)%Z in
  let ilo := ng in
  let ihi := (ng + nx)%Z in
  let jlo := ng in
  let jhi := (ng + ny)%Z in
  for_each (range (ilo - 2) (ihi + 2)) (fun i F =>
    for_each (range (jlo - 2) (jhi + 2)) (fun j F =>
      f <- riemann_cell idir idens ixmom iymom iener ixmag iymag irhoX nspec
             gamma U_l U_r Bx By i j ;;
      Ok (set_row3 F i j f)) F) F.

End Kernels.

Section Reconstruction.
Context {T : Type} `{Num T}.
Local Open Scope num_scope.

(** ** [states] *)

(** The monotonized slope of line 119, for one element of [dq_l], [dq_r]
    and [dq_c]. *)
Definition limited_slope (dq_l dq_r dq_c : T) : T :=
  np_sign dq_c
  * np_minimum (two * abs dq_l) (np_minimum (two * abs dq_r) (abs dq_c)).

(** The array [dq] of lines 103 to 126. *)
Definition states_dq (idir ibx iby : Z) (qv : arr3 T) : arr3 T :=
  let dq_l := zeros_like3 qv in
  let dq_r := zeros_like3 qv in
  let dq_c := zeros_like3 qv in
  (* compute left-, right- and centered-differences of primitive variables *)
  let dq_l := if (idir =? 1)%Z
    then set_slab0 dq_l (Some 1%Z) (Some (-1)%Z)
           (fun i j k => at3 qv i j k - at3 qv (i - 1)%Z j k)
    else set_slab1 dq_l (Some 1%Z) (Some (-1)%Z)
           (fun i j k => at3 qv i j k - at3 qv i (j - 1)%Z k) in
  let dq_r := if (idir =? 1)%Z
    then set_slab0 dq_r (Some 1%Z) (Some (-1)%Z)
           (fun i j k => at3 qv (i + 1)%Z j k - at3 qv i j k)
    else set_slab1 dq_r (Some 1%Z) (Some (-1)%Z)
           (fun i j k => at3 qv i (j + 1)%Z k - at3 qv i j k) in
  let dq_c := if (idir =? 1)%Z
    then set_slab0 dq_c (Some 1%Z) (Some (-1)%Z)
           (fun i j k => half * (at3 qv (i + 1)%Z j k - at3 qv (i - 1)%Z j k))
    else set_slab1 dq_c (Some 1%Z) (Some (-1)%Z)
           (fun i j k => half * (at3 qv i (j + 1)%Z k - at3 qv i (j - 1)%Z k)) in
  (* apply monotonicity constraints *)
  let dq := mkarr3 (shape3 qv)
              (fun i j k => limited_slope (at3 dq_l i j k) (at3 dq_r i j k)
                                          (at3 dq_c i j k)) in
  (* set longitudinal component of the magnetic field to be 0 *)
  if (idir =? 1)%Z then set_plane dq ibx zero else set_plane dq iby zero.

(** [qv[i, j] + 0.5 * dq[i, j]] and [qv[i, j] - 0.5 * dq[i, j]] *)
Definition edge_plus (qv dq : arr3 T) (i j : Z) : vec T :=
  mkvec (len2 qv) (fun k => vat (row3 qv i j) k + half * vat (row3 dq i j) k).
Definition edge_minus (qv dq : arr3 T) (i j : Z) : vec T :=
  mkvec (len2 qv) (fun k => vat (row3 qv i j) k - half * vat (row3 dq i j) k).

Definition states (idir ng : Z) (dx dt : T)
    (irho iu iv ip ibx iby ix nspec : Z)
    (gamma : T) (qv : arr3 T) (Bx By : arr2 T) : arr3 T * arr3 T :=
  let qx := len0 qv in
  let qy := len1 qv in
  let q_l := zeros_like3 qv in
  let q_r := zeros_like3 qv in
  let nx := (qx - 2 * ng)%Z in
  let ny := (qy - 2 * ng)%Z in
  let ilo := ng in
  let ihi := (ng + nx)%Z in
  let jlo := ng in
  let jhi := (ng + ny)%Z in
  let dq := states_dq idir ibx iby qv in
  for_pure (range (ilo - 3) (ihi + 3)) (fun i q =>
    for_pure (range (jlo - 3) (jhi + 3)) (fun j q =>
      let '(q_l, q_r) := q in
      if (idir =? 1)%Z then
        let q_l := set_row3 q_l (i + 1)%Z j (edge_plus qv dq i j) in
        let q_r := set_row3 q_r i j (edge_minus qv dq i j) in
        (q_l, q_r)
      else
        let q_l := set_row3 q_l i (j + 1)%Z (edge_plus qv dq i j) in
        let q_r := set_row3 q_r i j (edge_minus qv dq i j) in
        (q_l, q_r)) q) (q_l, q_r).

End Reconstruction.

Section Transport.
Context {T : Type} `{Num T}.
Local Open Scope num_scope.

(** ** [emf] *)

(** [A[:, :] = B] for [A] of shape [(qx, qy)]: an axis of [B] of length 1 is
    repeated, another length is an error. *)
Definition broadcastable (qx qy : Z) (B : arr2 T) : bool :=
  (((fst (shape2 B) =? qx) || (fst (shape2 B) =? 1))
   && ((snd (shape2 B) =? qy) || (snd (shape2 B) =? 1)))%Z.

Definition assign2 (qx qy : Z) (B : arr2 T) : result (arr2 T) :=
  if broadcastable qx qy B then
    Ok (mkarr2 (qx, qy)
          (fun i j => at2 B (if (fst (shape2 B) =? qx)%Z then i else 0%Z)
                            (if (snd (shape2 B) =? qy)%Z then j else 0%Z)))
  else Raise ValueError.

(** [A[:, :, k]], and [f(A)] for a function [f] of each element *)
Definition plane (A : arr3 T) (k : Z) : arr2 T :=
  mkarr2 (len0 A, len1 A) (fun i j => at3 A i j (pyidx (len2 A) k)).
Definition map2 (f : T -> T) (A : arr2 T) : arr2 T :=
  mkarr2 (shape2 A) (fun i j => f (at2 A i j)).

(** The arrays [Er], [Ex] and [Ey] of lines 465 to 476. *)
Definition emf_edges (idens ixmom iymom ixmag iymag : Z)
    (U Fx Fy : arr3 T) (Eref : arr2 T) (use_ref : bool)
  : result (arr2 T * arr2 T * arr2 T) :=
  let qx := len0 U in
  let qy := len1 U in
  Er <- (if negb use_ref then
           let u := fun i j => at2 (plane U ixmom) i j / at2 (plane U idens) i j in
           let v := fun i j => at2 (plane U iymom) i j / at2 (plane U idens) i j in
           let bx := plane U ixmag in
           let by_ := plane U iymag in
           assign2 qx qy
             (mkarr2 (qx, qy)
                (fun i j => - (u i j * at2 by_ i j - v i j * at2 bx i j)))
         else assign2 qx qy Eref) ;;
  (* GS05 section 4.1.1 *)
  Ex <- assign2 qx qy (map2 neg (plane Fx iymag)) ;;
  Ey <- assign2 qx qy (plane Fy ixmag) ;;
  Ok (Er, Ex, Ey).

(** The slope taken at a corner: by the sign of the mass flux [r]. *)
Definition upwind (r below here : T) : T :=
  if ltb zero r then below
  else if ltb r zero then here
  else half * (below + here).

Definition emf (ng : Z) (idens ixmom iymom iener ixmag iymag irhoX : Z)
    (dx dy : T) (U Fx Fy : arr3 T) (Eref : arr2 T) (use_ref : bool)
  : result (arr2 T) :=
  let qx := len0 U in
  let qy := len1 U in
  let Ec := zeros2 qx qy in
  let dEdy_14 := zeros2 qx qy in
  let dEdx_14 := zeros2 qx qy in
  let dEdy_34 := zeros2 qx qy in
  let dEdx_34 := zeros2 qx qy in
  let nx := (qx - 2 * ng)%Z in
  let ny := (qy - 2 * ng)%Z in
  let ilo := ng in
  let ihi := (ng + nx)%Z in
  let jlo := ng in
  let jhi := (ng + ny)%Z in
  edges <- emf_edges idens ixmom iymom ixmag iymag U Fx Fy Eref use_ref ;;
  let '(Er, Ex, Ey) := edges in
  d <- for_each (range (ilo - 3) (ihi + 3)) (fun i d =>
         for_each (range (jlo - 3) (jhi + 3)) (fun j d =>
           let '(dEdy_14, dEdx_14, dEdy_34, dEdx_34) := d in
           (* get the -1/4 states *)
           y14 <- sdiv (two * (get2 Er i j - get2 Ey i j)) dy ;;
           let dEdy_14 := set2 dEdy_14 i j y14 in
           x14 <- sdiv (two * (get2 Er i j - get2 Ex i j)) dx ;;
           let dEdx_14 := set2 dEdx_14 i j x14 in
           (* get the -3/4 states *)
           y34 <- sdiv (two * (get2 Ey i j - get2 Er i (j - 1)%Z)) dy ;;
           let dEdy_34 := set2 dEdy_34 i j y34 in
           x34 <- sdiv (two * (get2 Ex i j - get2 Er (i - 1)%Z j)) dx ;;
           let dEdx_34 := set2 dEdx_34 i j x34 in
           Ok (dEdy_14, dEdx_14, dEdy_34, dEdx_34)) d)
         (dEdy_14, dEdx_14, dEdy_34, dEdx_34) ;;
  let '(dEdy_14, dEdx_14, dEdy_34, dEdx_34) := d in
  Ok (for_pure (range (ilo - 2) (ihi + 2)) (fun i Ec =>
        for_pure (range (jlo - 2) (jhi + 2)) (fun j Ec =>
          (* now get the corner states *)
          let ru := get3 Fx i j idens in
          let dEdyx_14 := upwind ru (get2 dEdy_14 (i - 1)%Z j) (get2 dEdy_14 i j) in
          let ru := get3 Fx i (j - 1)%Z idens in
          let dEdyx_34 := upwind ru (get2 dEdy_34 (i - 1)%Z j) (get2 dEdy_34 i j) in
          let rv := get3 Fy i j idens in
          let dEdxy_14 := upwind rv (get2 dEdx_14 i (j - 1)%Z) (get2 dEdx_14 i j) in
          let rv := get3 Fy (i - 1)%Z j idens in
          let dEdxy_34 := upwind rv (get2 dEdx_34 i (j - 1)%Z) (get2 dEdx_34 i j) in
          set2 Ec i j
            (quarter * (get2 Ex i j + get2 Ex i (j + 1)%Z + get2 Ey i j
                        + get2 Ey (i + 1)%Z j)
             + eighth * dy * (dEdyx_14 - dEdyx_34)
             + eighth * dx * (dEdxy_14 - dEdxy_34))) Ec) Ec).

(** ** [sources] *)

Definition sources (idir ng : Z) (idens ixmom iymom iener ixmag iymag irhoX : Z)
    (dx : T) (U Ux : arr3 T) : arr3 T :=
  let qx := len0 U in
  let qy := len1 U in
  let nvar := len2 U in
  let S := zeros3 qx qy nvar in
  let nx := (qx - 2 * ng)%Z in
  let ny := (qy - 2 * ng)%Z in
  let ilo := ng in
  let ihi := (ng + nx)%Z in
  let jlo := ng in
  let jhi := (ng + ny)%Z in
  for_pure (range (ilo - ng + 1) (ihi + ng - 1)) (fun i S =>
    for_pure (range (jlo - ng + 1) (jhi + ng - 1)) (fun j S =>
      if (idir =? 1)%Z then
        let S := set3 S i j ixmom
                   (get3 U i j ixmag
                    * (get3 Ux (i + 1)%Z j ixmag - get3 Ux i j ixmag) / dx) in
        let S := set3 S i j iymom
                   (get3 U i j iymag
                    * (get3 Ux (i + 1)%Z j ixmag - get3 Ux i j ixmag) / dx) in
        S
      else
        let S := set3 S i j ixmom
                   (get3 U i j ixmag
                    * (get3 Ux i (j + 1)%Z iymag - get3 Ux i j iymag) / dx) in
        let S := set3 S i j iymom
                   (get3 U i j iymag
                    * (get3 Ux i (j + 1)%Z iymag - get3 Ux i j iymag) / dx) in
        S) S) S.

(** The difference of the normal interface field over the cell [(i, j)],
    as lines 558 and 563 take it. *)
Definition normal_field_jump (ixmag iymag idir : Z) (Ux : arr3 T) (i j : Z) : T :=
  if (idir =? 1)%Z then get3 Ux (i + 1)%Z j ixmag - get3 Ux i j ixmag
  else get3 Ux i (j + 1)%Z iymag - get3 Ux i j iymag.

End Transport.

(** ** The instance of binary64 floats *)

#[export] Instance float_num : Num float := {|
  zero := 0%float;
  one := 1%float;
  two := 2%float;
  four := 4%float;
  half := 0.5%float;
  quarter := 0.25%float;
  eighth := 0.125%float;
  tiny := 0x1.b7cdfd9d7bdbbp-34%float;   (* the float that 1.e-10 denotes *)
  pi := 0x1.921fb54442d18p+1%float;      (* 3.141592653589793 *)
  add := PrimFloat.add;
  sub := PrimFloat.sub;
  mul := PrimFloat.mul;
  div := PrimFloat.div;
  neg := PrimFloat.opp;
  sqrt := PrimFloat.sqrt;
  abs := PrimFloat.abs;
  ltb := PrimFloat.ltb;
  leb := PrimFloat.leb;
  eqb := PrimFloat.eqb
|}.

(** ** The instance of exact arithmetic *)

(** A real number, or [None]: the result of an operation that has no finite
    real value (a division by zero, the root of a negative number), which a
    float computation gives as nan or as an infinity.  [None] compares false
    with everything, as nan does. *)
Abbreviation xreal := (option R) (only parsing).

Definition xlift1 (f : R -> R) (x : xreal) : xreal :=
  match x with
  | Some a => Some (f a)
  | None => None
  end.

Definition xlift2 (f : R -> R -> R) (x y : xreal) : xreal :=
  match x, y with
  | Some a, Some b => Some (f a b)
  | _, _ => None
  end.

Definition xdiv (x y : xreal) : xreal :=
  match x, y with
  | Some a, Some b => if Req_dec_T b 0 then None else Some (a / b)%R
  | _, _ => None
  end.

Definition xsqrt (x : xreal) : xreal :=
  match x with
  | Some a => if Rle_dec 0 a then Some (R_sqrt.sqrt a) else None
  | None => None
  end.

Definition xltb (x y : xreal) : bool :=
  match x, y with
  | Some a, Some b => if Rlt_dec a b then true else false
  | _, _ => false
  end.

Definition xleb (x y : xreal) : bool :=
  match x, y with
  | Some a, Some b => if Rle_dec a b then true else false
  | _, _ => false
  end.

Definition xeqb (x y : xreal) : bool :=
  match x, y with
  | Some a, Some b => if Req_dec_T a b then true else false
  | _, _ => false
  end.

#[export] Instance xreal_num : Num xreal := {|
  zero := Some 0%R;
  one := Some 1%R;
  two := Some 2%R;
  four := Some 4%R;
  half := Some (1 / 2)%R;
  quarter := Some (1 / 4)%R;
  eighth := Some (1 / 8)%R;
  tiny := Some (1 / 10000000000)%R;
  pi := Some PI;
  add := xlift2 Rplus;
  sub := xlift2 Rminus;
  mul := xlift2 Rmult;
  div := xdiv;
  neg := xlift1 Ropp;
  sqrt := xsqrt;
  abs := xlift1 Rabs;
  ltb := xltb;
  leb := xleb;
  eqb := xeqb
|}.

(** A vector and arrays of finite values *)
Definition vfin (n : Z) (f : Z -> R) : vec xreal := mkvec n (fun k => Some (f k)).
Definition fin2 (qx qy : Z) (f : Z -> Z -> R) : arr2 xreal :=
  mkarr2 (qx, qy) (fun i j => Some (f i j)).
Definition fin3 (qx qy nvar : Z) (f : Z -> Z -> Z -> R) : arr3 xreal :=
  mkarr3 (qx, qy, nvar) (fun i j k => Some (f i j k)).

(** ** Arrays given by their elements *)

Definition vec_of {T : Type} `{Num T} (xs : list T) : vec T :=
  mkvec (Z.of_nat (length xs)) (fun k => nth (Z.to_nat k) xs zero).


(** ** Valid inputs *)

(** The layouts that the slices of [riemann_adiabatic] are written for: the
    six named slots are distinct slots of the state vector, the slot of the
    y-field follows that of the x-field (the slice [ixmag:iymag + 1] holds
    the two fields), and all lie below [irhoX], where the species start
    (the slice [irhoX:] holds the species alone). *)
Definition layout_ok (nvar idens ixmom iymom iener ixmag iymag irhoX : Z) : Prop :=
  NoDup [idens; ixmom; iymom; iener; ixmag; iymag]
  /\ Forall (fun s => 0 <= s < irhoX) [idens; ixmom; iymom; iener; ixmag; iymag]
  /\ iymag = ixmag + 1
  /\ irhoX <= nvar.

(** A finite value of exact arithmetic *)
Definition finite (x : xreal) : Prop := exists r : R, x = Some r.

(** The floors of lines 199 to 219 on one side, in exact arithmetic: for the
    adiabatic index [g] and the density [rho], the thermal energy [rhoe],
    the pressure [p] and the sound speed [c] of the loop body are finite,
    [p] is [max (rhoe * (g - 1), 1e-10)], and [c] is at least 1e-10 and is
    [max (1e-10, sqrt (g * p / rho))] where that root is a number. *)
Definition floored (g rho : R) (rhoe p c : xreal) : Prop :=
  exists el pl cl : R,
    rhoe = Some el /\ p = Some pl /\ c = Some cl
    /\ pl = Rmax (el * (g - 1)) (1 / 10000000000)
    /\ (1 / 10000000000 <= pl)%R
    /\ ((1 / 10000000000 <= el * (g - 1))%R -> pl = (el * (g - 1))%R)
    /\ (1 / 10000000000 <= cl)%R
    /\ (forall s : R, sqrt (Some (g * pl / rho)%R : xreal) = Some s ->
        cl = Rmax (1 / 10000000000) s /\ ((1 / 10000000000 <= s)%R -> cl = s)).

(** The thermal energy [rhoe] that [calc_evals] computes for the state [u]:
    the energy less the kinetic energy and the energy of the field divided
    by [sqrt (4 pi)]. *)
Definition thermal_energy (idens ixmom iymom iener ixmag iymag : Z) (u : Z -> R) : R :=
  (u iener
   - 1 / 2 * u idens * (u ixmom / u idens * (u ixmom / u idens)
                        + u iymom / u idens * (u iymom / u idens))
   - 1 / 2 * (u ixmag / R_sqrt.sqrt (4 * PI) * (u ixmag / R_sqrt.sqrt (4 * PI))
              + u iymag / R_sqrt.sqrt (4 * PI) * (u iymag / R_sqrt.sqrt (4 * PI))))%R.

(** ** Sample inputs, in the layout density, x-momentum, y-momentum, energy,
    x-field, y-field (slots 0 to 5, no species) *)

Module Sample.
Local Open Scope float_scope.

(** A [q] by [q] grid whose every cell holds the state [xs]. *)
Definition uniform3 (q : Z) (xs : list float) : arr3 float :=
  mkarr3 (q, q, Z.of_nat (length xs))%Z (fun _ _ k => nth (Z.to_nat k) xs 0).
Definition uniform2 (q : Z) (x : float) : arr2 float := mkarr2 (q, q)%Z (fun _ _ => x).

(** Density 1, velocity (1, 0), field (0, 1): [u * By - v * Bx] is 1. *)
Definition U_a : arr3 float := uniform3 3 [1; 1; 0; 2; 0; 1].
Definition U_b : arr3 float := uniform3 3 [2; 0; 4; 9; 3; 1].

(** The fluxes of [U_a] in x and in y, as [consFlux] gives them for gamma = 2. *)
Definition Fx_a : arr3 float := uniform3 3 [1; 2.5; 0; 3.5; 0; 1].
Definition Fy_a : arr3 float := uniform3 3 [0; 0; 0.5; 0; -1; 0].

Definition Eref_a : arr2 float := mkarr2 (1, 1)%Z (fun _ _ => -1).

(** A cell state with fields (1, 2), and an interface state whose x-field
    grows by 1 from one interface to the next. *)
Definition U_c : arr3 float := uniform3 3 [1; 0; 0; 4; 1; 2].
Definition Ux_c : arr3 float :=
  mkarr3 (3, 3, 6)%Z
    (fun i _ k => if (k =? 4)%Z then (if (i =? 2)%Z then 1 else 0)
                  else nth (Z.to_nat k) [1; 0; 0; 4; 0; 2] 0).

(** Two cold streams that collide, on a 4 by 4 grid with 2 ghost cells:
    density 1, velocity 1 to the right on the left of every interface and
    1 to the left on its right, no field, and the energy 0.5 of the motion
    alone, so that the thermal pressure is 0. *)
Definition U_cold_l : arr3 float := uniform3 4 [1; 1; 0; 0.5; 0; 0].
Definition U_cold_r : arr3 float := uniform3 4 [1; -1; 0; 0.5; 0; 0].
Definition B_zero : arr2 float := uniform2 4 0.


(** A gas of density 1 that moves with the velocity 1 along x, of energy 2
    (pressure 1.5 for gamma = 2) and no field, on both sides of every
    interface. *)
Definition U_flow : arr3 float := uniform3 4 [1; 1; 0; 2; 0; 0].

(** The same two cold streams, and a gas at rest of density 1, pressure 1
    (energy 1 for gamma = 2) and no field, in exact arithmetic. *)
Definition cold_l (k : Z) : R := nth (Z.to_nat k) [1; 1; 0; 1 / 2; 0; 0]%R 0%R.
Definition cold_r (k : Z) : R := nth (Z.to_nat k) [1; -1; 0; 1 / 2; 0; 0]%R 0%R.
Definition at_rest (k : Z) : R := nth (Z.to_nat k) [1; 0; 0; 1; 0; 0]%R 0%R.

(** The moving gas of [U_flow], in exact arithmetic: the state, the grid
    of 4 by 4 zones that holds it everywhere, and the face fields. *)
Definition flow (k : Z) : R := nth (Z.to_nat k) [1; 1; 0; 2; 0; 0]%R 0%R.

End Sample.
(** A computation whose only exception is [ZeroDivisionError] *)
Definition only_zde {A : Type} (m : result A) : Prop :=
  forall e, m = Raise e -> e = ZeroDivisionError.

(** ** More sample inputs *)

Module Cases.

(** A grid of 4 by 4 zones whose every zone has the density 0 *)
Definition U_void : arr3 float := Sample.uniform3 4 [0; 0; 0; 1; 0; 0]%float.

(** The moving gas of [Sample.U_flow] on a grid of 7 by 7 zones *)
Definition U_flow7 : arr3 float := Sample.uniform3 7 [1; 1; 0; 2; 0; 0]%float.
Definition B_zero7 : arr2 float := Sample.uniform2 7 0%float.

(** The moving gas with two species, of partial densities 0.25 and 0.5 *)
Definition U_species : vec float := vec_of [1; 1; 0; 2; 0; 0; 0.25; 0.5]%float.

(** In exact arithmetic: the moving gas on 7 by 7 zones, fluxes whose field
    components give the edge EMF 1, and the reference EMF 1 *)
Definition U7 : arr3 xreal := fin3 7 7 6 (fun _ _ k => Sample.flow k).
Definition Fx_unit : arr3 xreal := fin3 7 7 6 (fun _ _ k => if k =? 5 then (-1)%R else 0%R).
Definition Fy_unit : arr3 xreal := fin3 7 7 6 (fun _ _ k => if k =? 4 then 1%R else 0%R).
Definition Eref_unit : arr2 xreal := fin2 1 1 (fun _ _ => 1%R).

(** The locals of a loop body whose signals all move to the right: the
    bounds are 1 and 0, the left flux is (0, 1, 2, 3, 4, 5). *)
Definition lc_right : riemann_locals :=
  mk_riemann_locals (Some 1%R) (Some 2%R) (Some 0%R) (Some 1%R) (Some 2%R) (Some 0%R)
    (Some 1%R) (Some 1%R) (Some 1%R) (Some 1%R) (Some 1%R) (Some 1%R)
    (vfin 6 Sample.flow) (Some 0%R) (Some 1%R) [] (Some 1%R) (Some 1%R)
    (Some 1%R) (Some 0%R) (vfin 6 (fun k => IZR k)) (vfin 6 (fun _ => 0%R)).

(** The two states of [Sample.U_a] and [Sample.U_b] and the fluxes of the
    first, on a grid of 7 by 7 zones (one zone and 3 ghost cells a side) *)
Definition U_a7 : arr3 float := Sample.uniform3 7 [1; 1; 0; 2; 0; 1]%float.
Definition U_b7 : arr3 float := Sample.uniform3 7 [2; 0; 4; 9; 3; 1]%float.
Definition Fx_a7 : arr3 float := Sample.uniform3 7 [1; 2.5; 0; 3.5; 0; 1]%float.
Definition Fy_a7 : arr3 float := Sample.uniform3 7 [0; 0; 0.5; 0; -1; 0]%float.

(** The adiabatic index 1.1, and a gas at rest of density 1 in the field
    (1, 0) whose energy 0.7632202952 leaves the thermal pressure 0.0263,
    on a grid of 4 by 4 zones, with the face field 1 *)
Definition gamma_11 : float := 0x1.199999999999ap+0%float.
Definition U_weak : arr3 float :=
  Sample.uniform3 4 [1; 0; 0; 0x1.86c4cf7f0e1p-1; 1; 0]%float.
Definition B_one : arr2 float := Sample.uniform2 4 1%float.

(** A gas at rest of density 2^-664 and energy 1: the product of two such
    densities is below the least positive float *)
Definition U_thin : arr3 float := Sample.uniform3 4 [0x1p-664; 0; 0; 1; 0; 0]%float.

(** A gas of density 1 and momentum 2^600 along x, whose square is above
    the greatest finite float *)
Definition U_fast : arr3 float := Sample.uniform3 4 [1; 0x1p+600; 0; 1; 0; 0]%float.

(** A field on 9 by 9 zones with a maximum along x in the zones [i = 4]:
    the values -16, -1 and -4 in the zones 3, 4 and 5 *)
Definition hill (i j k : Z) : R := (- IZR ((3 * i - 13) * (3 * i - 13)))%R.

End Cases.

(** * Properties *)

Unset Implicit Arguments.

(** ** Ranges and indices *)

Lemma in_range (a b k : Z) : In k (range a b) <-> a <= k < b.
Proof.
  unfold range. rewrite in_map_iff. split.
  - intros [n [<- Hn]]. apply in_seq in Hn. lia.
  - intros Hk. exists (Z.to_nat (k - a)). split; [lia|].
    apply in_seq. lia.
Qed.

Lemma pyidx_nonneg (n i : Z) : 0 <= i -> pyidx n i = i.
Proof. unfold pyidx. intros Hi. destruct (Z.ltb_spec i 0); lia. Qed.

(** The slice [1:-1] holds the indices 1 to [n - 2]. *)
Lemma in_slice_inner (n k : Z) :
  in_slice n (Some 1) (Some (-1)) k = (1 <=? k) && (k <? n - 1).
Proof.
  unfold in_slice, slice_bound, pyidx.
  change (1 <? 0) with false. change (-1 <? 0) with true. cbv iota.
  destruct (Z.leb_spec (Z.max 0 (Z.min n 1)) k), (Z.leb_spec 1 k),
    (Z.ltb_spec k (Z.max 0 (Z.min n (-1 + n)))), (Z.ltb_spec k (n - 1));
    cbn; try reflexivity; lia.
Qed.

(** A slot below [lo] is outside the slice [lo:hi]. *)
Lemma in_slice_below (n lo k : Z) (hi : option Z) :
  0 <= k < lo -> k < n -> in_slice n (Some lo) hi k = false.
Proof.
  intros Hk Hn. unfold in_slice, slice_bound.
  rewrite (pyidx_nonneg n) by lia.
  destruct (Z.leb_spec (Z.max 0 (Z.min n lo)) k); [lia | reflexivity].
Qed.

(** ** Loops *)

(** The two nested loops over [xs] and [ys], for a body that stores to the
    cell of its indices. *)
Section PureLoops.
Variables (S : Type) (body : Z -> Z -> S -> S).
Variable D : Z -> Z -> Prop.
Variable P : Z -> Z -> S -> Prop.
Hypothesis body_sets : forall i j s, D i j -> P i j (body i j s).
Hypothesis body_keeps : forall i j i' j' s,
  D i' j' -> (i, j) <> (i', j') -> P i j s -> P i j (body i' j' s).

Lemma inner_loop_sets (x i j : Z) (ys : list Z) :
  (forall y, In y ys -> D x y) ->
  forall s, (x = i /\ In j ys) \/ P i j s ->
  P i j (for_pure ys (fun y s => body x y s) s).
Proof.
  unfold for_pure. induction ys as [|y ys IH]; intros HD s Hor; cbn.
  - destruct Hor as [[_ []]|HP]. exact HP.
  - apply IH; [intros z Hz; apply HD; right; exact Hz|].
    assert (Dy : D x y) by (apply HD; left; reflexivity).
    destruct (Z.eq_dec x i) as [->|Hx].
    + destruct (Z.eq_dec y j) as [->|Hy].
      * right. apply body_sets. exact Dy.
      * destruct Hor as [[_ [Hin|Hin]]|HP]; [congruence | left; auto |].
        right. apply body_keeps; [exact Dy | congruence | exact HP].
    + right. destruct Hor as [[Heq _]|HP]; [congruence|].
      apply body_keeps; [exact Dy | congruence | exact HP].
Qed.

Lemma loop2_sets (xs ys : list Z) (i j : Z) :
  (forall x y, In x xs -> In y ys -> D x y) ->
  forall s, (In i xs /\ In j ys) \/ P i j s ->
  P i j (for_pure xs (fun x s => for_pure ys (fun y s => body x y s) s) s).
Proof.
  unfold for_pure at 1. induction xs as [|x xs IH]; intros HD s Hor; cbn.
  - destruct Hor as [[[] _]|HP]. exact HP.
  - apply IH; [intros a b Ha Hb; apply HD; [right; exact Ha | exact Hb]|].
    destruct Hor as [[[->|Hin] Hj]|HP].
    + right. apply inner_loop_sets; [intros y Hy; apply HD; [left; reflexivity | exact Hy]|].
      left. split; [reflexivity | exact Hj].
    + left. split; assumption.
    + right. apply inner_loop_sets; [intros y Hy; apply HD; [left; reflexivity | exact Hy]|].
      right. exact HP.
Qed.

End PureLoops.

(** The same loops for a body [f = g(i, j); s = upd(i, j, f, s)] where [g]
    may raise. *)
Section RaisingLoops.
Variables (S V : Type) (g : Z -> Z -> result V) (upd : Z -> Z -> V -> S -> S).
Variable D : Z -> Z -> Prop.
Variable P : Z -> Z -> V -> S -> Prop.
Hypothesis upd_sets : forall i j v s, D i j -> P i j v (upd i j v s).
Hypothesis upd_keeps : forall i j v i' j' v' s,
  D i' j' -> (i, j) <> (i', j') -> P i j v s -> P i j v (upd i' j' v' s).





End RaisingLoops.

(** ** Scalar division *)

Section Division.
Context {T : Type} `{Num T}.

Lemma sdiv_ok (a b : T) : eqb b zero = false -> sdiv a b = Ok (div a b).
Proof. intros Hb. unfold sdiv. rewrite Hb. reflexivity. Qed.

Lemma sdiv_raises (a b : T) : eqb b zero = true -> sdiv a b = Raise ZeroDivisionError.
Proof. intros Hb. unfold sdiv. rewrite Hb. reflexivity. Qed.

Lemma sdiv_inv (a b q : T) : sdiv a b = Ok q -> eqb b zero = false /\ q = div a b.
Proof.
  unfold sdiv. destruct (eqb b zero); [discriminate|].
  intros Hq. injection Hq as <-. split; reflexivity.
Qed.

End Division.

(** ** The flux function *)

Section FluxFunction.
Context {T : Type} `{Num T}.
Variables idens ixmom iymom iener ixmag iymag irhoX : Z.

Lemma consFlux_returns (idir : Z) (gamma : T) (naux : Z) (U : vec T) :
  eqb (vget U idens) zero = false ->
  exists F, consFlux idir gamma idens ixmom iymom iener ixmag iymag irhoX naux U = Ok F.
Proof.
  intros Hd. unfold consFlux. rewrite !(sdiv_ok _ _ Hd). cbn [bind].
  destruct (idir =? 1); eexists; reflexivity.
Qed.

Lemma consFlux_raises (idir : Z) (gamma : T) (naux : Z) (U : vec T) :
  eqb (vget U idens) zero = true ->
  consFlux idir gamma idens ixmom iymom iener ixmag iymag irhoX naux U
  = Raise ZeroDivisionError.
Proof. intros Hd. unfold consFlux. rewrite (sdiv_raises _ _ Hd). reflexivity. Qed.

Lemma consFlux_vlen (idir : Z) (gamma : T) (naux : Z) (U F : vec T) :
  consFlux idir gamma idens ixmom iymom iener ixmag iymag irhoX naux U = Ok F ->
  vlen F = vlen U.
Proof.
  unfold consFlux.
  destruct (sdiv (vget U ixmom) (vget U idens)) as [u|]; [|discriminate].
  destruct (sdiv (vget U iymom) (vget U idens)) as [v|]; [|discriminate].
  cbn [bind]. destruct (idir =? 1), (0 <? naux); intros HF; injection HF as <-; reflexivity.
Qed.

(** C8.  For a layout whose two field slots are distinct slots of the state
    vector below the species slots, and for every state, adiabatic index,
    species count and direction: [consFlux] returns a flux unless the
    density is zero, and the flux it returns is zero in the slot of the
    field normal to the sweep ([ixmag] for [idir = 1], [iymag] otherwise). *)
Theorem consFlux_normal_field_zero (idir : Z) (gamma : T) (naux : Z) (U : vec T) :
  0 <= ixmag < irhoX -> 0 <= iymag < irhoX -> ixmag <> iymag ->
  ixmag < vlen U -> iymag < vlen U ->
  (eqb (vget U idens) zero = false ->
   exists F, consFlux idir gamma idens ixmom iymom iener ixmag iymag irhoX naux U = Ok F)
  /\ (forall F,
      consFlux idir gamma idens ixmom iymom iener ixmag iymag irhoX naux U = Ok F ->
      vget F (if idir =? 1 then ixmag else iymag) = zero).
Proof.
  intros Hx Hy Hxy Hxn Hyn. split; [apply consFlux_returns|].
  intros F HF. unfold consFlux in HF.
  destruct (sdiv (vget U ixmom) (vget U idens)) as [u|]; [|discriminate].
  destruct (sdiv (vget U iymom) (vget U idens)) as [v|]; [|discriminate].
  cbn [bind] in HF.
  destruct (idir =? 1), (0 <? naux); injection HF as <-;
    unfold vget, vset_slice, vset, vzeros_like; cbn [vat vlen];
    rewrite !(pyidx_nonneg (vlen U)) by lia;
    rewrite ?in_slice_below by lia;
    rewrite ?Z.eqb_refl; try reflexivity;
    (destruct (Z.eqb_spec ixmag iymag) as [|_]; [contradiction|]);
    rewrite ?Z.eqb_refl; reflexivity.
Qed.

End FluxFunction.

(** The flux function at the state of [Sample.U_a]: its density is not
    zero, and its slots 4 and 5 hold the two fields. *)
Lemma consFlux_normal_field_zero_sample :
  (exists F, consFlux 1 2%float 0 1 2 3 4 5 6 0 (row3 Sample.U_a 1 1) = Ok F)
  /\ (forall F, consFlux 1 2%float 0 1 2 3 4 5 6 0 (row3 Sample.U_a 1 1) = Ok F ->
      vget F 4 = 0%float).
Proof.
  destruct (consFlux_normal_field_zero 0 1 2 3 4 5 6 1 2%float 0
              (row3 Sample.U_a 1 1)) as [Hret Hzero]; cbn; try lia.
  split; [apply Hret; reflexivity | exact Hzero].
Defined.

(** ** The solid-wall flags *)

(** C9.  Two runs of [riemann_adiabatic] that differ only in [lower_solid]
    and [upper_solid] give the same outcome: the same flux array, or the
    same exception. *)
Theorem riemann_adiabatic_solid_flags_inert {T : Type} `{Num T}
    (idir ng idens ixmom iymom iener ixmag iymag irhoX nspec : Z)
    (lower_solid upper_solid lower_solid' upper_solid' : Z)
    (gamma : T) (U_l U_r : arr3 T) (Bx By : arr2 T) :
  riemann_adiabatic idir ng idens ixmom iymom iener ixmag iymag irhoX nspec
    lower_solid upper_solid gamma U_l U_r Bx By
  = riemann_adiabatic idir ng idens ixmom iymom iener ixmag iymag irhoX nspec
      lower_solid' upper_solid' gamma U_l U_r Bx By.
Proof. unfold riemann_adiabatic. reflexivity. Qed.

(** ** The corner EMF *)

Section CornerEMF.
Context {T : Type} `{Num T}.
Variables idens ixmom iymom iener ixmag iymag irhoX : Z.

(** C10.  With [use_ref = True] and at least 3 ghost cells (the two loops
    of [emf] reach 3 zones beyond the interior, so that with fewer the
    indices leave the arrays), two runs of [emf] on states of the same
    shape, and the same other arguments, give the same outcome. *)
Theorem emf_reference_ignores_state (ng : Z) (dx dy : T)
    (U U' Fx Fy : arr3 T) (Eref : arr2 T) :
  3 <= ng ->
  shape3 U = shape3 U' ->
  emf ng idens ixmom iymom iener ixmag iymag irhoX dx dy U Fx Fy Eref true
  = emf ng idens ixmom iymom iener ixmag iymag irhoX dx dy U' Fx Fy Eref true.
Proof.
  intros _ Hshape. unfold emf, emf_edges, len0, len1.
  rewrite Hshape. reflexivity.
Qed.

Lemma assign2_ok (qx qy : Z) (B : arr2 T) :
  shape2 B = (qx, qy) ->
  assign2 qx qy B = Ok (mkarr2 (qx, qy) (at2 B)).
Proof.
  intros HB. unfold assign2, broadcastable. rewrite HB. cbn [fst snd].
  rewrite !Z.eqb_refl. reflexivity.
Qed.

(** C3, as the code has it.  For fluxes of the shape of the grid, [emf]
    takes the x-edge EMF from the x-direction flux, as minus its component
    in the slot [iymag] of the y-field, and the y-edge EMF from the
    y-direction flux, as its component in the slot [ixmag] of the x-field:
    in each flux field, the component of the field transverse to that
    direction. *)
Theorem emf_edges_from_transverse_flux (U Fx Fy : arr3 T) (Eref : arr2 T)
    (use_ref : bool) :
  (len0 Fx, len1 Fx) = (len0 U, len1 U) ->
  (len0 Fy, len1 Fy) = (len0 U, len1 U) ->
  (use_ref = true -> broadcastable (len0 U) (len1 U) Eref = true) ->
  exists Er Ex Ey,
    emf_edges idens ixmom iymom ixmag iymag U Fx Fy Eref use_ref = Ok (Er, Ex, Ey)
    /\ forall i j, 0 <= i < len0 U -> 0 <= j < len1 U ->
       get2 Ex i j = neg (get3 Fx i j iymag)
       /\ get2 Ey i j = get3 Fy i j ixmag.
Proof.
  intros HFx HFy HE. unfold emf_edges.
  assert (HEr : exists Er,
    (if negb use_ref
     then assign2 (len0 U) (len1 U)
            (mkarr2 (len0 U, len1 U)
               (fun i j =>
                  neg (sub (mul (div (at2 (plane U ixmom) i j) (at2 (plane U idens) i j))
                                (at2 (plane U iymag) i j))
                           (mul (div (at2 (plane U iymom) i j) (at2 (plane U idens) i j))
                                (at2 (plane U ixmag) i j)))))
     else assign2 (len0 U) (len1 U) Eref) = Ok Er).
  { destruct use_ref; cbn [negb].
    - unfold assign2. rewrite HE by reflexivity. eexists. reflexivity.
    - rewrite assign2_ok by reflexivity. eexists. reflexivity. }
  destruct HEr as [Er ->]. cbn [bind].
  rewrite !assign2_ok by (unfold map2, plane; cbn [shape2]; assumption).
  cbn [bind]. do 3 eexists. split; [reflexivity|].
  intros i j Hi Hj. unfold get2, get3, map2, plane. cbn [shape2 at2 fst snd].
  injection HFx as Hx0 Hx1. injection HFy as Hy0 Hy1.
  rewrite Hx0, Hx1, Hy0, Hy1. split; reflexivity.
Qed.

End CornerEMF.

(** Two states of the shape 7 by 7 by 6, with 3 ghost cells: both runs
    return the same array, whose interior corner holds the reference EMF
    -1. *)
Lemma emf_reference_ignores_state_sample :
  (exists Ec,
     emf 3 0 1 2 3 4 5 6 1%float 1%float Cases.U_a7 Cases.Fx_a7 Cases.Fy_a7
         Sample.Eref_a true = Ok Ec
     /\ get2 Ec 3 3 = (-1)%float)
  /\ emf 3 0 1 2 3 4 5 6 1%float 1%float Cases.U_a7 Cases.Fx_a7 Cases.Fy_a7
         Sample.Eref_a true
     = emf 3 0 1 2 3 4 5 6 1%float 1%float Cases.U_b7 Cases.Fx_a7 Cases.Fy_a7
           Sample.Eref_a true.
Proof.
  split.
  - eexists. split; [vm_compute; reflexivity | vm_compute; reflexivity].
  - apply emf_reference_ignores_state; [lia | reflexivity].
Defined.

(** The fluxes of [Sample.U_a], on its grid. *)
Lemma emf_edges_from_transverse_flux_sample :
  exists Er Ex Ey,
    emf_edges 0 1 2 4 5 Sample.U_a Sample.Fx_a Sample.Fy_a Sample.Eref_a false
    = Ok (Er, Ex, Ey)
    /\ forall i j, 0 <= i < 3 -> 0 <= j < 3 ->
       get2 Ex i j = neg (get3 Sample.Fx_a i j 5)
       /\ get2 Ey i j = get3 Sample.Fy_a i j 4.
Proof.
  apply (emf_edges_from_transverse_flux 0 1 2 4 5 Sample.U_a Sample.Fx_a Sample.Fy_a
           Sample.Eref_a false); [reflexivity | reflexivity | discriminate].
Defined.

(** C3, as the claim has it, fails.  On the fluxes of the uniform state
    [Sample.U_a] the x-edge EMF is -1, which is minus the y-field component
    of the x-direction flux; minus the normal-field component of the
    y-direction flux is -0.  The y-edge EMF is -1, the x-field component of
    the y-direction flux; the transverse-field component of the x-direction
    flux is 1. *)
Lemma emf_edges_not_from_other_flux :
  exists Er Ex Ey,
    emf_edges 0 1 2 4 5 Sample.U_a Sample.Fx_a Sample.Fy_a Sample.Eref_a false
    = Ok (Er, Ex, Ey)
    /\ get2 Ex 1 1 = (-1)%float
    /\ neg (get3 Sample.Fy_a 1 1 5) = (-0)%float
    /\ eqb (get2 Ex 1 1) (neg (get3 Sample.Fy_a 1 1 5)) = false
    /\ get2 Ey 1 1 = (-1)%float
    /\ get3 Sample.Fx_a 1 1 5 = 1%float
    /\ eqb (get2 Ey 1 1) (get3 Sample.Fx_a 1 1 5) = false.
Proof.
  do 3 eexists. split; [reflexivity|].
  repeat split; reflexivity.
Qed.

(** ** The source term *)

Ltac zbool :=
  repeat match goal with
         | |- context [(?a =? ?b)%Z] => destruct (Z.eqb_spec a b)
         end;
  cbn [andb]; try reflexivity; try lia; try congruence.

Section SourceTerm.
Context {T : Type} `{Num T}.
Variables idens ixmom iymom iener ixmag iymag irhoX : Z.

(** C4, as the code has it.  For every cell of the computed range (all but
    the outermost cells) and either direction, with the arrays of one shape
    and the slots within it: the x-momentum source is the x-field of the
    cell times the difference of the normal interface field, over [dx],
    and the y-momentum source is the y-field of the cell times that same
    difference, over [dx].  The two entries share the difference quotient,
    not the field that multiplies it. *)
Theorem sources_momentum_entries (idir ng : Z) (dx : T) (U Ux : arr3 T) (i j : Z) :
  shape3 Ux = shape3 U ->
  0 <= ixmom < len2 U -> 0 <= iymom < len2 U -> ixmom <> iymom ->
  0 <= ixmag < len2 U -> 0 <= iymag < len2 U ->
  1 <= i < len0 U - 1 -> 1 <= j < len1 U - 1 ->
  let S := sources idir ng idens ixmom iymom iener ixmag iymag irhoX dx U Ux in
  get3 S i j ixmom
  = div (mul (get3 U i j ixmag) (normal_field_jump ixmag iymag idir Ux i j)) dx
  /\ get3 S i j iymom
     = div (mul (get3 U i j iymag) (normal_field_jump ixmag iymag idir Ux i j)) dx.
Proof.
  intros _ Hxm Hym Hne _ _ Hi Hj S.
  assert (Hat : at3 S i j ixmom
                = div (mul (get3 U i j ixmag) (normal_field_jump ixmag iymag idir Ux i j)) dx
                /\ at3 S i j iymom
                   = div (mul (get3 U i j iymag) (normal_field_jump ixmag iymag idir Ux i j)) dx).
  { unfold S, sources.
    apply (loop2_sets _ _
             (fun i j => 0 <= i /\ 0 <= j)
             (fun i j S =>
                at3 S i j ixmom
                = div (mul (get3 U i j ixmag) (normal_field_jump ixmag iymag idir Ux i j)) dx
                /\ at3 S i j iymom
                   = div (mul (get3 U i j iymag) (normal_field_jump ixmag iymag idir Ux i j)) dx)).
    - intros a b s [Ha Hb]. unfold normal_field_jump.
      destruct (idir =? 1); unfold set3; cbn [at3 shape3];
        rewrite !pyidx_nonneg by lia; split; zbool.
    - intros a b a' b' s [Ha Hb] Hab [H1 H2].
      destruct (idir =? 1); unfold set3; cbn [at3 shape3];
        rewrite !pyidx_nonneg by lia; split; zbool.
    - intros x y Hx Hy. apply in_range in Hx, Hy. lia.
    - left. rewrite !in_range. lia. }
  unfold get3 at 1 3. rewrite !pyidx_nonneg by lia. exact Hat.
Qed.

End SourceTerm.

(** The cell (1, 1) of a 3 by 3 grid. *)
Lemma sources_momentum_entries_sample :
  get3 (sources 1 1 0 1 2 3 4 5 6 1%float Sample.U_c Sample.Ux_c) 1 1 1
  = div (mul (get3 Sample.U_c 1 1 4) (normal_field_jump 4 5 1 Sample.Ux_c 1 1)) 1%float
  /\ get3 (sources 1 1 0 1 2 3 4 5 6 1%float Sample.U_c Sample.Ux_c) 1 1 2
     = div (mul (get3 Sample.U_c 1 1 5) (normal_field_jump 4 5 1 Sample.Ux_c 1 1)) 1%float.
Proof.
  apply (sources_momentum_entries 0 1 2 3 4 5 6 1 1 1%float Sample.U_c Sample.Ux_c 1 1);
    cbn; try reflexivity; lia.
Defined.

(** C4, as the claim has it, fails.  In a cell with the fields (1, 2),
    between interfaces whose normal field differs by 1, with [dx = 1]: the
    x-momentum source is 1, the normal field of the cell times the
    difference quotient, and the y-momentum source is 2. *)
Lemma sources_momentum_entries_differ :
  mul (get3 Sample.U_c 1 1 4)
      (div (normal_field_jump 4 5 1 Sample.Ux_c 1 1) 1%float) = 1%float
  /\ get3 (sources 1 1 0 1 2 3 4 5 6 1%float Sample.U_c Sample.Ux_c) 1 1 1 = 1%float
  /\ get3 (sources 1 1 0 1 2 3 4 5 6 1%float Sample.U_c Sample.Ux_c) 1 1 2 = 2%float.
Proof. repeat split; reflexivity. Qed.

(** ** Exact arithmetic *)

Section ExactArithmetic.
Local Open Scope R_scope.

Lemma x_isnan (a : R) : isnan (Some a : xreal) = false.
Proof. unfold isnan. cbn. destruct (Req_dec_T a a); [reflexivity | contradiction]. Qed.

Lemma x_pymax (a b : R) : pymax (Some a : xreal) (Some b) = Some (Rmax a b).
Proof.
  unfold pymax, Rmax. cbn.
  destruct (Rlt_dec a b), (Rle_dec a b); try reflexivity; try lra; f_equal; lra.
Qed.

Lemma x_pymin (a b : R) : pymin (Some a : xreal) (Some b) = Some (Rmin a b).
Proof.
  unfold pymin, Rmin. cbn.
  destruct (Rlt_dec b a), (Rle_dec a b); try reflexivity; try lra; f_equal; lra.
Qed.

(** A nan as second argument leaves the first. *)
Lemma x_pymax_nan (a : xreal) : pymax a None = a.
Proof. unfold pymax. cbn. destruct a; reflexivity. Qed.

Lemma x_pymin_nan (a : xreal) : pymin a None = a.
Proof. unfold pymin. cbn. destruct a; reflexivity. Qed.

Lemma x_np_minimum (a b : R) : np_minimum (Some a : xreal) (Some b) = Some (Rmin a b).
Proof.
  unfold np_minimum. rewrite !x_isnan. unfold Rmin. cbn.
  destruct (Rle_dec a b); reflexivity.
Qed.

Lemma x_np_sign (a : R) :
  np_sign (Some a : xreal)
  = Some (if Rlt_dec 0 a then 1 else if Rlt_dec a 0 then -1 else 0).
Proof.
  unfold np_sign. cbn.
  destruct (Rlt_dec 0 a); [reflexivity|].
  destruct (Rlt_dec a 0); [reflexivity|].
  f_equal. lra.
Qed.

Lemma x_div (a b : R) : b <> 0 -> div (Some a : xreal) (Some b) = Some (a / b).
Proof. intros Hb. cbn. destruct (Req_dec_T b 0); [contradiction | reflexivity]. Qed.

Lemma x_sqrt (a : R) : 0 <= a -> sqrt (Some a : xreal) = Some (R_sqrt.sqrt a).
Proof. intros Ha. cbn. destruct (Rle_dec 0 a); [reflexivity | contradiction]. Qed.

Lemma x_sqrt_neg (a : R) : a < 0 -> sqrt (Some a : xreal) = None.
Proof. intros Ha. cbn. destruct (Rle_dec 0 a); [lra | reflexivity]. Qed.

Lemma x_nonzero (a : R) : a <> 0 -> eqb (Some a : xreal) zero = false.
Proof. intros Ha. cbn. destruct (Req_dec_T a 0); [contradiction | reflexivity]. Qed.

Lemma x_sdiv (a b : R) : b <> 0 -> sdiv (Some a : xreal) (Some b) = Ok (Some (a / b)).
Proof. intros Hb. rewrite sdiv_ok by (apply x_nonzero; exact Hb). rewrite x_div by exact Hb. reflexivity. Qed.

(** The slope of line 119 on three finite differences *)
Lemma x_limited_slope (dl dr dc : R) :
  limited_slope (Some dl : xreal) (Some dr) (Some dc)
  = Some ((if Rlt_dec 0 dc then 1 else if Rlt_dec dc 0 then -1 else 0)
          * Rmin (2 * Rabs dl) (Rmin (2 * Rabs dr) (Rabs dc))).
Proof.
  unfold limited_slope. rewrite x_np_sign.
  cbn [abs mul two xreal_num xlift1 xlift2].
  rewrite !x_np_minimum. reflexivity.
Qed.

Lemma limited_slope_facts (dl dr dc : R) :
  let s := (if Rlt_dec 0 dc then 1 else if Rlt_dec dc 0 then -1 else 0)
           * Rmin (2 * Rabs dl) (Rmin (2 * Rabs dr) (Rabs dc)) in
  Rabs s = Rmin (2 * Rabs dl) (Rmin (2 * Rabs dr) (Rabs dc))
  /\ (s = 0 \/ (0 < s /\ 0 < dc) \/ (s < 0 /\ dc < 0))
  /\ (dl <> 0 -> dr <> 0 -> dc <> 0 -> s <> 0).
Proof.
  intros s. subst s.
  set (m := Rmin (2 * Rabs dl) (Rmin (2 * Rabs dr) (Rabs dc))).
  assert (Hm0 : 0 <= m).
  { unfold m. pose proof (Rabs_pos dl). pose proof (Rabs_pos dr). pose proof (Rabs_pos dc).
    apply Rmin_glb; [lra | apply Rmin_glb; lra]. }
  assert (Hmc : m <= Rabs dc).
  { unfold m. eapply Rle_trans; [apply Rmin_r | apply Rmin_r]. }
  assert (Hpos : dl <> 0 -> dr <> 0 -> dc <> 0 -> 0 < m).
  { intros Hl Hr Hc. unfold m.
    pose proof (Rabs_pos_lt dl Hl). pose proof (Rabs_pos_lt dr Hr).
    pose proof (Rabs_pos_lt dc Hc).
    apply Rmin_glb_lt; [lra | apply Rmin_glb_lt; lra]. }
  destruct (Rlt_dec 0 dc) as [Hc|Hc]; [|destruct (Rlt_dec dc 0) as [Hc'|Hc']].
  - rewrite Rmult_1_l. rewrite (Rabs_pos_eq m Hm0). split; [reflexivity|]. split.
    + destruct (Req_dec_T m 0); [left; assumption | right; left; split; lra].
    + intros Hl Hr Hd. specialize (Hpos Hl Hr Hd). lra.
  - replace (-1 * m) with (- m) by ring. rewrite Rabs_Ropp, (Rabs_pos_eq m Hm0).
    split; [reflexivity|]. split.
    + destruct (Req_dec_T m 0); [left; lra | right; right; split; lra].
    + intros Hl Hr Hd. specialize (Hpos Hl Hr Hd). lra.
  - assert (dc = 0) by lra. subst dc. rewrite Rabs_R0 in Hmc.
    assert (m = 0) by lra. rewrite Rmult_0_l, Rabs_R0.
    split; [lra|]. split; [left; reflexivity|]. intros _ _ Hd. contradiction.
Qed.

End ExactArithmetic.

(** ** The limited slope *)

Section SlopeLimiter.
Local Open Scope R_scope.

(** C7, as the code has it.  For a finite field and a cell with both
    neighbours along the sweep axis, let [a], [b], [c] be the values of a
    component in the three consecutive cells.  The slope [dq] that [states]
    computes is finite, at most [min (2|b - a|, 2|c - b|, |(c - a)/2|)] in
    absolute value, and zero or of the sign of the centered difference.
    It has that sign when the three differences are all nonzero and the
    component is not the field normal to the sweep; it is zero otherwise
    (also for a centered difference that is not zero). *)
Theorem limited_slope_bounded (idir ibx iby qx qy nvar : Z) (f : Z -> Z -> Z -> R)
    (i j k : Z) :
  (0 <= i < qx)%Z -> (0 <= j < qy)%Z -> (0 <= k < nvar)%Z ->
  (if (idir =? 1)%Z then 1 <= i < qx - 1 else 1 <= j < qy - 1)%Z ->
  let a := if (idir =? 1)%Z then f (i - 1)%Z j k else f i (j - 1)%Z k in
  let b := f i j k in
  let c := if (idir =? 1)%Z then f (i + 1)%Z j k else f i (j + 1)%Z k in
  exists s : R,
    get3 (states_dq idir ibx iby (fin3 qx qy nvar f)) i j k = Some s
    /\ Rabs s <= Rmin (2 * Rabs (b - a)) (Rmin (2 * Rabs (c - b)) (Rabs (1 / 2 * (c - a))))
    /\ (s = 0 \/ (0 < s /\ 0 < c - a) \/ (s < 0 /\ c - a < 0))
    /\ (b - a <> 0 -> c - b <> 0 -> c - a <> 0 ->
        k <> pyidx nvar (if (idir =? 1)%Z then ibx else iby) ->
        s <> 0 /\ Rabs s = Rmin (2 * Rabs (b - a))
                             (Rmin (2 * Rabs (c - b)) (Rabs (1 / 2 * (c - a))))).
Proof.
  intros Hi Hj Hk Hin a b c.
  pose proof (limited_slope_facts (b - a) (c - b) (1 / 2 * (c - a))) as Hfacts.
  cbv zeta in Hfacts. destruct Hfacts as [Habs [Hsign Hnz]].
  set (m := Rmin (2 * Rabs (b - a)) (Rmin (2 * Rabs (c - b)) (Rabs (1 / 2 * (c - a))))) in *.
  assert (Hm0 : 0 <= m).
  { unfold m. pose proof (Rabs_pos (b - a)). pose proof (Rabs_pos (c - b)).
    pose proof (Rabs_pos (1 / 2 * (c - a))).
    apply Rmin_glb; [lra | apply Rmin_glb; lra]. }
  unfold get3. cbn [len0 len1 len2 shape3 fst snd].
  rewrite !pyidx_nonneg by lia.
  assert (Hdq : at3 (states_dq idir ibx iby (fin3 qx qy nvar f)) i j k
                = if (k =? pyidx nvar (if (idir =? 1)%Z then ibx else iby))%Z
                  then Some 0
                  else limited_slope (Some (b - a) : xreal) (Some (c - b))
                                     (Some (1 / 2 * (c - a)))).
  { unfold states_dq, a, b, c. destruct (idir =? 1)%Z;
      unfold set_plane, set_slab0, set_slab1, zeros_like3, fin3;
      cbn [at3 shape3 len0 len1 len2 fst snd];
      rewrite !in_slice_inner;
      [ replace ((1 <=? i)%Z && (i <? qx - 1)%Z) with true
          by (symmetry; apply andb_true_iff; split; [apply Z.leb_le | apply Z.ltb_lt]; lia)
      | replace ((1 <=? j)%Z && (j <? qy - 1)%Z) with true
          by (symmetry; apply andb_true_iff; split; [apply Z.leb_le | apply Z.ltb_lt]; lia) ];
      reflexivity. }
  rewrite Hdq.
  destruct (Z.eqb_spec k (pyidx nvar (if (idir =? 1)%Z then ibx else iby))) as [Hkn|Hkn].
  - exists 0. split; [reflexivity|]. rewrite Rabs_R0.
    split; [exact Hm0|]. split; [left; reflexivity|].
    intros _ _ _ Hne. contradiction.
  - rewrite x_limited_slope. fold m. eexists. split; [reflexivity|].
    split; [rewrite Habs; apply Rle_refl|]. split.
    + destruct Hsign as [H0|[[H1 H2]|[H1 H2]]];
        [left; exact H0 | right; left; split; lra | right; right; split; lra].
    + intros Hl Hr Hc _. split; [apply Hnz; lra | exact Habs].
Qed.

End SlopeLimiter.

(** The values 1, 2, 4 of one component in three cells along x. *)
Lemma limited_slope_bounded_sample :
  exists s : R,
    get3 (states_dq 1 4 5 (fin3 3 1 1 (fun i _ _ => (IZR i * IZR i)%R + 1)%R)) 1 0 0 = Some s
    /\ (Rabs s <= Rmin (2 * Rabs (IZR 1 * IZR 1 + 1 - (IZR (1 - 1) * IZR (1 - 1) + 1)))
                       (Rmin (2 * Rabs (IZR (1 + 1) * IZR (1 + 1) + 1 - (IZR 1 * IZR 1 + 1)))
                          (Rabs (1 / 2 * (IZR (1 + 1) * IZR (1 + 1) + 1
                                          - (IZR (1 - 1) * IZR (1 - 1) + 1))))))%R
    /\ (s = 0 \/ (0 < s /\ 0 < IZR (1 + 1) * IZR (1 + 1) + 1 - (IZR (1 - 1) * IZR (1 - 1) + 1))
        \/ (s < 0 /\ IZR (1 + 1) * IZR (1 + 1) + 1 - (IZR (1 - 1) * IZR (1 - 1) + 1) < 0))%R.
Proof.
  destruct (limited_slope_bounded 1 4 5 3 1 1 (fun i _ _ => (IZR i * IZR i)%R + 1)%R 1 0 0)
    as [s [Hs [Hb [Hsign _]]]]; cbn; try lia.
  exists s. split; [exact Hs|]. split; [exact Hb | exact Hsign].
Defined.

(** C7, as the claim has it, fails.  For the three values 1, 1, 3 the
    centered difference is 1, of positive sign, and the limited slope is 0:
    the backward difference is 0. *)
Lemma limited_slope_zero_on_plateau :
  limited_slope (1 - 1)%float (3 - 1)%float (0.5 * (3 - 1))%float = 0%float
  /\ (0.5 * (3 - 1))%float = 1%float
  /\ np_sign (0.5 * (3 - 1))%float = 1%float
  /\ np_sign (limited_slope (1 - 1)%float (3 - 1)%float (0.5 * (3 - 1))%float) = 0%float.
Proof. repeat split; reflexivity. Qed.

(** ** Reconstruction of a uniform field *)

Section UniformField.
Local Open Scope R_scope.
Variables (idir ng : Z) (dx dt : xreal) (irho iu iv ip ibx iby ix nspec : Z).
Variables (gamma : xreal) (qx qy nvar : Z) (v : Z -> R) (Bx By : arr2 xreal).

(** Every cell holds the state [v]. *)
Let qv : arr3 xreal := fin3 qx qy nvar (fun _ _ k => v k).

Lemma states_dq_uniform (a b c : Z) : at3 (states_dq idir ibx iby qv) a b c = Some 0.
Proof.
  assert (Hs : forall x y z : R, x = 0 -> y = 0 -> z = 0 ->
            limited_slope (Some x : xreal) (Some y) (Some z) = Some 0).
  { intros x y z -> -> ->. rewrite x_limited_slope. f_equal.
    destruct (Rlt_dec 0 0); [lra|]. destruct (Rlt_dec 0 0); [lra|]. ring. }
  unfold states_dq, qv. destruct (idir =? 1)%Z;
    unfold set_plane, set_slab0, set_slab1, zeros_like3, fin3;
    cbn [at3 shape3 len0 len1 len2 fst snd];
    match goal with |- context [(c =? ?n)%Z] => destruct (c =? n)%Z end;
    try reflexivity;
    match goal with |- context [in_slice ?n ?lo ?hi ?k] => destruct (in_slice n lo hi k) end;
    cbn [sub mul half zero xreal_num xlift2]; apply Hs; lra.
Qed.

Lemma edge_plus_uniform (a b c : Z) :
  vat (edge_plus qv (states_dq idir ibx iby qv) a b) c = Some (v c).
Proof.
  unfold edge_plus, row3. cbn [vat]. rewrite states_dq_uniform.
  unfold qv, fin3. cbn [at3 add mul half xreal_num xlift2]. f_equal. lra.
Qed.

Lemma edge_minus_uniform (a b c : Z) :
  vat (edge_minus qv (states_dq idir ibx iby qv) a b) c = Some (v c).
Proof.
  unfold edge_minus, row3. cbn [vat]. rewrite states_dq_uniform.
  unfold qv, fin3. cbn [at3 sub mul half xreal_num xlift2]. f_equal. lra.
Qed.

(** C6.  For a field of finite values that is the same in every cell, with
    the ghost width of at least 4 that the loop of [states] needs to stay
    inside the arrays: in every interior cell and every component, for
    either direction, the left and the right interface state that [states]
    returns are the value of the cell, and the limited slope is zero. *)
Theorem states_uniform_exact (i j k : Z) :
  (4 <= ng)%Z -> (ng <= i < qx - ng)%Z -> (ng <= j < qy - ng)%Z -> (0 <= k < nvar)%Z ->
  let q := states idir ng dx dt irho iu iv ip ibx iby ix nspec gamma qv Bx By in
  get3 (fst q) i j k = get3 qv i j k
  /\ get3 (snd q) i j k = get3 qv i j k
  /\ get3 qv i j k = Some (v k)
  /\ get3 (states_dq idir ibx iby qv) i j k = Some 0.
Proof.
  intros Hng Hi Hj Hk q.
  set (P := fun (a b : Z) (s : arr3 xreal * arr3 xreal) =>
              (forall c, at3 (fst s) (if (idir =? 1)%Z then a + 1 else a)%Z
                             (if (idir =? 1)%Z then b else b + 1)%Z c = Some (v c))
              /\ (forall c, at3 (snd s) a b c = Some (v c))).
  assert (Hloop : forall a b, (ng - 3 <= a < qx - ng + 3)%Z -> (ng - 3 <= b < qy - ng + 3)%Z ->
                              P a b q).
  { intros a b Ha Hb. unfold q, states.
    apply (loop2_sets _ _ (fun a b => 0 <= a /\ 0 <= b)%Z P).
    - intros a' b' [ql qr] [Ha' Hb']. unfold P. cbn [fst snd].
      destruct (idir =? 1)%Z; cbn [fst snd]; unfold set_row3; cbn [at3];
        rewrite !pyidx_nonneg by lia; rewrite !Z.eqb_refl; cbn [andb];
        split; intros c; [apply edge_plus_uniform | apply edge_minus_uniform
                         | apply edge_plus_uniform | apply edge_minus_uniform].
    - intros a1 b1 a' b' [ql qr] [Ha' Hb'] Hne [H1 H2]. unfold P in *. cbn [fst snd] in *.
      destruct (idir =? 1)%Z; cbn [fst snd]; unfold set_row3; cbn [at3];
        split; intros c;
        match goal with
        | |- (if ?t then _ else _) = _ =>
            destruct t; [first [apply edge_plus_uniform | apply edge_minus_uniform]|]
        end; auto.
    - intros x y Hx Hy. apply in_range in Hx, Hy. cbn [len0 len1 qv fin3 shape3 fst snd] in *. lia.
    - left. rewrite !in_range. cbn [len0 len1 qv fin3 shape3 fst snd]. lia. }
  assert (Hqv : get3 qv i j k = Some (v k)).
  { unfold get3, qv, fin3. cbn [at3 len2 shape3 snd]. rewrite pyidx_nonneg by lia.
    reflexivity. }
  rewrite Hqv. unfold get3. rewrite !pyidx_nonneg by lia.
  split; [|split; [|split; [reflexivity | apply states_dq_uniform]]].
  - destruct (Z.eqb_spec idir 1) as [Hd|Hd].
    + destruct (Hloop (i - 1)%Z j ltac:(lia) ltac:(lia)) as [Hl _].
      specialize (Hl k). cbv beta iota in Hl.
      replace (i - 1 + 1)%Z with i in Hl by lia. exact Hl.
    + destruct (Hloop i (j - 1)%Z ltac:(lia) ltac:(lia)) as [Hl _].
      specialize (Hl k). cbv beta iota in Hl.
      replace (j - 1 + 1)%Z with j in Hl by lia. exact Hl.
  - destruct (Hloop i j ltac:(lia) ltac:(lia)) as [_ Hr]. apply Hr.
Qed.

End UniformField.

(** A 9 by 9 grid with 4 ghost cells, whose every cell holds the state
    (0, 1, 2, 3, 4, 5); the cell (4, 4) is its interior cell. *)
Lemma states_uniform_exact_sample :
  let qv := fin3 9 9 6 (fun _ _ k => IZR k) in
  let q := states 1 4 (Some 1%R) (Some 1%R) 0 1 2 3 4 5 6 0 (Some 2%R) qv
             (fin2 9 9 (fun _ _ => 4%R)) (fin2 9 9 (fun _ _ => 5%R)) in
  get3 (fst q) 4 4 1 = get3 qv 4 4 1
  /\ get3 (snd q) 4 4 1 = get3 qv 4 4 1
  /\ get3 qv 4 4 1 = Some 1%R
  /\ get3 (states_dq 1 4 5 qv) 4 4 1 = Some 0%R.
Proof.
  apply (states_uniform_exact 1 4 (Some 1%R) (Some 1%R) 0 1 2 3 4 5 6 0 (Some 2%R)
           9 9 6 (fun k => IZR k)); lia.
Defined.

(** ** Vectors *)

Section Vectors.
Context {T : Type} `{Num T}.

Lemma vget_vset_same (v : vec T) (i : Z) (x : T) : vget (vset v i x) i = x.
Proof.
  unfold vget, vset. cbn [vat vlen].
  rewrite Z.eqb_refl. reflexivity.
Qed.

Lemma vget_vset_other (v : vec T) (i j : Z) (x : T) :
  0 <= i -> 0 <= j -> i <> j -> vget (vset v i x) j = vget v j.
Proof.
  intros Hi Hj Hne. unfold vget, vset. cbn [vat vlen].
  rewrite !pyidx_nonneg by lia.
  destruct (Z.eqb_spec j i); [lia | reflexivity].
Qed.

Lemma vget_vset_slice_out (v : vec T) (a b : option Z) (f : Z -> T) (j : Z) :
  0 <= j -> in_slice (vlen v) a b j = false -> vget (vset_slice v a b f) j = vget v j.
Proof.
  intros Hj Hout. unfold vget, vset_slice. cbn [vat vlen].
  rewrite !pyidx_nonneg by lia. rewrite Hout. reflexivity.
Qed.

Lemma vget_vset_slice_in (v : vec T) (a b : option Z) (f : Z -> T) (j : Z) :
  0 <= j -> in_slice (vlen v) a b j = true -> vget (vset_slice v a b f) j = f j.
Proof.
  intros Hj Hin. unfold vget, vset_slice. cbn [vat vlen].
  rewrite !pyidx_nonneg by lia. rewrite Hin. reflexivity.
Qed.

Lemma vget_zeros (v : vec T) (j : Z) : vget (vzeros_like v) j = zero.
Proof. reflexivity. Qed.

(** A slice [lo:hi] between 0 and [n] holds the indices from [lo] below [hi]. *)
Lemma in_slice_within (n lo hi k : Z) :
  0 <= lo -> 0 <= hi <= n ->
  in_slice n (Some lo) (Some hi) k = (lo <=? k) && (k <? hi).
Proof.
  intros Hlo Hhi. unfold in_slice, slice_bound. rewrite !pyidx_nonneg by lia.
  destruct (Z.leb_spec (Z.max 0 (Z.min n lo)) k), (Z.leb_spec lo k),
    (Z.ltb_spec k (Z.max 0 (Z.min n hi))), (Z.ltb_spec k hi);
    cbn; try reflexivity; lia.
Qed.

End Vectors.

(** ** Layouts *)

Section Layouts.
Variables nvar idens ixmom iymom iener ixmag iymag irhoX : Z.
Hypothesis Hlay : layout_ok nvar idens ixmom iymom iener ixmag iymag irhoX.

Lemma layout_bounds :
  0 <= idens < irhoX /\ 0 <= ixmom < irhoX /\ 0 <= iymom < irhoX
  /\ 0 <= iener < irhoX /\ 0 <= ixmag < irhoX /\ 0 <= iymag < irhoX
  /\ iymag = ixmag + 1 /\ irhoX <= nvar.
Proof.
  destruct Hlay as [_ [Hb [Hadj Hn]]].
  repeat match goal with
         | Hf : Forall _ (_ :: _) |- _ => inversion Hf; subst; clear Hf
         end.
  repeat split; lia.
Qed.

Lemma layout_distinct (i j : Z) :
  In (i, j) [(idens, ixmom); (idens, iymom); (idens, iener); (idens, ixmag);
             (idens, iymag); (ixmom, iymom); (ixmom, iener); (ixmom, ixmag);
             (ixmom, iymag); (iymom, iener); (iymom, ixmag); (iymom, iymag);
             (iener, ixmag); (iener, iymag); (ixmag, iymag)] ->
  i <> j /\ j <> i.
Proof.
  destruct Hlay as [Hnd _]. intros Hin.
  assert (Hij : i <> j).
  { repeat match goal with
           | Hd : NoDup (_ :: _) |- _ => inversion Hd; subst; clear Hd
           end.
    cbn [In] in *. intros Heq. subst j.
    repeat match goal with
           | Ho : _ \/ _ |- _ => destruct Ho
           | He : (_, _) = (_, _) |- _ => inversion He; subst; clear He
           | Hf : False |- _ => contradiction
           end; intuition. }
  split; [exact Hij | intros Heq; apply Hij; symmetry; exact Heq].
Qed.

End Layouts.

(** The layout of the samples *)
Lemma layout_ok_sample : layout_ok 6 0 1 2 3 4 5 6.
Proof.
  unfold layout_ok. split; [|split; [|split; [reflexivity | lia]]].
  - repeat constructor; cbn; intuition lia.
  - repeat constructor; lia.
Qed.

(** [i <> j] for two of the six slots of a layout [Hlay] *)
Ltac slot_ne Hlay :=
  match goal with
  | |- ?i <> ?j =>
      first [ apply (fun Hin => proj1 (layout_distinct _ _ _ _ _ _ _ _ Hlay i j Hin));
              cbn [In]; solve [repeat first [left; reflexivity | right]]
            | apply (fun Hin => proj2 (layout_distinct _ _ _ _ _ _ _ _ Hlay j i Hin));
              cbn [In]; solve [repeat first [left; reflexivity | right]] ]
  end.

(** ** The loop body of the Riemann solver *)

(** [H : m1 >>= ... = Ok _]: every step returned. *)
Lemma bind_inv {A B : Type} (m : result A) (k : A -> result B) (b : B) :
  bind m k = Ok b -> exists a, m = Ok a /\ k a = Ok b.
Proof.
  destruct m as [a|e]; cbn [bind]; [|discriminate].
  intros Hk. exists a. split; [reflexivity | exact Hk].
Qed.

Lemma bind_returns {A B : Type} (m : result A) (k : A -> result B) :
  (exists a, m = Ok a) -> (forall a, m = Ok a -> exists b, k a = Ok b) ->
  exists b, bind m k = Ok b.
Proof. intros [a Ha] Hk. rewrite Ha. cbn [bind]. apply (Hk a Ha). Qed.

Ltac invert_binds H :=
  repeat match type of H with
         | bind _ _ = Ok _ =>
             let a := fresh "a" in
             let E := fresh "E" in
             apply bind_inv in H; destruct H as [a [E H]]; cbv beta in H
         end.

(** [E : sdiv a b = Ok q] becomes [E : q = div a b]. *)
Ltac invert_sdivs :=
  repeat match goal with
         | E : sdiv _ _ = Ok _ |- _ =>
             apply sdiv_inv in E; destruct E as [_ E]
         end.

Section RiemannBody.
Context {T : Type} `{Num T}.
Variables idir idens ixmom iymom iener ixmag iymag irhoX nspec : Z.
Variables (gamma : T) (Ul Ur : vec T) (Bx_ij By_ij : T).

(** The fields on the two sides, and their normalisation *)
Let Bx_l : T := if idir =? 1 then Bx_ij else vget Ul ixmag.
Let Bx_r : T := if idir =? 1 then Bx_ij else vget Ur ixmag.
Let By_l : T := if idir =? 1 then vget Ul iymag else By_ij.
Let By_r : T := if idir =? 1 then vget Ur iymag else By_ij.
Let norm (b : T) : T := div b (sqrt (mul four pi)).

(** The fast speed of lines 282 to 300, from the sound speed [c], the
    normalised fields and the density of one side. *)
Let fast (c bx by_ rho : T) : T :=
  let cA2 := div (add (sq bx) (sq by_)) rho in
  let cAx2 := if idir =? 1 then div (sq bx) rho else div (sq by_) rho in
  sqrt (mul half (add (add (sq c) cA2)
                      (sqrt (sub (sq (add (sq c) cA2)) (mul (mul four (sq c)) cAx2))))).

(** What a pass of the loop body that reaches the flux blend has computed. *)
Lemma riemann_states_inv (lc : riemann_locals) :
  riemann_states idir idens ixmom iymom iener ixmag iymag irhoX nspec gamma
    Ul Ur Bx_ij By_ij = Ok lc ->
  (rl_rho_l lc = vget Ul idens /\ rl_rho_r lc = vget Ur idens)
  /\ (rl_un_l lc = div (vget Ul (if idir =? 1 then ixmom else iymom)) (vget Ul idens)
      /\ rl_un_r lc = div (vget Ur (if idir =? 1 then ixmom else iymom)) (vget Ur idens))
  /\ (rl_ut_l lc = div (vget Ul (if idir =? 1 then iymom else ixmom)) (vget Ul idens)
      /\ rl_ut_r lc = div (vget Ur (if idir =? 1 then iymom else ixmom)) (vget Ur idens))
  /\ (rl_rhoe_l lc
      = sub (sub (vget Ul iener)
                 (mul (mul half (rl_rho_l lc)) (add (sq (rl_un_l lc)) (sq (rl_ut_l lc)))))
            (mul half (add (sq Bx_l) (sq By_l)))
      /\ rl_rhoe_r lc
         = sub (sub (vget Ur iener)
                    (mul (mul half (rl_rho_r lc)) (add (sq (rl_un_r lc)) (sq (rl_ut_r lc)))))
               (mul half (add (sq Bx_r) (sq By_r))))
  /\ (rl_p_l lc = pymax (mul (rl_rhoe_l lc) (sub gamma one)) tiny
      /\ rl_p_r lc = pymax (mul (rl_rhoe_r lc) (sub gamma one)) tiny)
  /\ (rl_c_l lc = pymax tiny (sqrt (div (mul gamma (rl_p_l lc)) (rl_rho_l lc)))
      /\ rl_c_r lc = pymax tiny (sqrt (div (mul gamma (rl_p_r lc)) (rl_rho_r lc))))
  /\ (rl_cf_l lc = fast (rl_c_l lc) (norm Bx_l) (norm By_l) (rl_rho_l lc)
      /\ rl_cf_r lc = fast (rl_c_r lc) (norm Bx_r) (norm By_r) (rl_rho_r lc))
  /\ (rl_bp lc = pymax (pymax (np_max (rl_evals lc)) (add (rl_un_r lc) (rl_cf_r lc))) zero
      /\ rl_bm lc = pymin (pymin (np_min (rl_evals lc)) (sub (rl_un_l lc) (rl_cf_l lc))) zero)
  /\ (consFlux idir gamma idens ixmom iymom iener ixmag iymag irhoX nspec Ul
      = Ok (rl_f_l lc)
      /\ consFlux idir gamma idens ixmom iymom iener ixmag iymag irhoX nspec Ur
         = Ok (rl_f_r lc))
  /\ calc_evals idir (rl_U_av lc) gamma idens ixmom iymom iener ixmag iymag irhoX
       (rl_X lc) (rl_Y lc) = Ok (rl_evals lc).
Proof.
  intros Hrun. unfold riemann_states in Hrun. cbv zeta in Hrun.
  unfold fast, norm, Bx_l, Bx_r, By_l, By_r.
  destruct (idir =? 1); invert_binds Hrun; injection Hrun as <-;
    cbn [rl_rho_l rl_rho_r rl_un_l rl_un_r rl_ut_l rl_ut_r rl_rhoe_l rl_rhoe_r
         rl_p_l rl_p_r rl_c_l rl_c_r rl_U_av rl_X rl_Y rl_evals rl_cf_l rl_cf_r
         rl_bp rl_bm rl_f_l rl_f_r];
    invert_sdivs;
    repeat match goal with |- _ /\ _ => split end;
    try assumption; cbv beta zeta;
    try match goal with |- ?x = ?y => constr_eq x y; reflexivity end;
    repeat match goal with E : ?a = div _ _ |- context [?a] => rewrite E end;
    match goal with |- ?x = ?y => constr_eq x y; reflexivity end.
Qed.

Lemma calc_evals_returns (U : vec T) (X Y : T) :
  eqb (vget U idens) zero = false -> eqb (sqrt (mul four pi)) zero = false ->
  exists ev, calc_evals idir U gamma idens ixmom iymom iener ixmag iymag irhoX X Y = Ok ev.
Proof.
  intros Hd Hpi. unfold calc_evals.
  rewrite !(sdiv_ok _ _ Hd), !(sdiv_ok _ _ Hpi). cbn [bind].
  destruct (idir =? 1); rewrite !(sdiv_ok _ _ Hd); cbn [bind]; eexists; reflexivity.
Qed.

(** The density slot of the two vectors of the Roe average ([q_av] and
    [U_av]) holds what line 233 (line 261) stores to it: no later store
    reaches it. *)
Lemma roe_density_slot (v0 : vec T) (d x1 x2 x3 : T) (f1 f2 : Z -> T) :
  layout_ok (vlen v0) idens ixmom iymom iener ixmag iymag irhoX ->
  vget (vset_slice
          (vset_slice
             (vset (vset (vset (vset (vzeros_like v0) idens d) ixmom x1) iymom x2)
                   iener x3)
             (Some ixmag) (Some (iymag + 1)) f1)
          (Some irhoX) None f2) idens = d.
Proof.
  intros Hlay. pose proof (layout_bounds _ _ _ _ _ _ _ _ Hlay) as Hb.
  cbn [vlen vset vset_slice vzeros_like] in Hb.
  rewrite vget_vset_slice_out; [| lia | apply in_slice_below; cbn [vlen vset vset_slice vzeros_like]; lia].
  rewrite vget_vset_slice_out;
    [| lia
     | cbn [vlen vset vset_slice vzeros_like]; rewrite in_slice_within by lia;
       assert (Hne : idens <> ixmag) by slot_ne Hlay;
       assert (Hne' : idens <> iymag) by slot_ne Hlay;
       apply andb_false_iff;
       destruct (Z.leb_spec ixmag idens); [right; apply Z.ltb_ge; lia | left; reflexivity]].
  rewrite !vget_vset_other by first [lia | slot_ne Hlay]. apply vget_vset_same.
Qed.

(** The loop body reaches the flux blend when none of its divisors is zero. *)
Lemma riemann_states_returns :
  layout_ok (vlen Ul) idens ixmom iymom iener ixmag iymag irhoX ->
  eqb (vget Ul idens) zero = false -> eqb (vget Ur idens) zero = false ->
  eqb (sqrt (mul four pi)) zero = false ->
  eqb (sqrt (vget Ul idens)) zero = false -> eqb (sqrt (vget Ur idens)) zero = false ->
  eqb (add (sqrt (vget Ul idens)) (sqrt (vget Ur idens))) zero = false ->
  eqb gamma zero = false ->
  eqb (sqrt (mul (vget Ul idens) (vget Ur idens))) zero = false ->
  exists lc,
    riemann_states idir idens ixmom iymom iener ixmag iymag irhoX nspec gamma
      Ul Ur Bx_ij By_ij = Ok lc.
Proof.
  intros Hlay Hl Hr Hpi Hsl Hsr Hs Hg Hav.
  unfold riemann_states. cbv zeta.
  destruct (idir =? 1);
    repeat (cbv beta;
            match goal with
            | |- exists b, bind (sdiv _ _) _ = Ok b =>
                apply bind_returns;
                [ eexists; apply sdiv_ok;
                  first [ assumption
                        | rewrite !roe_density_slot by exact Hlay; assumption ]
                | let a := fresh "a" in intros a _ ]
            | |- exists b, bind (calc_evals _ _ _ _ _ _ _ _ _ _ _ _) _ = Ok b =>
                apply bind_returns;
                [ apply calc_evals_returns;
                  [ rewrite !roe_density_slot by exact Hlay; assumption | assumption ]
                | let a := fresh "a" in intros a _ ]
            | |- exists b, bind (consFlux _ _ _ _ _ _ _ _ _ _ _) _ = Ok b =>
                apply bind_returns;
                [ apply consFlux_returns; assumption
                | let a := fresh "a" in intros a _ ]
            end);
    eexists; reflexivity.
Qed.

End RiemannBody.

(** ** The loop body in exact arithmetic *)

Section RiemannExact.
Local Open Scope R_scope.
Local Abbreviation rsqrt := R_sqrt.sqrt.
Local Abbreviation floor := (1 / 10000000000).

Variables idir idens ixmom iymom iener ixmag iymag irhoX nspec n : Z.
Variables (g : R) (ul ur : Z -> R) (bxf byf : R) (Ul Ur : vec xreal).
Hypothesis Hlay : layout_ok n idens ixmom iymom iener ixmag iymag irhoX.
Hypothesis HlenU : vlen Ul = n.
Hypothesis HUl : forall k, vat Ul k = Some (ul k).
Hypothesis HUr : forall k, vat Ur k = Some (ur k).
Hypothesis Hrho_l : 0 < ul idens.
Hypothesis Hrho_r : 0 < ur idens.
Hypothesis Hg : g <> 0.

Lemma x_vget_l (k : Z) : vget Ul k = Some (ul (pyidx (vlen Ul) k)).
Proof. unfold vget. apply HUl. Qed.

Lemma x_vget_r (k : Z) : vget Ur k = Some (ur (pyidx (vlen Ur) k)).
Proof. unfold vget. apply HUr. Qed.

Lemma x_four_pi : sqrt (mul four pi) = Some (rsqrt (4 * PI)) /\ 0 < rsqrt (4 * PI).
Proof.
  pose proof PI_RGT_0 as Hpi. cbn [mul four pi xreal_num xlift2].
  rewrite x_sqrt by lra. split; [reflexivity | apply sqrt_lt_R0; lra].
Qed.

Lemma riemann_exact_returns :
  exists lc,
    riemann_states idir idens ixmom iymom iener ixmag iymag irhoX nspec (Some g)
      Ul Ur (Some bxf) (Some byf) = Ok lc.
Proof.
  pose proof (layout_bounds _ _ _ _ _ _ _ _ Hlay) as Hb.
  destruct x_four_pi as [H4 H4pos].
  assert (Hsl : 0 < rsqrt (ul idens)) by (apply sqrt_lt_R0; exact Hrho_l).
  assert (Hsr : 0 < rsqrt (ur idens)) by (apply sqrt_lt_R0; exact Hrho_r).
  apply riemann_states_returns;
    try (rewrite <- HlenU in Hlay; exact Hlay);
    rewrite ?x_vget_l, ?x_vget_r, ?H4, ?pyidx_nonneg by lia;
    cbn [add mul xreal_num xlift2];
    rewrite ?x_sqrt by nra;
    cbn [add mul xreal_num xlift2];
    apply x_nonzero; try lra.
  apply Rgt_not_eq. apply sqrt_lt_R0. nra.
Qed.

(** The floored pressure and sound speed of one side *)
Lemma x_floors (e rho : R) :
  0 < rho ->
  let p := pymax (mul (Some e) (sub (Some g) one)) tiny in
  let c := pymax tiny (sqrt (div (mul (Some g) p) (Some rho))) in
  exists pv cv : R,
    p = Some pv /\ c = Some cv
    /\ pv = Rmax (e * (g - 1)) floor /\ floor <= pv
    /\ (floor <= e * (g - 1) -> pv = e * (g - 1))
    /\ floor <= cv
    /\ (forall s, sqrt (Some (g * pv / rho) : xreal) = Some s ->
        cv = Rmax floor s /\ (floor <= s -> cv = s)).
Proof.
  intros Hrho. cbv zeta.
  cbn [mul sub one tiny xreal_num xlift2]. rewrite x_pymax.
  set (pv := Rmax (e * (g - 1)) floor).
  cbn [mul xreal_num xlift2]. rewrite x_div by lra.
  assert (Hpv : floor <= pv) by apply Rmax_r.
  destruct (Rle_dec 0 (g * pv / rho)) as [Hq|Hq].
  - rewrite x_sqrt by exact Hq. rewrite x_pymax.
    exists pv, (Rmax floor (rsqrt (g * pv / rho))).
    repeat split; try reflexivity; try exact Hpv.
    + intros He. unfold pv. apply Rmax_left. exact He.
    + apply Rmax_l.
    + rewrite x_sqrt in H by exact Hq. injection H as <-. reflexivity.
    + rewrite x_sqrt in H by exact Hq. injection H as <-.
      intros Hs. apply Rmax_right. exact Hs.
  - rewrite x_sqrt_neg by lra. rewrite x_pymax_nan.
    exists pv, floor.
    repeat split; try reflexivity; try exact Hpv;
      try (rewrite x_sqrt_neg in H by lra; discriminate).
    intros He. unfold pv. apply Rmax_left. exact He.
Qed.

(** X18.  In exact arithmetic, for two finite states of positive density,
    in a valid layout and for an adiabatic index that is not zero, the loop
    body of [riemann_adiabatic] completes up to the flux blend without an
    exception, whatever the sign of the thermal pressures; on either side
    the pressure it uses is [max (computed pressure, 1e-10)], at least
    1e-10 and equal to the computed pressure when that is at least 1e-10,
    and the sound speed is [max (1e-10, sqrt (gamma * p / rho))], at least
    1e-10 and equal to the root when that is at least 1e-10.  The flux
    blend then completes when [bp - bm] is not zero, and raises
    [ZeroDivisionError] when it is. *)
Theorem riemann_floors :
  exists lc,
    riemann_states idir idens ixmom iymom iener ixmag iymag irhoX nspec (Some g)
      Ul Ur (Some bxf) (Some byf) = Ok lc
    /\ rl_p_l lc = pymax (mul (rl_rhoe_l lc) (sub (Some g) one)) tiny
    /\ rl_p_r lc = pymax (mul (rl_rhoe_r lc) (sub (Some g) one)) tiny
    /\ rl_c_l lc = pymax tiny (sqrt (div (mul (Some g) (rl_p_l lc)) (rl_rho_l lc)))
    /\ rl_c_r lc = pymax tiny (sqrt (div (mul (Some g) (rl_p_r lc)) (rl_rho_r lc)))
    /\ floored g (ul idens) (rl_rhoe_l lc) (rl_p_l lc) (rl_c_l lc)
    /\ floored g (ur idens) (rl_rhoe_r lc) (rl_p_r lc) (rl_c_r lc)
    /\ (eqb (sub (rl_bp lc) (rl_bm lc)) zero = false ->
        exists F, riemann_flux lc Ul Ur = Ok F)
    /\ (eqb (sub (rl_bp lc) (rl_bm lc)) zero = true ->
        riemann_flux lc Ul Ur = Raise ZeroDivisionError).
Proof.
  pose proof (layout_bounds _ _ _ _ _ _ _ _ Hlay) as Hb.
  destruct riemann_exact_returns as [lc Hlc]. exists lc.
  pose proof (riemann_states_inv _ _ _ _ _ _ _ _ _ _ _ _ _ _ _ Hlc) as Hinv.
  destruct Hinv as [[Hr1 Hr2] [[Hun1 Hun2] [[Hut1 Hut2] [[He1 He2]
                     [[Hp1 Hp2] [[Hc1 Hc2] _]]]]]].
  assert (Hel : exists el, rl_rhoe_l lc = Some el).
  { rewrite He1, Hun1, Hut1, Hr1. destruct (idir =? 1)%Z;
      rewrite !x_vget_l; rewrite !pyidx_nonneg by lia; rewrite !x_div by lra;
      cbn [add sub mul half sq xreal_num xlift2]; eexists; reflexivity. }
  assert (Her : exists er, rl_rhoe_r lc = Some er).
  { rewrite He2, Hun2, Hut2, Hr2. destruct (idir =? 1)%Z;
      rewrite !x_vget_r; rewrite !pyidx_nonneg by lia; rewrite !x_div by lra;
      cbn [add sub mul half sq xreal_num xlift2]; eexists; reflexivity. }
  destruct Hel as [el Hel]. destruct Her as [er Her].
  split; [exact Hlc|]. split; [exact Hp1|]. split; [exact Hp2|].
  split; [exact Hc1|]. split; [exact Hc2|].
  split; [|split; [|split]].
  - destruct (x_floors el (ul idens) Hrho_l) as [pv [cv Hf]].
    rewrite <- Hel, <- Hp1 in Hf.
    assert (Hrho : rl_rho_l lc = Some (ul idens))
      by (rewrite Hr1, x_vget_l, pyidx_nonneg by lia; reflexivity).
    rewrite <- Hrho, <- Hc1 in Hf.
    exists el, pv, cv. tauto.
  - destruct (x_floors er (ur idens) Hrho_r) as [pv [cv Hf]].
    rewrite <- Her, <- Hp2 in Hf.
    assert (Hrho : rl_rho_r lc = Some (ur idens))
      by (rewrite Hr2, x_vget_r, pyidx_nonneg by lia; reflexivity).
    rewrite <- Hrho, <- Hc2 in Hf.
    exists er, pv, cv. tauto.
  - intros Hnz. unfold riemann_flux. rewrite (sdiv_ok _ _ Hnz). cbn [bind].
    eexists. reflexivity.
  - intros Hz. unfold riemann_flux. rewrite (sdiv_raises _ _ Hz). reflexivity.
Qed.

Lemma np_max_from_finite (xs : list xreal) :
  Forall finite xs -> forall m : R, exists m', np_max_from (Some m) xs = Some m'.
Proof.
  induction 1 as [|x xs [r ->] _ IH]; intros m; cbn [np_max_from].
  - exists m. reflexivity.
  - rewrite x_isnan. cbn [ltb xreal_num xltb].
    destruct (Rlt_dec m r); apply IH.
Qed.

Lemma np_min_from_finite (xs : list xreal) :
  Forall finite xs -> forall m : R, exists m', np_min_from (Some m) xs = Some m'.
Proof.
  induction 1 as [|x xs [r ->] _ IH]; intros m; cbn [np_min_from].
  - exists m. reflexivity.
  - rewrite x_isnan. cbn [ltb xreal_num xltb].
    destruct (Rlt_dec r m); apply IH.
Qed.

Lemma np_max_finite (xs : list xreal) : Forall finite xs -> finite (np_max xs).
Proof.
  intros Hfin. destruct Hfin as [|x xs [r ->] Hxs]; cbn [np_max].
  - exists 0. reflexivity.
  - rewrite x_isnan. apply np_max_from_finite. exact Hxs.
Qed.

Lemma np_min_finite (xs : list xreal) : Forall finite xs -> finite (np_min xs).
Proof.
  intros Hfin. destruct Hfin as [|x xs [r ->] Hxs]; cbn [np_min].
  - exists 0. reflexivity.
  - rewrite x_isnan. apply np_min_from_finite. exact Hxs.
Qed.

(** [max(a, b)] of a finite [a] is finite and at least [a], whatever [b]. *)
Lemma x_pymax_above (a : R) (b : xreal) :
  exists m, pymax (Some a) b = Some m /\ a <= m /\ (forall r, b = Some r -> r <= m).
Proof.
  destruct b as [r|].
  - rewrite x_pymax. exists (Rmax a r). split; [reflexivity|]. split; [apply Rmax_l|].
    intros r' Hr. injection Hr as <-. apply Rmax_r.
  - rewrite x_pymax_nan. exists a. split; [reflexivity|]. split; [lra | discriminate].
Qed.

Lemma x_pymin_below (a : R) (b : xreal) :
  exists m, pymin (Some a) b = Some m /\ m <= a /\ (forall r, b = Some r -> m <= r).
Proof.
  destruct b as [r|].
  - rewrite x_pymin. exists (Rmin a r). split; [reflexivity|]. split; [apply Rmin_l|].
    intros r' Hr. injection Hr as <-. apply Rmin_r.
  - rewrite x_pymin_nan. exists a. split; [reflexivity|]. split; [lra | discriminate].
Qed.

Lemma calc_evals_length (U : vec xreal) (gam X Y : xreal) (ev : list xreal) :
  calc_evals idir U gam idens ixmom iymom iener ixmag iymag irhoX X Y = Ok ev ->
  length ev = 7%nat.
Proof.
  intros Hev. unfold calc_evals in Hev. cbv zeta in Hev.
  invert_binds Hev. injection Hev as <-. reflexivity.
Qed.

(** X19.  In exact arithmetic, for two finite states of positive density
    (a valid layout, an adiabatic index that is not zero) the loop body
    reaches the two bounds
    [bp = max (max (np.max (evals), un_r + cf_r), 0)] and
    [bm = min (min (np.min (evals), un_l - cf_l), 0)], with [evals] the 7
    eigenvalues of [calc_evals]; when these 7 speeds are real, [bp] and
    [bm] are real and [bp >= 0 >= bm]. *)
Theorem hlle_bounds_sign :
  exists lc,
    riemann_states idir idens ixmom iymom iener ixmag iymag irhoX nspec (Some g)
      Ul Ur (Some bxf) (Some byf) = Ok lc
    /\ length (rl_evals lc) = 7%nat
    /\ rl_bp lc
       = pymax (pymax (np_max (rl_evals lc)) (add (rl_un_r lc) (rl_cf_r lc))) zero
    /\ rl_bm lc
       = pymin (pymin (np_min (rl_evals lc)) (sub (rl_un_l lc) (rl_cf_l lc))) zero
    /\ (Forall finite (rl_evals lc) ->
        exists bp bm : R,
          rl_bp lc = Some bp /\ rl_bm lc = Some bm /\ bm <= 0 <= bp).
Proof.
  destruct riemann_exact_returns as [lc Hlc]. exists lc.
  pose proof (riemann_states_inv _ _ _ _ _ _ _ _ _ _ _ _ _ _ _ Hlc) as Hinv.
  destruct Hinv as [_ [_ [_ [_ [_ [_ [_ [[Hbp Hbm] [_ Hev]]]]]]]]].
  split; [exact Hlc|]. split; [exact (calc_evals_length _ _ _ _ _ Hev)|].
  split; [exact Hbp|]. split; [exact Hbm|].
  intros Hfin.
  destruct (np_max_finite _ Hfin) as [M HM]. destruct (np_min_finite _ Hfin) as [m Hm].
  rewrite Hbp, Hbm, HM, Hm.
  destruct (x_pymax_above M (add (rl_un_r lc) (rl_cf_r lc))) as [M1 [-> _]].
  destruct (x_pymin_below m (sub (rl_un_l lc) (rl_cf_l lc))) as [m1 [-> _]].
  cbn [zero xreal_num]. rewrite x_pymax, x_pymin.
  exists (Rmax M1 0), (Rmin m1 0). split; [reflexivity|]. split; [reflexivity|].
  split; [apply Rmin_r | apply Rmax_r].
Qed.

End RiemannExact.

(** The two cold streams of [Sample], in exact arithmetic. *)
Lemma riemann_floors_sample :
  exists lc,
    riemann_states 1 0 1 2 3 4 5 6 0 (Some 2%R) (vfin 6 Sample.cold_l)
      (vfin 6 Sample.cold_r) (Some 0%R) (Some 0%R) = Ok lc
    /\ rl_p_l lc = pymax (mul (rl_rhoe_l lc) (sub (Some 2%R) one)) tiny
    /\ rl_p_r lc = pymax (mul (rl_rhoe_r lc) (sub (Some 2%R) one)) tiny
    /\ rl_c_l lc = pymax tiny (sqrt (div (mul (Some 2%R) (rl_p_l lc)) (rl_rho_l lc)))
    /\ rl_c_r lc = pymax tiny (sqrt (div (mul (Some 2%R) (rl_p_r lc)) (rl_rho_r lc)))
    /\ floored 2 (Sample.cold_l 0) (rl_rhoe_l lc) (rl_p_l lc) (rl_c_l lc)
    /\ floored 2 (Sample.cold_r 0) (rl_rhoe_r lc) (rl_p_r lc) (rl_c_r lc)
    /\ (eqb (sub (rl_bp lc) (rl_bm lc)) zero = false ->
        exists F, riemann_flux lc (vfin 6 Sample.cold_l) (vfin 6 Sample.cold_r) = Ok F)
    /\ (eqb (sub (rl_bp lc) (rl_bm lc)) zero = true ->
        riemann_flux lc (vfin 6 Sample.cold_l) (vfin 6 Sample.cold_r)
        = Raise ZeroDivisionError).
Proof.
  apply (riemann_floors 1 0 1 2 3 4 5 6 0 6 2%R Sample.cold_l Sample.cold_r 0%R 0%R);
    try exact layout_ok_sample; try reflexivity;
    unfold Sample.cold_l, Sample.cold_r; cbn; lra.
Defined.

(** C5, as the claim has it, fails.  For two cold streams that collide
    (density 1, velocities 1 and -1, energy 0.5, no field, gamma = 2) the
    thermal energy of both sides is 0, the pressure used is the floor
    1e-10, both bounds [bp] and [bm] are 0, and the flux blend divides by
    [bp - bm]: the call raises [ZeroDivisionError]. *)
Lemma riemann_cold_collision_raises :
  riemann_adiabatic 1 2 0 1 2 3 4 5 6 0 0 0 2%float
    Sample.U_cold_l Sample.U_cold_r Sample.B_zero Sample.B_zero
  = Raise ZeroDivisionError
  /\ exists lc,
       riemann_states 1 0 1 2 3 4 5 6 0 2%float (row3 Sample.U_cold_l 0 0)
         (row3 Sample.U_cold_r 0 0) (get2 Sample.B_zero 0 0) (get2 Sample.B_zero 0 0)
       = Ok lc
       /\ rl_rhoe_l lc = 0%float /\ rl_rhoe_r lc = 0%float
       /\ rl_p_l lc = tiny /\ rl_p_r lc = tiny
       /\ rl_bp lc = 0%float /\ rl_bm lc = 0%float
       /\ riemann_flux lc (row3 Sample.U_cold_l 0 0) (row3 Sample.U_cold_r 0 0)
          = Raise ZeroDivisionError.
Proof.
  split; [vm_compute; reflexivity|].
  eexists. split; [vm_compute; reflexivity|].
  repeat split; vm_compute; reflexivity.
Qed.

(** ** Comparisons of binary64 floats *)

(** The comparisons of two floats, by the comparison of the numbers that
    they denote: a nan compares with nothing, not with itself. *)
Section FloatOrder.

Lemma SFcompare_antisym (x y : spec_float) :
  SFcompare y x = option_map CompOpp (SFcompare x y).
Proof.
  destruct x as [s1|s1| |s1 m1 e1], y as [s2|s2| |s2 m2 e2]; cbn;
    try reflexivity;
    try (destruct s1; reflexivity); try (destruct s2; reflexivity);
    try (destruct s1, s2; reflexivity).
  destruct s1, s2; try reflexivity;
    rewrite (Z.compare_antisym e1 e2); destruct (e1 ?= e2); cbn; try reflexivity;
    pose proof (Pos.compare_cont_antisym m1 m2 Eq) as HA; cbn [CompOpp] in HA;
    rewrite <- HA; destruct (Pos.compare_cont Eq m1 m2); reflexivity.
Qed.

Lemma SFcompare_total (x y : spec_float) :
  SFcompare x x <> None -> SFcompare y y <> None -> exists c, SFcompare x y = Some c.
Proof.
  destruct x, y; cbn; intros Hx Hy; try congruence; eexists; reflexivity.
Qed.

Lemma SFcompare_left (x y : spec_float) (c : comparison) :
  SFcompare x y = Some c -> SFcompare x x = Some Eq.
Proof.
  destruct x as [s1|s1| |s1 m1 e1]; cbn.
  - intros _. reflexivity.
  - intros _. destruct s1; reflexivity.
  - destruct y; discriminate.
  - intros _. rewrite Z.compare_refl, Pos.compare_cont_refl. destruct s1; reflexivity.
Qed.

Lemma SFcompare_right (x y : spec_float) (c : comparison) :
  SFcompare x y = Some c -> SFcompare y y = Some Eq.
Proof.
  intros Hc. apply (SFcompare_left y x (CompOpp c)).
  rewrite SFcompare_antisym, Hc. reflexivity.
Qed.

(** [a < b], [a <= b] and [isnan a] on floats *)
Lemma f_ltb (a b : float) : ltb a b = true <-> SFcompare (Prim2SF a) (Prim2SF b) = Some Lt.
Proof.
  cbn [ltb float_num]. rewrite ltb_spec. unfold SFltb.
  destruct (SFcompare _ _) as [[]|]; split; congruence.
Qed.

Lemma f_leb (a b : float) :
  leb a b = true
  <-> SFcompare (Prim2SF a) (Prim2SF b) = Some Lt
      \/ SFcompare (Prim2SF a) (Prim2SF b) = Some Eq.
Proof.
  cbn [leb float_num]. rewrite leb_spec. unfold SFleb.
  destruct (SFcompare _ _) as [[]|]; split; intuition congruence.
Qed.

Lemma f_isnan (a : float) :
  isnan a = false <-> SFcompare (Prim2SF a) (Prim2SF a) = Some Eq.
Proof.
  unfold isnan. cbn [eqb float_num]. rewrite eqb_spec. unfold SFeqb.
  destruct (SFcompare _ _) as [[]|] eqn:E; cbn; split; try congruence;
    intros _; rewrite (SFcompare_left _ _ _ E) in E; congruence.
Qed.

Lemma ltb_not_nan_l (a b : float) : ltb a b = true -> isnan a = false.
Proof. rewrite f_ltb, f_isnan. apply SFcompare_left. Qed.

Lemma ltb_not_nan_r (a b : float) : ltb a b = true -> isnan b = false.
Proof. rewrite f_ltb, f_isnan. apply SFcompare_right. Qed.

Lemma ltb_leb (a b : float) : ltb a b = true -> leb a b = true.
Proof. rewrite f_ltb, f_leb. intros Hlt. left. exact Hlt. Qed.

Lemma leb_not_ltb (a b : float) : leb a b = true -> ltb b a = false.
Proof.
  rewrite f_leb. intros Hle. apply not_true_iff_false. rewrite f_ltb.
  rewrite SFcompare_antisym. destruct Hle as [-> | ->]; cbn; congruence.
Qed.

Lemma not_ltb_leb (a b : float) :
  isnan a = false -> isnan b = false -> ltb a b = false -> leb b a = true.
Proof.
  rewrite !f_isnan. intros Ha Hb Hlt. apply not_true_iff_false in Hlt.
  rewrite f_ltb in Hlt. rewrite f_leb, SFcompare_antisym.
  destruct (SFcompare_total (Prim2SF a) (Prim2SF b)) as [c Hc]; try congruence.
  rewrite Hc in *. destruct c; cbn; [right | congruence | left]; reflexivity.
Qed.

(** A float that compares equal to a finite number that is not zero is
    that number. *)
Lemma SFcompare_eq_finite (s : bool) (m : positive) (e : Z) (y : spec_float) :
  SFcompare (S754_finite s m e) y = Some Eq -> y = S754_finite s m e.
Proof.
  destruct y as [s2|s2| |s2 m2 e2]; cbn.
  - destruct s; discriminate.
  - destruct s, s2; discriminate.
  - discriminate.
  - destruct s, s2; try discriminate;
      destruct (Z.compare_spec e e2) as [He|He|He]; try discriminate;
      intros Hm; injection Hm as Hm;
      [apply (f_equal CompOpp) in Hm; rewrite CompOpp_involutive in Hm; cbn in Hm|];
      apply Pos.compare_eq in Hm; subst; reflexivity.
Qed.

End FloatOrder.

(** ** The floors and the bounds in binary64 *)

Section FloatFloors.

(** [max(x, 1e-10)] and [max(1e-10, s)] *)
Lemma f_pymax_floor (x : float) :
  (isnan x = false -> leb tiny (pymax x tiny) = true)
  /\ (leb tiny x = true -> pymax x tiny = x).
Proof.
  unfold pymax. split.
  - intros Hx. destruct (ltb x tiny) eqn:E; [reflexivity|].
    apply not_ltb_leb; [exact Hx | reflexivity | exact E].
  - intros Hle. rewrite (leb_not_ltb _ _ Hle). reflexivity.
Qed.

Lemma f_floor_pymax (s : float) :
  leb tiny (pymax tiny s) = true /\ (leb tiny s = true -> pymax tiny s = s).
Proof.
  unfold pymax. split.
  - destruct (ltb tiny s) eqn:E; [apply ltb_leb; exact E | reflexivity].
  - intros Hle. destruct (ltb tiny s) eqn:E; [reflexivity|].
    apply not_true_iff_false in E. rewrite f_ltb in E.
    apply f_leb in Hle. destruct Hle as [Hlt|Heq]; [contradiction|].
    apply SFcompare_eq_finite in Heq. symmetry. apply Prim2SF_inj. exact Heq.
Qed.

(** [max(a, b)] and [min(a, b)] are nan only when [a] is. *)
Lemma f_pymax_not_nan (a b : float) : isnan a = false -> isnan (pymax a b) = false.
Proof.
  intros Ha. unfold pymax. destruct (ltb a b) eqn:E; [|exact Ha].
  apply (ltb_not_nan_r _ _ E).
Qed.

Lemma f_pymin_not_nan (a b : float) : isnan a = false -> isnan (pymin a b) = false.
Proof.
  intros Ha. unfold pymin. destruct (ltb b a) eqn:E; [|exact Ha].
  apply (ltb_not_nan_l _ _ E).
Qed.

Lemma f_pymax_zero (q : float) : isnan q = false -> leb zero (pymax q zero) = true.
Proof.
  intros Hq. unfold pymax. destruct (ltb q zero) eqn:E; [reflexivity|].
  apply not_ltb_leb; [exact Hq | reflexivity | exact E].
Qed.

Lemma f_pymin_zero (q : float) : isnan q = false -> leb (pymin q zero) zero = true.
Proof.
  intros Hq. unfold pymin. destruct (ltb zero q) eqn:E; [reflexivity|].
  apply not_ltb_leb; [reflexivity | exact Hq | exact E].
Qed.

(** [np.max] and [np.min] of floats none of which is a nan *)
Lemma f_np_max_from (xs : list float) :
  existsb isnan xs = false -> forall m, isnan m = false ->
  isnan (np_max_from m xs) = false.
Proof.
  induction xs as [|x xs IH]; cbn [existsb np_max_from]; intros Hxs m Hm.
  - exact Hm.
  - apply orb_false_iff in Hxs. destruct Hxs as [Hx Hxs]. rewrite Hx.
    apply IH; [exact Hxs|]. destruct (ltb m x); assumption.
Qed.

Lemma f_np_min_from (xs : list float) :
  existsb isnan xs = false -> forall m, isnan m = false ->
  isnan (np_min_from m xs) = false.
Proof.
  induction xs as [|x xs IH]; cbn [existsb np_min_from]; intros Hxs m Hm.
  - exact Hm.
  - apply orb_false_iff in Hxs. destruct Hxs as [Hx Hxs]. rewrite Hx.
    apply IH; [exact Hxs|]. destruct (ltb x m); assumption.
Qed.

Lemma f_np_max (xs : list float) : existsb isnan xs = false -> isnan (np_max xs) = false.
Proof.
  destruct xs as [|x xs]; cbn [existsb np_max]; intros Hxs; [reflexivity|].
  apply orb_false_iff in Hxs. destruct Hxs as [Hx Hxs]. rewrite Hx.
  apply f_np_max_from; assumption.
Qed.

Lemma f_np_min (xs : list float) : existsb isnan xs = false -> isnan (np_min xs) = false.
Proof.
  destruct xs as [|x xs]; cbn [existsb np_min]; intros Hxs; [reflexivity|].
  apply orb_false_iff in Hxs. destruct Hxs as [Hx Hxs]. rewrite Hx.
  apply f_np_min_from; assumption.
Qed.

Variables idir idens ixmom iymom iener ixmag iymag irhoX nspec : Z.
Variables (gamma : float) (Ul Ur : vec float) (Bx_ij By_ij : float).

(** [calc_evals] returns 7 speeds. *)
Lemma calc_evals_seven {T : Type} `{Num T} (U : vec T) (gam X Y : T) (ev : list T) :
  calc_evals idir U gam idens ixmom iymom iener ixmag iymag irhoX X Y = Ok ev ->
  length ev = 7%nat.
Proof.
  intros Hev. unfold calc_evals in Hev. cbv zeta in Hev.
  invert_binds Hev. injection Hev as <-. reflexivity.
Qed.

(** C5, as the code has it.  In binary64, for two states in a valid layout
    and an adiabatic index such that none of the divisors of the loop body
    is zero (the two densities, their square roots and the sum of these,
    the root of the product of the densities, the adiabatic index), the
    loop body of [riemann_adiabatic] completes up to the flux blend without
    an exception, whatever the sign of the thermal pressures.  On either
    side the pressure it uses is [max (computed pressure, 1e-10)]: at least
    1e-10 unless the computed pressure is a nan, and the computed pressure
    when that is at least 1e-10; the sound speed is
    [max (1e-10, sqrt (gamma * p / rho))]: at least 1e-10 always, and the
    root when that is at least 1e-10.  The flux blend then completes when
    [bp - bm] is not zero, and raises [ZeroDivisionError] when it is. *)
Theorem riemann_floors_binary64 :
  layout_ok (vlen Ul) idens ixmom iymom iener ixmag iymag irhoX ->
  eqb (vget Ul idens) zero = false -> eqb (vget Ur idens) zero = false ->
  eqb (sqrt (vget Ul idens)) zero = false -> eqb (sqrt (vget Ur idens)) zero = false ->
  eqb (add (sqrt (vget Ul idens)) (sqrt (vget Ur idens))) zero = false ->
  eqb (sqrt (mul (vget Ul idens) (vget Ur idens))) zero = false ->
  eqb gamma zero = false ->
  exists lc,
    riemann_states idir idens ixmom iymom iener ixmag iymag irhoX nspec gamma
      Ul Ur Bx_ij By_ij = Ok lc
    /\ rl_p_l lc = pymax (mul (rl_rhoe_l lc) (sub gamma one)) tiny
    /\ rl_p_r lc = pymax (mul (rl_rhoe_r lc) (sub gamma one)) tiny
    /\ rl_c_l lc = pymax tiny (sqrt (div (mul gamma (rl_p_l lc)) (rl_rho_l lc)))
    /\ rl_c_r lc = pymax tiny (sqrt (div (mul gamma (rl_p_r lc)) (rl_rho_r lc)))
    /\ (isnan (mul (rl_rhoe_l lc) (sub gamma one)) = false -> leb tiny (rl_p_l lc) = true)
    /\ (isnan (mul (rl_rhoe_r lc) (sub gamma one)) = false -> leb tiny (rl_p_r lc) = true)
    /\ (leb tiny (mul (rl_rhoe_l lc) (sub gamma one)) = true ->
        rl_p_l lc = mul (rl_rhoe_l lc) (sub gamma one))
    /\ (leb tiny (mul (rl_rhoe_r lc) (sub gamma one)) = true ->
        rl_p_r lc = mul (rl_rhoe_r lc) (sub gamma one))
    /\ leb tiny (rl_c_l lc) = true
    /\ leb tiny (rl_c_r lc) = true
    /\ (leb tiny (sqrt (div (mul gamma (rl_p_l lc)) (rl_rho_l lc))) = true ->
        rl_c_l lc = sqrt (div (mul gamma (rl_p_l lc)) (rl_rho_l lc)))
    /\ (leb tiny (sqrt (div (mul gamma (rl_p_r lc)) (rl_rho_r lc))) = true ->
        rl_c_r lc = sqrt (div (mul gamma (rl_p_r lc)) (rl_rho_r lc)))
    /\ (eqb (sub (rl_bp lc) (rl_bm lc)) zero = false ->
        exists F, riemann_flux lc Ul Ur = Ok F)
    /\ (eqb (sub (rl_bp lc) (rl_bm lc)) zero = true ->
        riemann_flux lc Ul Ur = Raise ZeroDivisionError).
Proof.
  intros Hlay Hl Hr Hsl Hsr Hs Hav Hg.
  destruct (riemann_states_returns idir idens ixmom iymom iener ixmag iymag irhoX nspec
              gamma Ul Ur Bx_ij By_ij Hlay Hl Hr eq_refl Hsl Hsr Hs Hg Hav) as [lc Hlc].
  exists lc.
  pose proof (riemann_states_inv _ _ _ _ _ _ _ _ _ _ _ _ _ _ _ Hlc) as Hinv.
  destruct Hinv as [_ [_ [_ [_ [[Hp1 Hp2] [[Hc1 Hc2] _]]]]]].
  split; [exact Hlc|]. split; [exact Hp1|]. split; [exact Hp2|].
  split; [exact Hc1|]. split; [exact Hc2|].
  split; [rewrite Hp1; apply f_pymax_floor|].
  split; [rewrite Hp2; apply f_pymax_floor|].
  split; [rewrite Hp1; apply f_pymax_floor|].
  split; [rewrite Hp2; apply f_pymax_floor|].
  split; [rewrite Hc1; apply f_floor_pymax|].
  split; [rewrite Hc2; apply f_floor_pymax|].
  split; [rewrite Hc1 at 1; apply f_floor_pymax|].
  split; [rewrite Hc2 at 1; apply f_floor_pymax|].
  split.
  - intros Hnz. unfold riemann_flux. rewrite (sdiv_ok _ _ Hnz). cbn [bind].
    eexists. reflexivity.
  - intros Hz. unfold riemann_flux. rewrite (sdiv_raises _ _ Hz). reflexivity.
Qed.

(** C2, as the code has it.  In binary64, where the loop body of
    [riemann_adiabatic] reaches the two bounds (no division by zero before
    them) and none of the 7 eigenvalues of [calc_evals] is a nan, the
    bounds are [bp = max (max (np.max (evals), un_r + cf_r), 0)] and
    [bm = min (min (np.min (evals), un_l - cf_l), 0)], and
    [bp >= 0 >= bm]. *)
Theorem hlle_bounds_binary64 (lc : riemann_locals) :
  riemann_states idir idens ixmom iymom iener ixmag iymag irhoX nspec gamma
    Ul Ur Bx_ij By_ij = Ok lc ->
  existsb isnan (rl_evals lc) = false ->
  length (rl_evals lc) = 7%nat
  /\ rl_bp lc = pymax (pymax (np_max (rl_evals lc)) (add (rl_un_r lc) (rl_cf_r lc))) zero
  /\ rl_bm lc = pymin (pymin (np_min (rl_evals lc)) (sub (rl_un_l lc) (rl_cf_l lc))) zero
  /\ leb zero (rl_bp lc) = true
  /\ leb (rl_bm lc) zero = true.
Proof.
  intros Hlc Hev.
  pose proof (riemann_states_inv _ _ _ _ _ _ _ _ _ _ _ _ _ _ _ Hlc) as Hinv.
  destruct Hinv as [_ [_ [_ [_ [_ [_ [_ [[Hbp Hbm] [_ Hrun]]]]]]]]].
  split; [exact (calc_evals_seven _ _ _ _ _ Hrun)|].
  split; [exact Hbp|]. split; [exact Hbm|].
  rewrite Hbp, Hbm. split.
  - apply f_pymax_zero, f_pymax_not_nan, f_np_max. exact Hev.
  - apply f_pymin_zero, f_pymin_not_nan, f_np_min. exact Hev.
Qed.

End FloatFloors.

(** C2, as the claim has it, fails.  For the gas at rest of [Cases.U_weak]
    on both sides (density 1, thermal pressure 0.0263, gamma = 1.1), the
    densities and the computed pressures are positive, yet in binary64 four
    of the 7 speeds are nan (the root of a difference that rounds below
    zero), both bounds are nan, and neither [bp >= 0] nor [0 >= bm] holds.
    For the thin gas of [Cases.U_thin] on both sides, of positive density
    2^-664, the product of the densities rounds to zero and the loop body
    raises [ZeroDivisionError] before it reaches the bounds. *)
Lemma hlle_bounds_nan_on_valid_state :
  (exists lc,
     riemann_states 1 0 1 2 3 4 5 6 0 Cases.gamma_11 (row3 Cases.U_weak 1 1)
       (row3 Cases.U_weak 1 1) (get2 Cases.B_one 1 1) (get2 Sample.B_zero 1 1) = Ok lc
     /\ ltb zero (rl_rho_l lc) = true /\ ltb zero (rl_rho_r lc) = true
     /\ ltb tiny (mul (rl_rhoe_l lc) (sub Cases.gamma_11 one)) = true
     /\ ltb tiny (mul (rl_rhoe_r lc) (sub Cases.gamma_11 one)) = true
     /\ map isnan (rl_evals lc) = [true; false; true; false; true; false; true]
     /\ isnan (rl_bp lc) = true /\ isnan (rl_bm lc) = true
     /\ leb zero (rl_bp lc) = false /\ leb (rl_bm lc) zero = false)
  /\ ltb zero (get3 Cases.U_thin 1 1 0) = true
  /\ riemann_states 1 0 1 2 3 4 5 6 0 2%float (row3 Cases.U_thin 1 1)
       (row3 Cases.U_thin 1 1) (get2 Sample.B_zero 1 1) (get2 Sample.B_zero 1 1)
     = Raise ZeroDivisionError
  /\ riemann_adiabatic 1 2 0 1 2 3 4 5 6 0 0 0 2%float
       Cases.U_thin Cases.U_thin Sample.B_zero Sample.B_zero
     = Raise ZeroDivisionError.
Proof.
  split.
  - eexists. split; [vm_compute; reflexivity|].
    repeat split; vm_compute; reflexivity.
  - repeat split; vm_compute; reflexivity.
Qed.

(** What the hypotheses of the floors leave out.  For the fast gas of
    [Cases.U_fast] and gamma = 1 the kinetic energy overflows, the computed
    pressure is a nan and so is the pressure used (the sound speed is the
    floor).  For the thin gas of [Cases.U_thin], of positive density, the
    root of the product of the densities is zero and the loop body raises
    [ZeroDivisionError]. *)
Lemma riemann_floors_binary64_limits :
  (exists lc,
     riemann_states 1 0 1 2 3 4 5 6 0 1%float (row3 Cases.U_fast 1 1)
       (row3 Cases.U_fast 1 1) (get2 Sample.B_zero 1 1) (get2 Sample.B_zero 1 1) = Ok lc
     /\ isnan (mul (rl_rhoe_l lc) (sub 1%float one)) = true
     /\ isnan (rl_p_l lc) = true
     /\ leb tiny (rl_p_l lc) = false
     /\ rl_c_l lc = tiny)
  /\ ltb zero (get3 Cases.U_thin 1 1 0) = true
  /\ eqb (sqrt (mul (get3 Cases.U_thin 1 1 0) (get3 Cases.U_thin 1 1 0))) zero = true
  /\ riemann_states 1 0 1 2 3 4 5 6 0 2%float (row3 Cases.U_thin 1 1)
       (row3 Cases.U_thin 1 1) (get2 Sample.B_zero 1 1) (get2 Sample.B_zero 1 1)
     = Raise ZeroDivisionError.
Proof.
  split.
  - eexists. split; [vm_compute; reflexivity|].
    repeat split; vm_compute; reflexivity.
  - repeat split; vm_compute; reflexivity.
Qed.

(** The two cold streams of [Sample], in binary64. *)
Lemma riemann_floors_binary64_sample :
  exists lc,
    riemann_states 1 0 1 2 3 4 5 6 0 2%float (row3 Sample.U_cold_l 1 1)
      (row3 Sample.U_cold_r 1 1) (get2 Sample.B_zero 1 1) (get2 Sample.B_zero 1 1)
    = Ok lc
    /\ rl_p_l lc = pymax (mul (rl_rhoe_l lc) (sub 2%float one)) tiny
    /\ rl_p_r lc = pymax (mul (rl_rhoe_r lc) (sub 2%float one)) tiny
    /\ rl_c_l lc = pymax tiny (sqrt (div (mul 2%float (rl_p_l lc)) (rl_rho_l lc)))
    /\ rl_c_r lc = pymax tiny (sqrt (div (mul 2%float (rl_p_r lc)) (rl_rho_r lc)))
    /\ (isnan (mul (rl_rhoe_l lc) (sub 2%float one)) = false -> leb tiny (rl_p_l lc) = true)
    /\ (isnan (mul (rl_rhoe_r lc) (sub 2%float one)) = false -> leb tiny (rl_p_r lc) = true)
    /\ (leb tiny (mul (rl_rhoe_l lc) (sub 2%float one)) = true ->
        rl_p_l lc = mul (rl_rhoe_l lc) (sub 2%float one))
    /\ (leb tiny (mul (rl_rhoe_r lc) (sub 2%float one)) = true ->
        rl_p_r lc = mul (rl_rhoe_r lc) (sub 2%float one))
    /\ leb tiny (rl_c_l lc) = true
    /\ leb tiny (rl_c_r lc) = true
    /\ (leb tiny (sqrt (div (mul 2%float (rl_p_l lc)) (rl_rho_l lc))) = true ->
        rl_c_l lc = sqrt (div (mul 2%float (rl_p_l lc)) (rl_rho_l lc)))
    /\ (leb tiny (sqrt (div (mul 2%float (rl_p_r lc)) (rl_rho_r lc))) = true ->
        rl_c_r lc = sqrt (div (mul 2%float (rl_p_r lc)) (rl_rho_r lc)))
    /\ (eqb (sub (rl_bp lc) (rl_bm lc)) zero = false ->
        exists F, riemann_flux lc (row3 Sample.U_cold_l 1 1) (row3 Sample.U_cold_r 1 1)
                  = Ok F)
    /\ (eqb (sub (rl_bp lc) (rl_bm lc)) zero = true ->
        riemann_flux lc (row3 Sample.U_cold_l 1 1) (row3 Sample.U_cold_r 1 1)
        = Raise ZeroDivisionError).
Proof.
  apply (riemann_floors_binary64 1 0 1 2 3 4 5 6 0 2%float (row3 Sample.U_cold_l 1 1)
           (row3 Sample.U_cold_r 1 1) (get2 Sample.B_zero 1 1) (get2 Sample.B_zero 1 1));
    [exact layout_ok_sample | reflexivity ..].
Defined.

(** The moving gas of [Sample] on the left and the cold stream that moves
    towards it on the right, in binary64: the run returns, none of the 7
    speeds is a nan. *)
Lemma hlle_bounds_binary64_sample :
  exists lc,
    riemann_states 1 0 1 2 3 4 5 6 0 2%float (row3 Sample.U_flow 1 1)
      (row3 Sample.U_cold_r 1 1) (get2 Sample.B_zero 1 1) (get2 Sample.B_zero 1 1)
    = Ok lc
    /\ existsb isnan (rl_evals lc) = false
    /\ length (rl_evals lc) = 7%nat
    /\ rl_bp lc
       = pymax (pymax (np_max (rl_evals lc)) (add (rl_un_r lc) (rl_cf_r lc))) zero
    /\ rl_bm lc
       = pymin (pymin (np_min (rl_evals lc)) (sub (rl_un_l lc) (rl_cf_l lc))) zero
    /\ leb zero (rl_bp lc) = true
    /\ leb (rl_bm lc) zero = true.
Proof.
  eexists. split; [vm_compute; reflexivity|]. split; [vm_compute; reflexivity|].
  apply (hlle_bounds_binary64 1 0 1 2 3 4 5 6 0 2%float (row3 Sample.U_flow 1 1)
           (row3 Sample.U_cold_r 1 1) (get2 Sample.B_zero 1 1) (get2 Sample.B_zero 1 1));
    vm_compute; reflexivity.
Defined.

(** ** The Roe average *)

(** The slots of the two vectors of the Roe average in the goal, by
    [slots] (the lemma [roe_slots] of the layout at hand) *)
Ltac roe_eval slots :=
  repeat match goal with
         | |- context [vset_slice
                         (vset_slice
                            (vset (vset (vset (vset (vzeros_like ?v0) ?i0 ?d)
                                              ?i1 ?x1) ?i2 ?x2) ?i3 ?x3)
                            ?s1 ?s2 ?f1) ?s3 ?s4 ?f2] =>
             let Hs := fresh "Hs" in
             pose proof (slots v0 d x1 x2 x3 f1 f2 eq_refl) as Hs;
             cbv zeta in Hs;
             let H1 := fresh in let H2 := fresh in let H3 := fresh in
             let H4 := fresh in let H5 := fresh in let H6 := fresh in
             let H7 := fresh in let H8 := fresh in
             destruct Hs as [H1 [H2 [H3 [H4 [H5 [H6 [H7 H8]]]]]]];
             progress rewrite ?H1, ?H2, ?H3, ?H4, ?H5, ?H6, ?H7, ?H8;
             clear H1 H2 H3 H4 H5 H6 H7 H8
         end.

Lemma Ok_inj {A : Type} (a b : A) : Ok a = Ok b -> a = b.
Proof. intros E. injection E as E. exact E. Qed.

Section RoeAverage.
Context {T : Type} `{Num T}.
Variables idir idens ixmom iymom iener ixmag iymag irhoX nspec : Z.
Variables (gamma : T) (Ul Ur : vec T) (Bx_ij By_ij : T).
Hypothesis Hlay : layout_ok (vlen Ul) idens ixmom iymom iener ixmag iymag irhoX.

(** The six named slots of a vector built as [q_av] and [U_av] are: four
    stores, then the slice of the two fields, then the slice of the
    species. *)
Lemma roe_slots (v0 : vec T) (d x1 x2 x3 : T) (f1 f2 : Z -> T) :
  vlen v0 = vlen Ul ->
  let C := vset_slice
             (vset_slice
                (vset (vset (vset (vset (vzeros_like v0) idens d) ixmom x1) iymom x2)
                      iener x3)
                (Some ixmag) (Some (iymag + 1)) f1)
             (Some irhoX) None f2 in
  vget C idens = d /\ vget C ixmom = x1 /\ vget C iymom = x2 /\ vget C iener = x3
  /\ vget C ixmag = f1 ixmag /\ vget C iymag = f1 iymag
  /\ vat C ixmag = f1 ixmag /\ vat C iymag = f1 iymag.
Proof.
  intros Hlen C. pose proof (layout_bounds _ _ _ _ _ _ _ _ Hlay) as Hb.
  assert (Hs2 : forall k, 0 <= k < irhoX -> k < vlen Ul ->
                in_slice (vlen Ul) (Some irhoX) None k = false)
    by (intros k Hk Hk'; apply in_slice_below; lia).
  assert (Hs1 : forall k, 0 <= k ->
                in_slice (vlen Ul) (Some ixmag) (Some (iymag + 1)) k
                = (ixmag <=? k) && (k <? iymag + 1))
    by (intros k Hk; apply in_slice_within; lia).
  assert (Hdx : idens <> ixmag) by slot_ne Hlay.
  assert (Hdy : idens <> iymag) by slot_ne Hlay.
  assert (Hxx : ixmom <> ixmag) by slot_ne Hlay.
  assert (Hxy : ixmom <> iymag) by slot_ne Hlay.
  assert (Hyx : iymom <> ixmag) by slot_ne Hlay.
  assert (Hyy : iymom <> iymag) by slot_ne Hlay.
  assert (Hex : iener <> ixmag) by slot_ne Hlay.
  assert (Hey : iener <> iymag) by slot_ne Hlay.
  assert (Hout : forall k, 0 <= k < irhoX -> k <> ixmag -> k <> iymag ->
                 (ixmag <=? k) && (k <? iymag + 1) = false).
  { intros k Hk H1 H2. apply andb_false_iff.
    destruct (Z.leb_spec ixmag k); [right; apply Z.ltb_ge; lia | left; reflexivity]. }
  assert (Hin : forall k, k = ixmag \/ k = iymag ->
                (ixmag <=? k) && (k <? iymag + 1) = true).
  { intros k Hk. apply andb_true_iff. split; [apply Z.leb_le | apply Z.ltb_lt]; lia. }
  clear Hdx Hdy Hxx Hxy Hyx Hyy Hex Hey.
  unfold C, vget, vset_slice, vset, vzeros_like. cbn [vat vlen].
  rewrite Hlen. rewrite !pyidx_nonneg by lia.
  rewrite !Hs2 by lia. rewrite !Hs1 by lia.
  rewrite (Hin ixmag), (Hin iymag) by (first [left; reflexivity | right; reflexivity]).
  assert (Hd : (ixmag <=? idens) && (idens <? iymag + 1) = false)
    by (apply Hout; [lia | slot_ne Hlay | slot_ne Hlay]).
  assert (Hx : (ixmag <=? ixmom) && (ixmom <? iymag + 1) = false)
    by (apply Hout; [lia | slot_ne Hlay | slot_ne Hlay]).
  assert (Hy : (ixmag <=? iymom) && (iymom <? iymag + 1) = false)
    by (apply Hout; [lia | slot_ne Hlay | slot_ne Hlay]).
  assert (He : (ixmag <=? iener) && (iener <? iymag + 1) = false)
    by (apply Hout; [lia | slot_ne Hlay | slot_ne Hlay]).
  rewrite Hd, Hx, Hy, He. rewrite !Z.eqb_refl.
  assert (N1 : (idens =? iener) = false) by (apply Z.eqb_neq; slot_ne Hlay).
  assert (N2 : (idens =? iymom) = false) by (apply Z.eqb_neq; slot_ne Hlay).
  assert (N3 : (idens =? ixmom) = false) by (apply Z.eqb_neq; slot_ne Hlay).
  assert (N4 : (ixmom =? iener) = false) by (apply Z.eqb_neq; slot_ne Hlay).
  assert (N5 : (ixmom =? iymom) = false) by (apply Z.eqb_neq; slot_ne Hlay).
  assert (N6 : (iymom =? iener) = false) by (apply Z.eqb_neq; slot_ne Hlay).
  rewrite ?N1, ?N2, ?N3, ?N4, ?N5, ?N6.
  repeat split; reflexivity.
Qed.

(** The Roe average of lines 232 to 275, as formulas of the two states *)
Let rho_l : T := vget Ul idens.
Let rho_r : T := vget Ur idens.
Let sl : T := sqrt rho_l.
Let sr : T := sqrt rho_r.
Let qd : T := sqrt (mul rho_l rho_r).
Let qm (s : Z) : T := div (add (div (vget Ul s) sl) (div (vget Ur s) sr)) (add sl sr).
Let wb (k : Z) : T := div (add (mul (vat Ul k) sl) (mul (vat Ur k) sr)) (add sl sr).
Let Bx_l : T := if idir =? 1 then Bx_ij else vget Ul ixmag.
Let Bx_r : T := if idir =? 1 then Bx_ij else vget Ur ixmag.
Let By_l : T := if idir =? 1 then vget Ul iymag else By_ij.
Let By_r : T := if idir =? 1 then vget Ur iymag else By_ij.
Let norm (b : T) : T := div b (sqrt (mul four pi)).
Let enthalpy (U : vec T) (B2 : T) : T :=
  div (add (sub (mul gamma (vget U iener))
                (div (mul (sub gamma one) (add (sq (vget U ixmom)) (sq (vget U iymom))))
                     (vget U idens)))
           (mul (mul half gamma) B2))
      (vget U idens).
Let h_av : T :=
  div (add (mul (enthalpy Ul (add (sq Bx_l) (sq By_l))) sl)
           (mul (enthalpy Ur (add (sq Bx_r) (sq By_r))) sr))
      (add sl sr).
Let E_av : T :=
  div (sub (add (mul h_av qd)
                (mul (mul (sub gamma one) qd) (add (sq (qm ixmom)) (sq (qm iymom)))))
           (mul (mul half gamma) (add (sq (wb ixmag)) (sq (wb iymag)))))
      gamma.

Lemma riemann_roe_inv (lc : riemann_locals) :
  riemann_states idir idens ixmom iymom iener ixmag iymag irhoX nspec gamma
    Ul Ur Bx_ij By_ij = Ok lc ->
  vget (rl_U_av lc) idens = qd
  /\ vget (rl_U_av lc) ixmom = mul qd (qm ixmom)
  /\ vget (rl_U_av lc) iymom = mul qd (qm iymom)
  /\ vget (rl_U_av lc) iener = E_av
  /\ vget (rl_U_av lc) ixmag = wb ixmag
  /\ vget (rl_U_av lc) iymag = wb iymag
  /\ rl_X lc = div (mul half (sq (sub (norm (if idir =? 1 then By_l else Bx_l))
                                      (norm (if idir =? 1 then By_r else Bx_r)))))
                   (add sl sr)
  /\ rl_Y lc = div (mul half (add rho_l rho_r)) qd.
Proof.
  intros Hrun. unfold riemann_states in Hrun. cbv zeta in Hrun.
  unfold E_av, h_av, enthalpy, norm, Bx_l, Bx_r, By_l, By_r, wb, qm, qd, sl, sr,
    rho_l, rho_r.
  destruct (idir =? 1); invert_binds Hrun; apply Ok_inj in Hrun; rewrite <- Hrun;
    unfold rl_U_av, rl_X, rl_Y;
    invert_sdivs;
    repeat match goal with |- _ /\ _ => split end;
    roe_eval roe_slots;
    repeat match goal with E : ?a = div _ _ |- context [?a] => rewrite E; roe_eval roe_slots end;
    try match goal with |- ?x = ?y => constr_eq x y; reflexivity end.
Qed.

End RoeAverage.

(** ** Equal states in exact arithmetic *)

Section WaveSpeeds.
Local Open Scope R_scope.
Local Abbreviation rsqrt := R_sqrt.sqrt.

Lemma wave_disc_nonneg (a ca cax : R) :
  0 <= a -> 0 <= cax <= ca -> 0 <= (a + ca) * (a + ca) - 4 * a * cax.
Proof.
  intros Ha Hc.
  assert (H1 : 0 <= a * (ca - cax)) by (apply Rmult_le_pos; lra).
  assert (H2 : 0 <= (a - ca) * (a - ca)) by apply Rle_0_sqr.
  lra.
Qed.

Lemma wave_disc_root (a ca cax : R) :
  0 <= a -> 0 <= cax <= ca ->
  0 <= rsqrt ((a + ca) * (a + ca) - 4 * a * cax) <= a + ca.
Proof.
  intros Ha Hc. split; [apply sqrt_pos|].
  apply Rle_trans with (rsqrt ((a + ca) * (a + ca))).
  - apply sqrt_le_1_alt.
    assert (H1 : 0 <= a * cax) by (apply Rmult_le_pos; lra). lra.
  - rewrite sqrt_square by lra. lra.
Qed.

Variables idir idens ixmom iymom iener ixmag iymag irhoX : Z.

Lemma calc_evals_real (V : vec xreal) (g d m1 m2 e b1 b2 : R) :
  vget V idens = Some d -> vget V ixmom = Some m1 -> vget V iymom = Some m2 ->
  vget V iener = Some e -> vget V ixmag = Some b1 -> vget V iymag = Some b2 ->
  0 < d -> 1 <= g ->
  0 <= e - 1 / 2 * d * (m1 / d * (m1 / d) + m2 / d * (m2 / d))
       - 1 / 2 * (b1 / rsqrt (4 * PI) * (b1 / rsqrt (4 * PI))
                  + b2 / rsqrt (4 * PI) * (b2 / rsqrt (4 * PI))) ->
  exists ev,
    calc_evals idir V (Some g) idens ixmom iymom iener ixmag iymag irhoX
      (Some 0) (Some 1) = Ok ev
    /\ Forall finite ev.
Proof.
  intros Hd Hm1 Hm2 He Hb1 Hb2 Hpos Hg Hth.
  assert (H4 : sqrt (mul four pi) = Some (rsqrt (4 * PI)) /\ 0 < rsqrt (4 * PI)).
  { pose proof PI_RGT_0 as Hpi. cbn [mul four pi xreal_num xlift2].
    rewrite x_sqrt by lra. split; [reflexivity | apply sqrt_lt_R0; lra]. }
  destruct H4 as [H4 H4pos].
  unfold calc_evals. rewrite Hd, Hm1, Hm2, He, Hb1, Hb2, H4.
  set (s := rsqrt (4 * PI)) in *. clearbody s.
  set (th := e - 1 / 2 * d * (m1 / d * (m1 / d) + m2 / d * (m2 / d))
             - 1 / 2 * (b1 / s * (b1 / s) + b2 / s * (b2 / s))) in *.
  assert (Hsq : forall b, 0 <= b / s * (b / s) / d).
  { intros b. apply Rmult_le_pos; [apply Rle_0_sqr | left; apply Rinv_0_lt_compat; lra]. }
  destruct (idir =? 1)%Z;
    repeat (cbn [add sub mul sq half two one four xreal_num xlift2];
            rewrite ?x_sdiv by lra; cbn [bind]);
    match goal with
    | |- context [@sqrt _ _ (Some ((?A + ?C) * (?A + ?C) - 4 * ?A * ?X))] =>
        assert (HA : 0 <= A)
          by (replace A with (g * (g - 1) * th / d) by (unfold th; field; lra);
              apply Rmult_le_pos;
              [apply Rmult_le_pos; [apply Rmult_le_pos; lra | exact Hth]
              | left; apply Rinv_0_lt_compat; lra]);
        assert (HX : 0 <= X <= C)
          by (split; [apply Hsq |];
              match goal with
              | |- _ <= _ + (g - 1 - (g - 2) * 1) * ?q / d =>
                  replace ((g - 1 - (g - 2) * 1) * q / d) with (q / d) by (field; lra)
              | |- _ <= (g - 1 - (g - 2) * 1) * ?q / d + _ =>
                  replace ((g - 1 - (g - 2) * 1) * q / d) with (q / d) by (field; lra)
              | _ => idtac
              end;
              pose proof (Hsq b1); pose proof (Hsq b2); lra);
        set (a := A) in *; set (c := C) in *; set (x := X) in *
    end;
    clearbody a c x;
    pose proof (wave_disc_root a c x HA HX) as Hroot;
    rewrite (x_sqrt _ (wave_disc_nonneg a c x HA HX)); cbv iota beta;
    rewrite !x_sqrt by lra;
    (eexists; split; [reflexivity | repeat constructor; eexists; reflexivity]).
Qed.

End WaveSpeeds.


Section FluxFunctionExact.
Context {T : Type} `{Num T}.
Variables idir idens ixmom iymom iener ixmag iymag irhoX naux : Z.
Variable gamma : T.


End FluxFunctionExact.

Section EqualStates.
Local Open Scope R_scope.
Local Abbreviation rsqrt := R_sqrt.sqrt.

Variables idir idens ixmom iymom iener ixmag iymag irhoX nspec n : Z.
Variables (g : R) (u : Z -> R) (bxf byf : R) (Ul Ur : vec xreal).
Hypothesis Hlay : layout_ok n idens ixmom iymom iener ixmag iymag irhoX.
Hypothesis HlenUl : vlen Ul = n.
Hypothesis HlenUr : vlen Ur = n.
Hypothesis HUl : forall k, vat Ul k = Some (u k).
Hypothesis HUr : forall k, vat Ur k = Some (u k).
Hypothesis Hrho : 0 < u idens.
Hypothesis Hg : 1 <= g.
Hypothesis Hface : if (idir =? 1)%Z then bxf = u ixmag else byf = u iymag.
Hypothesis Hth : 0 <= thermal_energy idens ixmom iymom iener ixmag iymag u.

Lemma x_vget_left (k : Z) : (0 <= k)%Z -> vget Ul k = Some (u k).
Proof. intros Hk. unfold vget. rewrite pyidx_nonneg by exact Hk. apply HUl. Qed.

Lemma x_vget_right (k : Z) : (0 <= k)%Z -> vget Ur k = Some (u k).
Proof. intros Hk. unfold vget. rewrite pyidx_nonneg by exact Hk. apply HUr. Qed.

(** The Roe average of two equal states is the state, with [X = 0] and
    [Y = 1]. *)
Lemma roe_equal_states (lc : riemann_locals) :
  riemann_states idir idens ixmom iymom iener ixmag iymag irhoX nspec (Some g)
    Ul Ur (Some bxf) (Some byf) = Ok lc ->
  vget (rl_U_av lc) idens = Some (u idens)
  /\ vget (rl_U_av lc) ixmom = Some (u ixmom)
  /\ vget (rl_U_av lc) iymom = Some (u iymom)
  /\ vget (rl_U_av lc) iener = Some (u iener)
  /\ vget (rl_U_av lc) ixmag = Some (u ixmag)
  /\ vget (rl_U_av lc) iymag = Some (u iymag)
  /\ rl_X lc = Some 0
  /\ rl_Y lc = Some 1.
Proof.
  intros Hrun.
  pose proof (layout_bounds _ _ _ _ _ _ _ _ Hlay) as Hb.
  assert (Hlay' : layout_ok (vlen Ul) idens ixmom iymom iener ixmag iymag irhoX)
    by (rewrite HlenUl; exact Hlay).
  pose proof (riemann_roe_inv idir idens ixmom iymom iener ixmag iymag irhoX nspec
                (Some g) Ul Ur (Some bxf) (Some byf) Hlay' lc Hrun) as Hroe.
  destruct (x_four_pi) as [H4 H4pos].
  set (s4 := rsqrt (4 * PI)) in *. clearbody s4.
  assert (Hs : 0 < rsqrt (u idens)) by (apply sqrt_lt_R0; exact Hrho).
  assert (Hss : rsqrt (u idens) * rsqrt (u idens) = u idens) by (apply sqrt_sqrt; lra).
  assert (Hqd : rsqrt (u idens * u idens) = u idens) by (apply sqrt_square; lra).
  rewrite !x_vget_left, !x_vget_right, !HUl, !HUr, H4 in Hroe by lia.
  rewrite !(x_sqrt (u idens)) in Hroe by lra.
  cbn [mul xreal_num xlift2] in Hroe.
  rewrite !(x_sqrt (u idens * u idens)) in Hroe by nra.
  rewrite Hqd in Hroe.
  set (s := rsqrt (u idens)) in *. clearbody s.
  destruct (idir =? 1)%Z; subst;
    repeat (cbn [add sub mul sq half one xreal_num xlift2] in Hroe;
            rewrite ?x_div in Hroe by lra);
    destruct Hroe as (R1 & R2 & R3 & R4 & R5 & R6 & R7 & R8);
    rewrite R1, R2, R3, R4, R5, R6, R7, R8;
    repeat split; f_equal; rewrite <- ?Hss; field; lra.
Qed.



End EqualStates.

(** ** Flux continuity *)

Section FluxContinuity.
Local Open Scope R_scope.

Variables idir ng idens ixmom iymom iener ixmag iymag irhoX nspec : Z.
Variables lower_solid upper_solid : Z.
Variables (g : R) (U_l U_r : arr3 xreal) (Bx By : arr2 xreal).




Variables (i j : Z) (u : Z -> R) (bxf byf : R).
Hypothesis Hlay : layout_ok (len2 U_l) idens ixmom iymom iener ixmag iymag irhoX.
Hypothesis Hlen : len2 U_r = len2 U_l.
Hypothesis Hng : (2 <= ng)%Z.
Hypothesis Hi : (ng - 2 <= i < len0 U_l - ng + 2)%Z.
Hypothesis Hj : (ng - 2 <= j < len1 U_l - ng + 2)%Z.
Hypothesis HUl : forall k, at3 U_l i j k = Some (u k).
Hypothesis HUr : forall k, at3 U_r i j k = Some (u k).
Hypothesis HBx : get2 Bx i j = Some bxf.
Hypothesis HBy : get2 By i j = Some byf.
Hypothesis Hface : if (idir =? 1)%Z then bxf = u ixmag else byf = u iymag.
Hypothesis Hrho : 0 < u idens.
Hypothesis Hg : 1 <= g.
Hypothesis Hth : 0 <= thermal_energy idens ixmom iymom iener ixmag iymag u.


End FluxContinuity.

(** The thermal energy of the moving gas of [Sample] is 1.5. *)
Lemma thermal_energy_flow : (0 <= thermal_energy 0 1 2 3 4 5 Sample.flow)%R.
Proof.
  unfold thermal_energy.
  change (Sample.flow 0) with 1%R. change (Sample.flow 1) with 1%R.
  change (Sample.flow 2) with 0%R. change (Sample.flow 3) with 2%R.
  change (Sample.flow 4) with 0%R. change (Sample.flow 5) with 0%R.
  unfold Rdiv. rewrite !Rmult_0_l. lra.
Qed.



(** * Further properties *)

(** ** Exceptions *)

Section OnlyZeroDivision.
Context {T : Type} `{Num T}.

Lemma only_zde_ok {A : Type} (a : A) : only_zde (Ok a).
Proof. intros e He. discriminate. Qed.

Lemma only_zde_sdiv (a b : T) : only_zde (sdiv a b).
Proof.
  intros e He. unfold sdiv in He. destruct (eqb b zero); [|discriminate].
  injection He as <-. reflexivity.
Qed.

Lemma only_zde_bind {A B : Type} (m : result A) (k : A -> result B) :
  only_zde m -> (forall a, only_zde (k a)) -> only_zde (bind m k).
Proof.
  intros Hm Hk e He. destruct m as [a|e']; cbn [bind] in He.
  - exact (Hk a e He).
  - injection He as <-. apply Hm. reflexivity.
Qed.

Lemma only_zde_if {A : Type} (b : bool) (m1 m2 : result A) :
  only_zde m1 -> only_zde m2 -> only_zde (if b then m1 else m2).
Proof. destruct b; auto. Qed.

Variables idir idens ixmom iymom iener ixmag iymag irhoX : Z.
Variable gamma : T.

Lemma consFlux_only_zde (naux : Z) (U : vec T) :
  only_zde (consFlux idir gamma idens ixmom iymom iener ixmag iymag irhoX naux U).
Proof.
  unfold consFlux. cbv zeta.
  apply only_zde_bind; [apply only_zde_sdiv | intros u].
  apply only_zde_bind; [apply only_zde_sdiv | intros v].
  destruct (idir =? 1); apply only_zde_ok.
Qed.

Lemma calc_evals_only_zde (U : vec T) (X Y : T) :
  only_zde (calc_evals idir U gamma idens ixmom iymom iener ixmag iymag irhoX X Y).
Proof.
  unfold calc_evals. cbv zeta.
  repeat (apply only_zde_bind;
          [first [apply only_zde_sdiv | apply only_zde_if; apply only_zde_sdiv]
          | intros ?]).
  apply only_zde_ok.
Qed.

Lemma riemann_states_only_zde (nspec : Z) (Ul Ur : vec T) (Bx_ij By_ij : T) :
  only_zde (riemann_states idir idens ixmom iymom iener ixmag iymag irhoX nspec gamma
              Ul Ur Bx_ij By_ij).
Proof.
  unfold riemann_states. cbv zeta.
  repeat (apply only_zde_bind;
          [first [ apply only_zde_sdiv
                 | apply only_zde_if; apply only_zde_sdiv
                 | apply calc_evals_only_zde
                 | apply consFlux_only_zde ]
          | intros ?]).
  apply only_zde_ok.
Qed.

Lemma riemann_cell_only_zde (nspec : Z) (U_l U_r : arr3 T) (Bx By : arr2 T) (i j : Z) :
  only_zde (riemann_cell idir idens ixmom iymom iener ixmag iymag irhoX nspec gamma
              U_l U_r Bx By i j).
Proof.
  unfold riemann_cell.
  apply only_zde_bind; [apply riemann_states_only_zde | intros lc].
  unfold riemann_flux. cbv zeta.
  apply only_zde_bind; [apply only_zde_sdiv | intros s]. apply only_zde_ok.
Qed.

(** X1.  [consFlux] fails in one way only: it raises [ZeroDivisionError]
    when the density of the state compares equal to zero, and for every
    other state it returns a flux vector of the length of the state. *)
Theorem consFlux_fails_on_zero_density_only (naux : Z) (U : vec T) :
  (eqb (vget U idens) zero = true
   /\ consFlux idir gamma idens ixmom iymom iener ixmag iymag irhoX naux U
      = Raise ZeroDivisionError)
  \/ (eqb (vget U idens) zero = false
      /\ exists F,
           consFlux idir gamma idens ixmom iymom iener ixmag iymag irhoX naux U = Ok F
           /\ vlen F = vlen U).
Proof.
  destruct (eqb (vget U idens) zero) eqn:Hd.
  - left. split; [reflexivity | apply consFlux_raises; exact Hd].
  - right. split; [reflexivity|].
    destruct (consFlux_returns idens ixmom iymom iener ixmag iymag irhoX
                idir gamma naux U Hd) as [F HF].
    exists F. split; [exact HF | exact (consFlux_vlen _ _ _ _ _ _ _ _ _ _ _ _ HF)].
Qed.

(** X2.  With a nonzero [sqrt (4 pi)], [calc_evals] fails in one way only:
    it raises [ZeroDivisionError] when the density of the state compares
    equal to zero, and for every other state it returns 7 speeds. *)
Theorem calc_evals_fails_on_zero_density_only (U : vec T) (X Y : T) :
  eqb (sqrt (mul four pi)) zero = false ->
  (eqb (vget U idens) zero = true
   /\ calc_evals idir U gamma idens ixmom iymom iener ixmag iymag irhoX X Y
      = Raise ZeroDivisionError)
  \/ (eqb (vget U idens) zero = false
      /\ exists ev,
           calc_evals idir U gamma idens ixmom iymom iener ixmag iymag irhoX X Y = Ok ev
           /\ length ev = 7%nat).
Proof.
  intros Hpi. destruct (eqb (vget U idens) zero) eqn:Hd.
  - left. split; [reflexivity|]. unfold calc_evals.
    rewrite (sdiv_raises _ _ Hd). reflexivity.
  - right. split; [reflexivity|]. unfold calc_evals.
    rewrite !(sdiv_ok _ _ Hd), !(sdiv_ok _ _ Hpi). cbn [bind].
    destruct (idir =? 1); rewrite !(sdiv_ok _ _ Hd); cbn [bind];
      eexists; (split; [reflexivity | reflexivity]).
Qed.

End OnlyZeroDivision.

Section RaisingLoopsFail.
Variables (A S : Type).

Lemma for_each_only_zde (body : A -> S -> result S) (xs : list A) :
  (forall x s, only_zde (body x s)) -> forall s, only_zde (for_each xs body s).
Proof.
  intros Hbody. induction xs as [|x xs IH]; intros s; cbn [for_each].
  - intros e He. discriminate.
  - intros e He. destruct (body x s) as [s1|e1] eqn:Hb; cbn [bind] in He.
    + exact (IH s1 e He).
    + injection He as <-. exact (Hbody x s e1 Hb).
Qed.

Lemma for_each_raises (body : A -> S -> result S) (xs : list A) (x0 : A) :
  In x0 xs -> (forall x s, only_zde (body x s)) ->
  (forall s, body x0 s = Raise ZeroDivisionError) ->
  forall s, for_each xs body s = Raise ZeroDivisionError.
Proof.
  intros Hin Hbody Hx0. induction xs as [|x xs IH]; intros s; [destruct Hin|].
  cbn [for_each]. destruct (body x s) as [s1|e1] eqn:Hb; cbn [bind].
  - destruct Hin as [->|Hin]; [rewrite Hx0 in Hb; discriminate | exact (IH Hin s1)].
  - f_equal. exact (Hbody x s e1 Hb).
Qed.

End RaisingLoopsFail.

Section ZeroDensity.
Context {T : Type} `{Num T}.
Variables idir ng idens ixmom iymom iener ixmag iymag irhoX nspec : Z.
Variables lower_solid upper_solid : Z.
Variables (gamma : T) (U_l U_r : arr3 T) (Bx By : arr2 T).

Lemma riemann_cell_zero_density (i j : Z) :
  eqb (get3 U_l i j idens) zero = true \/ eqb (get3 U_r i j idens) zero = true ->
  riemann_cell idir idens ixmom iymom iener ixmag iymag irhoX nspec gamma
    U_l U_r Bx By i j = Raise ZeroDivisionError.
Proof.
  intros Hz.
  pose proof (riemann_cell_only_zde idir idens ixmom iymom iener ixmag iymag irhoX gamma
                nspec U_l U_r Bx By i j) as Honly.
  destruct (riemann_cell idir idens ixmom iymom iener ixmag iymag irhoX nspec gamma
              U_l U_r Bx By i j) as [v|e] eqn:Hcell;
    [| f_equal; apply Honly; reflexivity].
  exfalso. unfold riemann_cell in Hcell.
  apply bind_inv in Hcell. destruct Hcell as [lc [Hlc _]].
  unfold riemann_states in Hlc. cbv zeta in Hlc.
  change (vget (row3 U_l i j) idens) with (get3 U_l i j idens) in Hlc.
  change (vget (row3 U_r i j) idens) with (get3 U_r i j idens) in Hlc.
  apply bind_inv in Hlc. destruct Hlc as [a1 [E1 Hlc]].
  apply bind_inv in Hlc. destruct Hlc as [a2 [E2 Hlc]].
  apply bind_inv in Hlc. destruct Hlc as [a3 [E3 _]].
  destruct Hz as [Hz|Hz].
  - destruct (idir =? 1); rewrite (sdiv_raises _ _ Hz) in E1; discriminate.
  - destruct (idir =? 1); rewrite (sdiv_raises _ _ Hz) in E3; discriminate.
Qed.

(** X3.  If the density of the left or of the right state compares equal
    to zero at an interface of the computed range, [riemann_adiabatic]
    raises [ZeroDivisionError]: no flux array is returned. *)
Theorem riemann_adiabatic_zero_density_raises (i j : Z) :
  ng - 2 <= i < len0 U_l - ng + 2 -> ng - 2 <= j < len1 U_l - ng + 2 ->
  eqb (get3 U_l i j idens) zero = true \/ eqb (get3 U_r i j idens) zero = true ->
  riemann_adiabatic idir ng idens ixmom iymom iener ixmag iymag irhoX nspec
    lower_solid upper_solid gamma U_l U_r Bx By = Raise ZeroDivisionError.
Proof.
  intros Hi Hj Hz. unfold riemann_adiabatic. cbv zeta.
  apply (for_each_raises _ _ _ _ i).
  - apply in_range. lia.
  - intros x s. apply for_each_only_zde. intros y s'.
    apply only_zde_bind; [apply riemann_cell_only_zde | intros v; apply only_zde_ok].
  - intros s. apply (for_each_raises _ _ _ _ j).
    + apply in_range. lia.
    + intros y s'.
      apply only_zde_bind; [apply riemann_cell_only_zde | intros v; apply only_zde_ok].
    + intros s'. rewrite (riemann_cell_zero_density i j Hz). reflexivity.
Qed.

End ZeroDensity.

(** ** What the loops leave untouched *)

Section LoopInvariants.
Variables (A S : Type) (I : S -> Prop).

Lemma for_pure_inv (body : A -> S -> S) (xs : list A) :
  (forall x s, In x xs -> I s -> I (body x s)) ->
  forall s, I s -> I (for_pure xs body s).
Proof.
  unfold for_pure. induction xs as [|x xs IH]; intros Hbody s Hs; cbn [fold_left].
  - exact Hs.
  - apply IH; [intros y s' Hy; apply Hbody; right; exact Hy|].
    apply Hbody; [left; reflexivity | exact Hs].
Qed.

Lemma for_each_inv (body : A -> S -> result S) (xs : list A) :
  (forall x s s1, In x xs -> I s -> body x s = Ok s1 -> I s1) ->
  forall s s', I s -> for_each xs body s = Ok s' -> I s'.
Proof.
  induction xs as [|x xs IH]; intros Hbody s s' Hs Hrun; cbn [for_each] in Hrun.
  - apply Ok_inj in Hrun. subst s'. exact Hs.
  - apply bind_inv in Hrun. destruct Hrun as [s1 [Hb Hrun]].
    apply (IH (fun y t t1 Hy => Hbody y t t1 (or_intror Hy)) s1 s'); [|exact Hrun].
    apply (Hbody x s s1); [left; reflexivity | exact Hs | exact Hb].
Qed.

End LoopInvariants.

Section Frames.
Context {T : Type} `{Num T}.
Variables idens ixmom iymom iener ixmag iymag irhoX : Z.

(** X4.  A flux array that [riemann_adiabatic] returns (for [ng >= 2]) has
    the shape of [U_l], and is zero in every component at the interfaces
    outside the computed range, which is all but the outer [ng - 2] layers
    of cells. *)
Theorem riemann_adiabatic_writes_computed_range_only
    (idir ng nspec lower_solid upper_solid : Z) (gamma : T)
    (U_l U_r : arr3 T) (Bx By : arr2 T) (F : arr3 T) :
  2 <= ng ->
  riemann_adiabatic idir ng idens ixmom iymom iener ixmag iymag irhoX nspec
    lower_solid upper_solid gamma U_l U_r Bx By = Ok F ->
  shape3 F = shape3 U_l
  /\ forall a b k,
       0 <= a < len0 U_l -> 0 <= b < len1 U_l ->
       a < ng - 2 \/ len0 U_l - ng + 2 <= a \/ b < ng - 2 \/ len1 U_l - ng + 2 <= b ->
       get3 F a b k = zero.
Proof.
  intros Hng Hrun. unfold riemann_adiabatic in Hrun. cbv zeta in Hrun.
  set (I := fun F : arr3 T =>
              shape3 F = shape3 U_l
              /\ forall a b k,
                   0 <= a -> 0 <= b ->
                   a < ng - 2 \/ len0 U_l - ng + 2 <= a
                   \/ b < ng - 2 \/ len1 U_l - ng + 2 <= b ->
                   at3 F a b k = zero).
  assert (HI : I F).
  { refine (for_each_inv _ _ I _ _ _ _ _ _ Hrun).
    - intros x s s1 Hx Hs Hin. refine (for_each_inv _ _ I _ _ _ _ _ Hs Hin).
      intros y t t1 Hy [Hsh Hz] Hb. apply bind_inv in Hb. destruct Hb as [v [_ Hb]].
      apply Ok_inj in Hb. subst t1. apply in_range in Hx. apply in_range in Hy.
      split; [exact Hsh|]. intros a b k Ha Hb Hout.
      unfold set_row3. cbn [at3]. rewrite !pyidx_nonneg by lia.
      destruct (Z.eqb_spec a x) as [->|_]; [|cbn [andb]; apply Hz; assumption].
      destruct (Z.eqb_spec b y) as [->|_]; [lia | cbn [andb]; apply Hz; assumption].
    - split; [reflexivity | intros; reflexivity]. }
  destruct HI as [Hsh Hz]. split; [exact Hsh|].
  intros a b k Ha Hb Hout. unfold get3.
  replace (len0 F) with (len0 U_l) by (unfold len0; rewrite Hsh; reflexivity).
  replace (len1 F) with (len1 U_l) by (unfold len1; rewrite Hsh; reflexivity).
  rewrite !pyidx_nonneg by lia. apply Hz; [lia | lia | exact Hout].
Qed.

(** X5.  The array that [sources] returns has the shape of [U]; it is zero
    in every component other than the two momenta, and in every component
    of the cells of the outermost layer. *)
Theorem sources_writes_momenta_only (idir ng : Z) (dx : T) (U Ux : arr3 T)
    (i j k : Z) :
  0 <= i < len0 U -> 0 <= j < len1 U -> 0 <= k < len2 U ->
  (k <> pyidx (len2 U) ixmom /\ k <> pyidx (len2 U) iymom)
  \/ i = 0 \/ i = len0 U - 1 \/ j = 0 \/ j = len1 U - 1 ->
  let S := sources idir ng idens ixmom iymom iener ixmag iymag irhoX dx U Ux in
  shape3 S = (len0 U, len1 U, len2 U) /\ get3 S i j k = zero.
Proof.
  intros Hi Hj Hk Hout S.
  set (I := fun S : arr3 T =>
              shape3 S = (len0 U, len1 U, len2 U) /\ at3 S i j k = zero).
  assert (HI : I S).
  { unfold S, sources. cbv zeta.
    apply for_pure_inv; [|split; reflexivity].
    intros x s Hx Hs. apply for_pure_inv; [|exact Hs].
    intros y t Hy [Hsh Hz]. apply in_range in Hx. apply in_range in Hy.
    unfold len0, len1, len2 in *.
    destruct (idir =? 1); (split; [exact Hsh|]);
      unfold set3, len0, len1, len2; cbn [at3 shape3]; rewrite !Hsh; cbn [fst snd];
      rewrite !(pyidx_nonneg _ x), !(pyidx_nonneg _ y) by lia;
      repeat match goal with
             | |- context [(?a =? ?b)] => destruct (Z.eqb_spec a b); cbn [andb]
             end;
      try exact Hz; exfalso; lia. }
  destruct HI as [Hsh Hz]. split; [exact Hsh|].
  unfold get3, len0, len1, len2. rewrite Hsh. cbn [fst snd].
  rewrite !pyidx_nonneg by lia. exact Hz.
Qed.

End Frames.

(** ** The flux function *)

Section FluxEntries.
Context {T : Type} `{Num T}.
Variables idens ixmom iymom iener ixmag iymag irhoX : Z.
Variables (idir : Z) (gamma : T) (naux : Z) (U : vec T).

(** The velocity along the sweep *)
Let un : T := div (vget U (if idir =? 1 then ixmom else iymom)) (vget U idens).

(** X6.  In a valid layout, the species slots of the flux that [consFlux]
    returns hold the partial densities times the velocity along the sweep,
    for the first [naux] species, and zero for the slots after them (all of
    them when [naux] is not positive). *)
Theorem consFlux_species_advected (F : vec T) (k : Z) :
  layout_ok (vlen U) idens ixmom iymom iener ixmag iymag irhoX ->
  consFlux idir gamma idens ixmom iymom iener ixmag iymag irhoX naux U = Ok F ->
  irhoX <= k < vlen U ->
  vget F k = if k <? irhoX + naux then mul (vget U k) un else zero.
Proof.
  intros Hlay HF Hk. pose proof (layout_bounds _ _ _ _ _ _ _ _ Hlay) as Hb.
  unfold consFlux in HF. invert_binds HF. invert_sdivs. subst.
  unfold un.
  assert (Hin : (0 <? naux) = true ->
                in_slice (vlen U) (Some irhoX) (Some (irhoX + naux)) k
                = (k <? irhoX + naux)).
  { intros Hn. apply Z.ltb_lt in Hn. unfold in_slice, slice_bound.
    rewrite !pyidx_nonneg by lia.
    destruct (Z.ltb_spec k (irhoX + naux)) as [Hlt|Hge].
    - apply andb_true_iff. split; [apply Z.leb_le | apply Z.ltb_lt]; lia.
    - apply andb_false_iff. right. apply Z.ltb_ge. lia. }
  assert (Hnaux : (0 <? naux) = false -> (k <? irhoX + naux) = false).
  { intros Hn. apply Z.ltb_ge in Hn. apply Z.ltb_ge. lia. }
  destruct (idir =? 1), (0 <? naux) eqn:Hn; apply Ok_inj in HF; subst F;
    unfold vget, vset_slice, vset, vzeros_like; cbn [vat vlen];
    rewrite !(pyidx_nonneg (vlen U)) by lia;
    rewrite ?(Hin eq_refl); rewrite ?(Hnaux eq_refl);
    try (destruct (k <? irhoX + naux); [reflexivity|]);
    repeat match goal with
           | |- context [(k =? ?s)] => destruct (Z.eqb_spec k s); [exfalso; lia|]
           end;
    reflexivity.
Qed.

End FluxEntries.

Section FluxExact.
Local Open Scope R_scope.
Variables idens ixmom iymom iener ixmag iymag irhoX : Z.

Lemma x_add_comm (a b : xreal) : add a b = add b a.
Proof. destruct a, b; cbn; try reflexivity. f_equal. ring. Qed.

Lemma x_mul_comm (a b : xreal) : mul a b = mul b a.
Proof. destruct a, b; cbn; try reflexivity. f_equal. ring. Qed.

(** X7.  In exact arithmetic and a valid layout, the mass flux of
    [consFlux] is the momentum along the sweep: for a state of nonzero
    density [F[idens]] is [U[ixmom]] for [idir = 1] and [U[iymom]]
    otherwise. *)
Theorem consFlux_mass_flux_is_momentum (idir : Z) (gamma : xreal) (naux : Z)
    (U : vec xreal) (rho m : R) :
  layout_ok (vlen U) idens ixmom iymom iener ixmag iymag irhoX ->
  vget U idens = Some rho -> rho <> 0 ->
  vget U (if (idir =? 1)%Z then ixmom else iymom) = Some m ->
  exists F,
    consFlux idir gamma idens ixmom iymom iener ixmag iymag irhoX naux U = Ok F
    /\ vget F idens = Some m.
Proof.
  intros Hlay Hrho Hnz Hm. pose proof (layout_bounds _ _ _ _ _ _ _ _ Hlay) as Hb.
  assert (N1 : idens <> ixmom) by slot_ne Hlay.
  assert (N2 : idens <> iymom) by slot_ne Hlay.
  assert (N3 : idens <> iener) by slot_ne Hlay.
  assert (N4 : idens <> ixmag) by slot_ne Hlay.
  assert (N5 : idens <> iymag) by slot_ne Hlay.
  unfold consFlux. rewrite Hrho.
  assert (Hd : eqb (Some rho : xreal) zero = false) by (apply x_nonzero; exact Hnz).
  rewrite !(sdiv_ok _ _ Hd). cbn [bind].
  destruct (idir =? 1)%Z, (0 <? naux)%Z; (eexists; split; [reflexivity|]);
    unfold vget, vset_slice, vset, vzeros_like; cbn [vat vlen];
    rewrite !(pyidx_nonneg (vlen U)) by lia;
    rewrite ?in_slice_below by lia;
    repeat match goal with
           | |- context [(idens =? ?s)%Z] =>
               destruct (Z.eqb_spec idens s); [first [contradiction | idtac]|]
           end;
    try contradiction;
    unfold vget in Hm; rewrite !(pyidx_nonneg (vlen U)) in Hm by lia; rewrite Hm;
    rewrite (x_div _ _ Hnz); cbn [mul xreal_num xlift2]; f_equal; field; exact Hnz.
Qed.

End FluxExact.

Section FluxSymmetry.
Variables idens ixmom iymom iener ixmag iymag irhoX : Z.

(** X8.  In exact arithmetic and a valid layout, the flux along y is the
    flux along x of the state read with the two momenta and the two fields
    exchanged: [consFlux] for [idir = 2] and [consFlux] for [idir = 1] with
    [ixmom], [iymom] and [ixmag], [iymag] swapped both raise, or return
    vectors with the same elements. *)
Theorem consFlux_xy_symmetry (gamma : xreal) (naux : Z) (U : vec xreal) :
  layout_ok (vlen U) idens ixmom iymom iener ixmag iymag irhoX ->
  match consFlux 2 gamma idens ixmom iymom iener ixmag iymag irhoX naux U,
        consFlux 1 gamma idens iymom ixmom iener iymag ixmag irhoX naux U with
  | Ok Fy, Ok Fx => forall k, vat Fy k = vat Fx k
  | Raise ey, Raise ex => ey = ex
  | _, _ => False
  end.
Proof.
  intros Hlay. pose proof (layout_bounds _ _ _ _ _ _ _ _ Hlay) as Hb.
  assert (N1 : ixmag <> iymag) by slot_ne Hlay.
  assert (N2 : ixmom <> iymom) by slot_ne Hlay.
  unfold consFlux.
  destruct (eqb (vget U idens) zero) eqn:Hd.
  - rewrite !(sdiv_raises _ _ Hd). reflexivity.
  - rewrite !(sdiv_ok _ _ Hd). cbn [bind Z.eqb Pos.eqb].
    set (u := div (vget U ixmom) (vget U idens)).
    set (v := div (vget U iymom) (vget U idens)).
    set (bx := vget U ixmag). set (by_ := vget U iymag).
    rewrite (x_add_comm (sq by_) (sq bx)), (x_add_comm (sq v) (sq u)).
    rewrite (x_mul_comm by_ bx), (x_add_comm (mul by_ v) (mul bx u)).
    destruct (0 <? naux); intros k;
      unfold vset_slice, vset, vzeros_like; cbn [vat vlen];
      rewrite !(pyidx_nonneg (vlen U)) by lia;
      repeat match goal with
             | |- context [(k =? ?s)] => destruct (Z.eqb_spec k s)
             end;
      try reflexivity; exfalso; lia.
Qed.

End FluxSymmetry.

(** ** The characteristic speeds *)

Section SpeedsOrdered.
Local Open Scope R_scope.
Local Abbreviation rsqrt := R_sqrt.sqrt.

Lemma wave_speeds_between (a c x : R) :
  0 <= a -> 0 <= x <= c ->
  0 <= 1 / 2 * (a + c - rsqrt ((a + c) * (a + c) - 4 * a * x)) <= x
  /\ x <= 1 / 2 * (a + c + rsqrt ((a + c) * (a + c) - 4 * a * x)).
Proof.
  intros Ha Hx.
  pose proof (wave_disc_nonneg a c x Ha Hx) as HD.
  pose proof (wave_disc_root a c x Ha Hx) as [Hr0 Hr1].
  pose proof (sqrt_sqrt _ HD) as Hrr.
  set (r := rsqrt ((a + c) * (a + c) - 4 * a * x)) in *.
  assert (Hxc : 0 <= x * (c - x)) by (apply Rmult_le_pos; lra).
  assert (Hlow : a + c - 2 * x <= r).
  { destruct (Rle_dec (a + c - 2 * x) r) as [Hle|Hgt]; [exact Hle|].
    exfalso. assert (Hlt : r < a + c - 2 * x) by lra.
    assert (Hsq : r * r < (a + c - 2 * x) * (a + c - 2 * x))
      by (apply Rmult_le_0_lt_compat; lra).
    lra. }
  assert (Hhigh : 2 * x - (a + c) <= r).
  { destruct (Rle_dec (2 * x - (a + c)) r) as [Hle|Hgt]; [exact Hle|].
    exfalso. assert (Hlt : r < 2 * x - (a + c)) by lra.
    assert (Hsq : r * r < (2 * x - (a + c)) * (2 * x - (a + c)))
      by (apply Rmult_le_0_lt_compat; lra).
    lra. }
  lra.
Qed.

Lemma x_np_max_step (m x : R) (xs : list xreal) :
  np_max_from (Some m) (Some x :: xs) = np_max_from (Some (Rmax m x)) xs.
Proof.
  cbn [np_max_from]. rewrite x_isnan. cbn [ltb xreal_num xltb]. unfold Rmax.
  destruct (Rlt_dec m x), (Rle_dec m x); try reflexivity; try lra;
    replace x with m by lra; reflexivity.
Qed.

Lemma x_np_min_step (m x : R) (xs : list xreal) :
  np_min_from (Some m) (Some x :: xs) = np_min_from (Some (Rmin m x)) xs.
Proof.
  cbn [np_min_from]. rewrite x_isnan. cbn [ltb xreal_num xltb]. unfold Rmin.
  destruct (Rlt_dec x m), (Rle_dec m x); try reflexivity; try lra;
    replace x with m by lra; reflexivity.
Qed.

(** [np.min] and [np.max] of 7 speeds in ascending order *)
Lemma speeds_min_max (vx cs ca cf : R) :
  0 <= cs <= ca -> ca <= cf ->
  np_min [Some (vx - cf); Some (vx - ca); Some (vx - cs); Some vx;
          Some (vx + cs); Some (vx + ca); Some (vx + cf) : xreal] = Some (vx - cf)
  /\ np_max [Some (vx - cf); Some (vx - ca); Some (vx - cs); Some vx;
             Some (vx + cs); Some (vx + ca); Some (vx + cf) : xreal] = Some (vx + cf).
Proof.
  intros Hsa Haf. unfold np_min, np_max. rewrite !x_isnan. split.
  - repeat (rewrite x_np_min_step; rewrite Rmin_left by lra). reflexivity.
  - repeat (rewrite x_np_max_step; rewrite Rmax_right by lra). reflexivity.
Qed.

Variables idir idens ixmom iymom iener ixmag iymag irhoX : Z.

(** X9.  In exact arithmetic, for a finite state [u] of positive density
    and thermal energy at least 0, an adiabatic index between 1 and 2 and
    factors [X >= 0] and [Y >= 0], [calc_evals] returns 7 real speeds in
    ascending order, placed symmetrically about the velocity along the
    sweep: [vx - cf, vx - ca, vx - cs, vx, vx + cs, vx + ca, vx + cf] with
    [0 <= cs <= ca <= cf]; [np.min] and [np.max] of them are the first and
    the last. *)
Theorem calc_evals_ordered (V : vec xreal) (g X Y : R) (u : Z -> R) :
  vget V idens = Some (u idens) -> vget V ixmom = Some (u ixmom) ->
  vget V iymom = Some (u iymom) -> vget V iener = Some (u iener) ->
  vget V ixmag = Some (u ixmag) -> vget V iymag = Some (u iymag) ->
  0 < u idens -> 1 <= g <= 2 -> 0 <= X -> 0 <= Y ->
  0 <= thermal_energy idens ixmom iymom iener ixmag iymag u ->
  exists (ev : list xreal) (vx cs ca cf : R),
    calc_evals idir V (Some g) idens ixmom iymom iener ixmag iymag irhoX
      (Some X) (Some Y) = Ok ev
    /\ ev = [Some (vx - cf); Some (vx - ca); Some (vx - cs); Some vx;
             Some (vx + cs); Some (vx + ca); Some (vx + cf)]
    /\ vx = u (if (idir =? 1)%Z then ixmom else iymom) / u idens
    /\ 0 <= cs <= ca /\ ca <= cf
    /\ np_min ev = Some (vx - cf) /\ np_max ev = Some (vx + cf).
Proof.
  intros Hd Hm1 Hm2 He Hb1 Hb2 Hpos Hg HX HY Hth. unfold thermal_energy in Hth.
  destruct x_four_pi as [H4 H4pos].
  unfold calc_evals. rewrite Hd, Hm1, Hm2, He, Hb1, Hb2, H4.
  set (d := u idens) in *. set (m1 := u ixmom) in *. set (m2 := u iymom) in *.
  set (e := u iener) in *. set (b1 := u ixmag) in *. set (b2 := u iymag) in *.
  set (s := rsqrt (4 * PI)) in *. clearbody s.
  set (th := e - 1 / 2 * d * (m1 / d * (m1 / d) + m2 / d * (m2 / d))
             - 1 / 2 * (b1 / s * (b1 / s) + b2 / s * (b2 / s))) in *.
  assert (Hsq : forall b, 0 <= b / s * (b / s) / d).
  { intros b. apply Rmult_le_pos; [apply Rle_0_sqr | left; apply Rinv_0_lt_compat; lra]. }
  assert (Hcoef : 0 <= g - 1 - (g - 2) * Y).
  { assert (0 <= (2 - g) * Y) by (apply Rmult_le_pos; lra). lra. }
  assert (Hinv : 0 < / d) by (apply Rinv_0_lt_compat; lra).
  destruct (idir =? 1)%Z;
    repeat (cbn [add sub mul sq half two one four xreal_num xlift2];
            rewrite ?x_sdiv by lra; cbn [bind]);
    match goal with
    | |- context [@sqrt _ _ (Some ((?A + ?C) * (?A + ?C) - 4 * ?A * ?X0))] =>
        assert (HA : 0 <= A)
          by (replace A with (g * (g - 1) * th / d + (2 - g) * X)
                by (unfold th; field; lra);
              assert (0 <= g * (g - 1) * th / d)
                by (apply Rmult_le_pos;
                    [apply Rmult_le_pos; [apply Rmult_le_pos; lra | exact Hth] | lra]);
              assert (0 <= (2 - g) * X) by (apply Rmult_le_pos; lra);
              lra);
        assert (HX0 : 0 <= X0 <= C)
          by (split; [apply Hsq |];
              match goal with
              | |- _ <= _ + ?c * ?q / d =>
                  assert (0 <= c * q / d)
                    by (apply Rmult_le_pos;
                        [apply Rmult_le_pos; [exact Hcoef | apply Rle_0_sqr] | lra]);
                  lra
              end);
        set (a := A) in *; set (c := C) in *; set (x := X0) in *
    end;
    clearbody a c x;
    pose proof (wave_disc_root a c x HA HX0) as Hroot;
    pose proof (wave_speeds_between a c x HA HX0) as [Hslow Hfast];
    rewrite (x_sqrt _ (wave_disc_nonneg a c x HA HX0)); cbv iota beta;
    rewrite !x_sqrt by lra;
    (do 5 eexists; split; [reflexivity|]; split; [reflexivity|];
     split; [reflexivity|]);
    match goal with
    | |- 0 <= ?cs <= ?ca /\ ?ca <= ?cf /\ _ =>
        assert (Hord : 0 <= cs <= ca /\ ca <= cf)
          by (split; [split; [apply sqrt_pos | apply sqrt_le_1_alt; lra]
                     | apply sqrt_le_1_alt; lra]);
        destruct Hord as [Hsa Haf];
        split; [exact Hsa|]; split; [exact Haf|];
        apply speeds_min_max; assumption
    end.
Qed.

End SpeedsOrdered.

(** ** The Roe average and the flux blend *)

Section RoeFactors.
Local Open Scope R_scope.
Local Abbreviation rsqrt := R_sqrt.sqrt.

Variables idir idens ixmom iymom iener ixmag iymag irhoX nspec n : Z.
Variables (g : R) (ul ur : Z -> R) (bxf byf : R) (Ul Ur : vec xreal).

(** X10.  In exact arithmetic, for two finite states of positive density
    (a valid layout, an adiabatic index that is not zero) the loop body of
    [riemann_adiabatic] hands to [calc_evals] a Roe average of density
    [sqrt (rho_l * rho_r)] and two factors [X >= 0] and [Y >= 1]. *)
Theorem roe_average_factors :
  layout_ok n idens ixmom iymom iener ixmag iymag irhoX ->
  vlen Ul = n ->
  (forall k, vat Ul k = Some (ul k)) -> (forall k, vat Ur k = Some (ur k)) ->
  0 < ul idens -> 0 < ur idens -> g <> 0 ->
  exists lc (X Y : R),
    riemann_states idir idens ixmom iymom iener ixmag iymag irhoX nspec (Some g)
      Ul Ur (Some bxf) (Some byf) = Ok lc
    /\ vget (rl_U_av lc) idens = Some (rsqrt (ul idens * ur idens))
    /\ rl_X lc = Some X /\ rl_Y lc = Some Y
    /\ 0 <= X /\ 1 <= Y.
Proof.
  intros Hlay HlenU HUl HUr Hl Hr Hg.
  pose proof (layout_bounds _ _ _ _ _ _ _ _ Hlay) as Hb.
  destruct (riemann_exact_returns idir idens ixmom iymom iener ixmag iymag irhoX nspec
              n g ul ur bxf byf Ul Ur Hlay HlenU HUl HUr Hl Hr Hg) as [lc Hlc].
  assert (Hlay' : layout_ok (vlen Ul) idens ixmom iymom iener ixmag iymag irhoX)
    by (rewrite HlenU; exact Hlay).
  pose proof (riemann_roe_inv idir idens ixmom iymom iener ixmag iymag irhoX nspec
                (Some g) Ul Ur (Some bxf) (Some byf) Hlay' lc Hlc)
    as (R1 & _ & _ & _ & _ & _ & R7 & R8).
  destruct x_four_pi as [H4 H4pos].
  assert (Gl : forall k, (0 <= k)%Z -> vget Ul k = Some (ul k))
    by (intros k Hk; unfold vget; rewrite pyidx_nonneg by exact Hk; apply HUl).
  assert (Gr : forall k, (0 <= k)%Z -> vget Ur k = Some (ur k))
    by (intros k Hk; unfold vget; rewrite pyidx_nonneg by exact Hk; apply HUr).
  assert (Hsl : 0 < rsqrt (ul idens)) by (apply sqrt_lt_R0; exact Hl).
  assert (Hsr : 0 < rsqrt (ur idens)) by (apply sqrt_lt_R0; exact Hr).
  assert (Hprod : 0 < ul idens * ur idens) by (apply Rmult_lt_0_compat; assumption).
  assert (Hq : 0 < rsqrt (ul idens * ur idens)) by (apply sqrt_lt_R0; exact Hprod).
  rewrite !Gl, !Gr in R1 by lia. rewrite !Gl, !Gr in R8 by lia.
  rewrite (Gl idens), (Gr idens), H4 in R7 by lia.
  cbn [mul xreal_num xlift2] in R1. rewrite x_sqrt in R1 by lra.
  rewrite !(x_sqrt (ul idens)), !(x_sqrt (ur idens)) in R7 by lra.
  cbn [add mul half xreal_num xlift2] in R8.
  rewrite (x_sqrt (ul idens * ur idens)) in R8 by lra.
  rewrite x_div in R8 by lra.
  assert (Hs4 : rsqrt (4 * PI) <> 0) by lra.
  assert (Hsum : rsqrt (ul idens) + rsqrt (ur idens) <> 0) by lra.
  assert (HY : 1 <= 1 / 2 * (ul idens + ur idens) / rsqrt (ul idens * ur idens)).
  { rewrite sqrt_mult by lra.
    pose proof (sqrt_sqrt (ul idens) ltac:(lra)) as El.
    pose proof (sqrt_sqrt (ur idens) ltac:(lra)) as Er.
    set (a := rsqrt (ul idens)) in *. set (b := rsqrt (ur idens)) in *.
    rewrite <- El, <- Er.
    assert (Hab : 0 < a * b) by (apply Rmult_lt_0_compat; assumption).
    apply (Rmult_le_reg_r (a * b)); [exact Hab|].
    replace (1 / 2 * (a * a + b * b) / (a * b) * (a * b))
      with (1 / 2 * (a * a + b * b)) by (field; lra).
    pose proof (Rle_0_sqr (a - b)) as Hsq. unfold Rsqr in Hsq. lra. }
  exists lc.
  destruct (idir =? 1)%Z;
    rewrite ?Gl, ?Gr in R7 by lia;
    rewrite !(x_div _ _ Hs4) in R7;
    cbn [add sub mul sq half xreal_num xlift2] in R7;
    rewrite (x_div _ _ Hsum) in R7;
    (do 2 eexists; split; [exact Hlc|]; split; [exact R1|]; split; [exact R7|];
     split; [exact R8|]; split; [|exact HY]);
    (apply Rmult_le_pos; [|left; apply Rinv_0_lt_compat; lra]);
    (apply Rmult_le_pos; [lra | apply Rle_0_sqr]).
Qed.

End RoeFactors.

Section Upwind.
Local Open Scope R_scope.

(** X11.  In exact arithmetic, the blend of lines 310 and 311 is upwind
    when all signals move one way: for finite states and fluxes, if the
    lower bound [bm] is 0 and [bp] is not, the flux stored is the flux of
    the left state, and if the upper bound [bp] is 0 and [bm] is not, it
    is the flux of the right state. *)
Theorem riemann_flux_upwind (lc : riemann_locals) (Ul Ur : vec xreal)
    (ul ur fl fr : Z -> R) (bp bm : R) :
  (forall k, vat Ul k = Some (ul k)) -> (forall k, vat Ur k = Some (ur k)) ->
  (forall k, vat (rl_f_l lc) k = Some (fl k)) ->
  (forall k, vat (rl_f_r lc) k = Some (fr k)) ->
  rl_bp lc = Some bp -> rl_bm lc = Some bm ->
  (bm = 0 /\ bp <> 0) \/ (bp = 0 /\ bm <> 0) ->
  exists v,
    riemann_flux lc Ul Ur = Ok v
    /\ forall k, vat v k = if Req_dec_T bm 0 then vat (rl_f_l lc) k
                           else vat (rl_f_r lc) k.
Proof.
  intros HUl HUr Hfl Hfr Hbp Hbm Hcase.
  assert (Hgap : bp - bm <> 0) by (destruct Hcase as [[-> H1]|[-> H1]]; lra).
  unfold riemann_flux. rewrite Hbp, Hbm.
  cbn [sub mul xreal_num xlift2]. rewrite (x_sdiv _ _ Hgap). cbn [bind].
  eexists. split; [reflexivity|]. intros k. cbn [vat].
  rewrite Hfl, Hfr, HUl, HUr. cbn [add sub mul xreal_num xlift2].
  rewrite (x_div _ _ Hgap). cbn [add sub mul xreal_num xlift2].
  destruct (Req_dec_T bm 0) as [Hz|Hnz]; f_equal.
  - subst bm. field. lra.
  - destruct Hcase as [[Hz _]|[-> _]]; [contradiction|]. field. lra.
Qed.

End Upwind.

(** ** The interface states *)

Section EdgeStates.
Context {T : Type} `{Num T}.
Variables (idir ng : Z) (dx dt : T) (irho iu iv ip ibx iby ix nspec : Z).
Variables (gamma : T) (qv : arr3 T) (Bx By : arr2 T).

(** What the loop of [states] stores for the zone [(a, b)]: the left state
    of the next interface and the right state of its own. *)
Lemma states_edges (a b : Z) :
  3 <= ng -> ng - 3 <= a < len0 qv - ng + 3 -> ng - 3 <= b < len1 qv - ng + 3 ->
  let q := states idir ng dx dt irho iu iv ip ibx iby ix nspec gamma qv Bx By in
  (forall c, at3 (fst q) (if idir =? 1 then a + 1 else a) (if idir =? 1 then b else b + 1) c
             = vat (edge_plus qv (states_dq idir ibx iby qv) a b) c)
  /\ (forall c, at3 (snd q) a b c = vat (edge_minus qv (states_dq idir ibx iby qv) a b) c).
Proof.
  intros Hng Ha Hb q. unfold q, states.
  apply (loop2_sets _ _ (fun a b => 0 <= a /\ 0 <= b)
           (fun a b (s : arr3 T * arr3 T) =>
              (forall c, at3 (fst s) (if idir =? 1 then a + 1 else a)
                             (if idir =? 1 then b else b + 1) c
                         = vat (edge_plus qv (states_dq idir ibx iby qv) a b) c)
              /\ (forall c, at3 (snd s) a b c
                            = vat (edge_minus qv (states_dq idir ibx iby qv) a b) c))).
  - intros a' b' [ql qr] [Ha' Hb']. cbn [fst snd].
    destruct (idir =? 1); cbn [fst snd]; unfold set_row3; cbn [at3];
      rewrite !pyidx_nonneg by lia; rewrite !Z.eqb_refl; cbn [andb];
      split; intros c; reflexivity.
  - intros a1 b1 a' b' [ql qr] [Ha' Hb'] Hne [H1 H2]. cbn [fst snd] in *.
    destruct (idir =? 1); cbn [fst snd]; unfold set_row3; cbn [at3];
      rewrite !pyidx_nonneg by lia;
      split; intros c;
      repeat match goal with
             | |- context [(?x =? ?y)] => destruct (Z.eqb_spec x y); cbn [andb]
             end;
      try apply H1; try apply H2; exfalso; apply Hne; f_equal; lia.
  - intros x y Hx Hy. apply in_range in Hx, Hy. lia.
  - left. rewrite !in_range. lia.
Qed.

End EdgeStates.

Section EdgeStatesExact.
Local Open Scope R_scope.
Variables (idir ng : Z) (dx dt : xreal) (irho iu iv ip ibx iby ix nspec : Z).
Variables (gamma : xreal) (qx qy nvar : Z) (f : Z -> Z -> Z -> R) (Bx By : arr2 xreal).

(** The field of finite values [f], and its neighbours along the sweep *)
Let qv : arr3 xreal := fin3 qx qy nvar f.
Let before (i j k : Z) : R := if (idir =? 1)%Z then f (i - 1)%Z j k else f i (j - 1)%Z k.
Let after (i j k : Z) : R := if (idir =? 1)%Z then f (i + 1)%Z j k else f i (j + 1)%Z k.

(** The slope of an inner zone *)
Lemma states_dq_inner (i j k : Z) :
  (if (idir =? 1)%Z then 1 <= i < qx - 1 else 1 <= j < qy - 1)%Z ->
  at3 (states_dq idir ibx iby qv) i j k
  = if (k =? pyidx nvar (if (idir =? 1)%Z then ibx else iby))%Z
    then Some 0
    else limited_slope (Some (f i j k - before i j k) : xreal)
                       (Some (after i j k - f i j k))
                       (Some (1 / 2 * (after i j k - before i j k))).
Proof.
  intros Hin. unfold states_dq, qv, before, after. destruct (idir =? 1)%Z;
    unfold set_plane, set_slab0, set_slab1, zeros_like3, fin3;
    cbn [at3 shape3 len0 len1 len2 fst snd];
    rewrite !in_slice_inner;
    [ replace ((1 <=? i)%Z && (i <? qx - 1)%Z) with true
        by (symmetry; apply andb_true_iff; split; [apply Z.leb_le | apply Z.ltb_lt]; lia)
    | replace ((1 <=? j)%Z && (j <? qy - 1)%Z) with true
        by (symmetry; apply andb_true_iff; split; [apply Z.leb_le | apply Z.ltb_lt]; lia) ];
    reflexivity.
Qed.

(** The two states that the loop stores for the zone [(i, j)], from its
    slope [s] *)
Lemma states_edges_exact (i j k : Z) :
  (4 <= ng)%Z -> (ng - 3 <= i < qx - ng + 3)%Z -> (ng - 3 <= j < qy - ng + 3)%Z ->
  (0 <= k < nvar)%Z ->
  let q := states idir ng dx dt irho iu iv ip ibx iby ix nspec gamma qv Bx By in
  exists s : R,
    at3 (states_dq idir ibx iby qv) i j k = Some s
    /\ get3 (states_dq idir ibx iby qv) i j k = Some s
    /\ get3 (fst q) (if (idir =? 1)%Z then i + 1 else i)%Z
                    (if (idir =? 1)%Z then j else j + 1)%Z k = Some (f i j k + s / 2)
    /\ get3 (snd q) i j k = Some (f i j k - s / 2).
Proof.
  intros Hng Hi Hj Hk q.
  destruct (states_edges idir ng dx dt irho iu iv ip ibx iby ix nspec gamma qv Bx By i j)
    as [Hl Hr]; try (cbn [qv fin3 len0 len1 shape3 fst snd]; lia).
  fold q in Hl, Hr.
  assert (Hs : exists s, at3 (states_dq idir ibx iby qv) i j k = Some s).
  { rewrite states_dq_inner by (destruct (idir =? 1)%Z; lia).
    destruct (k =? _)%Z; [exists 0; reflexivity|].
    rewrite x_limited_slope. eexists. reflexivity. }
  destruct Hs as [s Hs].
  assert (Hshape : shape3 (states_dq idir ibx iby qv) = (qx, qy, nvar))
    by (unfold states_dq; destruct (idir =? 1)%Z; reflexivity).
  assert (Hql : shape3 (fst q) = (qx, qy, nvar)).
  { unfold q, states.
    apply (for_pure_inv _ _ (fun s : arr3 xreal * arr3 xreal =>
                               shape3 (fst s) = (qx, qy, nvar)));
      [|reflexivity].
    intros x s0 _ Hs0.
    apply (for_pure_inv _ _ (fun s : arr3 xreal * arr3 xreal =>
                               shape3 (fst s) = (qx, qy, nvar)));
      [|exact Hs0].
    intros y [ql qr] _ Hq. destruct (idir =? 1)%Z; exact Hq. }
  assert (Hqr : shape3 (snd q) = (qx, qy, nvar)).
  { unfold q, states.
    apply (for_pure_inv _ _ (fun s : arr3 xreal * arr3 xreal =>
                               shape3 (snd s) = (qx, qy, nvar)));
      [|reflexivity].
    intros x s0 _ Hs0.
    apply (for_pure_inv _ _ (fun s : arr3 xreal * arr3 xreal =>
                               shape3 (snd s) = (qx, qy, nvar)));
      [|exact Hs0].
    intros y [ql qr] _ Hq. destruct (idir =? 1)%Z; exact Hq. }
  exists s. split; [exact Hs|].
  unfold get3, len0, len1, len2. rewrite Hql, Hqr, Hshape. cbn [fst snd].
  rewrite !pyidx_nonneg by (destruct (idir =? 1)%Z; lia).
  rewrite Hl, Hr, Hs.
  unfold edge_plus, edge_minus, row3. cbn [vat].
  unfold len0, len1. rewrite Hshape. cbn [qv fin3 shape3 at3 fst snd].
  rewrite !pyidx_nonneg by lia. rewrite Hs.
  cbn [add sub mul half xreal_num xlift2].
  repeat split; f_equal; lra.
Qed.

(** X12.  In exact arithmetic, for a finite field and a zone [(i, j)] of
    the range that [states] sweeps (with [ng >= 4] ghost cells): the left
    state of the next interface and the right state of the zone's own
    interface are the value of the zone plus and minus half the limited
    slope, so their mean is the value of the zone and their difference is
    the slope. *)
Theorem states_edges_about_cell_value (i j k : Z) :
  (4 <= ng)%Z -> (ng - 3 <= i < qx - ng + 3)%Z -> (ng - 3 <= j < qy - ng + 3)%Z ->
  (0 <= k < nvar)%Z ->
  let q := states idir ng dx dt irho iu iv ip ibx iby ix nspec gamma qv Bx By in
  exists l r s : R,
    get3 (fst q) (if (idir =? 1)%Z then i + 1 else i)%Z
                 (if (idir =? 1)%Z then j else j + 1)%Z k = Some l
    /\ get3 (snd q) i j k = Some r
    /\ get3 (states_dq idir ibx iby qv) i j k = Some s
    /\ l = f i j k + s / 2 /\ r = f i j k - s / 2
    /\ (l + r) / 2 = f i j k /\ l - r = s.
Proof.
  intros Hng Hi Hj Hk q.
  destruct (states_edges_exact i j k Hng Hi Hj Hk) as [s [_ [Hs [Hl Hr]]]].
  exists (f i j k + s / 2), (f i j k - s / 2), s.
  split; [exact Hl|]. split; [exact Hr|]. split; [exact Hs|].
  repeat split; lra.
Qed.

(** X13.  In exact arithmetic, [states] does not reconstruct the field
    along the sweep ([ibx] for [idir = 1], [iby] otherwise): in every zone
    of the swept range both interface states hold the value of the zone
    in that slot. *)
Theorem states_normal_field_copied (i j : Z) :
  (4 <= ng)%Z -> (ng - 3 <= i < qx - ng + 3)%Z -> (ng - 3 <= j < qy - ng + 3)%Z ->
  (0 <= (if (idir =? 1)%Z then ibx else iby) < nvar)%Z ->
  let q := states idir ng dx dt irho iu iv ip ibx iby ix nspec gamma qv Bx By in
  let kn := if (idir =? 1)%Z then ibx else iby in
  get3 (fst q) (if (idir =? 1)%Z then i + 1 else i)%Z
               (if (idir =? 1)%Z then j else j + 1)%Z kn = Some (f i j kn)
  /\ get3 (snd q) i j kn = Some (f i j kn).
Proof.
  intros Hng Hi Hj Hk q kn.
  destruct (states_edges_exact i j kn Hng Hi Hj Hk) as [s [Hat [_ [Hl Hr]]]].
  rewrite states_dq_inner in Hat by (destruct (idir =? 1)%Z; lia).
  fold kn in Hat. rewrite (pyidx_nonneg nvar kn) in Hat by (unfold kn; lia).
  rewrite Z.eqb_refl in Hat. injection Hat as <-.
  unfold q. rewrite Hl, Hr. split; f_equal; lra.
Qed.

(** X14.  In exact arithmetic, the limiter of [states] does not flatten a
    local maximum whose two neighbours differ: where the value [b] of a
    zone exceeds the value [c] of the next zone, and [c] exceeds the value
    [a] of the zone before (in a slot other than the field along the
    sweep), the limited slope [s] of the zone is positive, and the left
    state of the next interface, [b + s / 2], is greater than [a], [b] and
    [c]. *)
Theorem states_overshoots_local_maximum (i j k : Z) :
  (4 <= ng)%Z -> (ng - 3 <= i < qx - ng + 3)%Z -> (ng - 3 <= j < qy - ng + 3)%Z ->
  (0 <= k < nvar)%Z -> k <> pyidx nvar (if (idir =? 1)%Z then ibx else iby) ->
  before i j k < after i j k -> after i j k < f i j k ->
  let q := states idir ng dx dt irho iu iv ip ibx iby ix nspec gamma qv Bx By in
  exists s l : R,
    get3 (states_dq idir ibx iby qv) i j k = Some s
    /\ 0 < s
    /\ get3 (fst q) (if (idir =? 1)%Z then i + 1 else i)%Z
                    (if (idir =? 1)%Z then j else j + 1)%Z k = Some l
    /\ l = f i j k + s / 2
    /\ before i j k < l /\ f i j k < l /\ after i j k < l.
Proof.
  intros Hng Hi Hj Hk Hkn Hac Hcb q.
  destruct (states_edges_exact i j k Hng Hi Hj Hk) as [s [Hat [Hdq [Hl _]]]].
  rewrite states_dq_inner in Hat by (destruct (idir =? 1)%Z; lia).
  destruct (Z.eqb_spec k (pyidx nvar (if (idir =? 1)%Z then ibx else iby)))
    as [Heq|_]; [contradiction|].
  rewrite x_limited_slope in Hat. injection Hat as Hs.
  pose proof (limited_slope_facts (f i j k - before i j k) (after i j k - f i j k)
                (1 / 2 * (after i j k - before i j k))) as Hfacts.
  cbv zeta in Hfacts. rewrite Hs in Hfacts. destruct Hfacts as [_ [Hsign Hnz]].
  assert (Hpos : 0 < s).
  { assert (s <> 0) by (apply Hnz; lra).
    destruct Hsign as [H0|[[H1 _]|[_ H2]]]; [contradiction | exact H1 | lra]. }
  exists s, (f i j k + s / 2). split; [exact Hdq|]. split; [exact Hpos|].
  split; [exact Hl|]. repeat split; lra.
Qed.

End EdgeStatesExact.

(** ** The corner EMF *)

Section LoopProgress.
Variables (A S : Type) (I : S -> Prop).

Lemma for_each_ok (body : A -> S -> result S) (xs : list A) :
  (forall x s, In x xs -> I s -> exists s1, body x s = Ok s1 /\ I s1) ->
  forall s, I s -> exists s', for_each xs body s = Ok s' /\ I s'.
Proof.
  induction xs as [|x xs IH]; intros Hbody s Hs; cbn [for_each].
  - exists s. split; [reflexivity | exact Hs].
  - destruct (Hbody x s (or_introl eq_refl) Hs) as [s1 [-> Hs1]]. cbn [bind].
    apply IH; [|exact Hs1]. intros y t Hy. apply Hbody. right. exact Hy.
Qed.

End LoopProgress.

Section UniformEMF.
Local Open Scope R_scope.
Variables (ng idens ixmom iymom iener ixmag iymag irhoX : Z).
Variables (dx dy e : R) (U Fx Fy : arr3 xreal) (Eref : arr2 xreal) (use_ref : bool).
Variables Er Ex Ey : arr2 xreal.

Lemma x_upwind_zero (r : xreal) : upwind r (Some 0) (Some 0) = Some 0.
Proof.
  unfold upwind. destruct (ltb zero r); [reflexivity|].
  destruct (ltb r zero); [reflexivity|].
  cbn [add mul half xreal_num xlift2]. f_equal. lra.
Qed.

(** X15.  In exact arithmetic, [emf] keeps a uniform field: when the
    reference EMF and the two edge EMFs that it starts from hold the same
    number [e] everywhere, and [dx] and [dy] are not zero, it returns a
    corner EMF that is [e] at every corner of the computed range (for
    [ng >= 3]). *)
Theorem emf_uniform_edges :
  emf_edges idens ixmom iymom ixmag iymag U Fx Fy Eref use_ref = Ok (Er, Ex, Ey) ->
  (forall a b, at2 Er a b = Some e) ->
  (forall a b, at2 Ex a b = Some e) ->
  (forall a b, at2 Ey a b = Some e) ->
  dx <> 0 -> dy <> 0 -> (3 <= ng)%Z ->
  exists Ec,
    emf ng idens ixmom iymom iener ixmag iymag irhoX (Some dx) (Some dy)
      U Fx Fy Eref use_ref = Ok Ec
    /\ forall i j, (ng - 2 <= i < len0 U - ng + 2)%Z ->
                   (ng - 2 <= j < len1 U - ng + 2)%Z ->
                   get2 Ec i j = Some e.
Proof.
  intros Hedges HEr HEx HEy Hdx Hdy Hng.
  unfold emf. cbv zeta. rewrite Hedges. cbn [bind]. cbv beta iota.
  set (I := fun d : arr2 xreal * arr2 xreal * arr2 xreal * arr2 xreal =>
              let '(d1, d2, d3, d4) := d in
              (forall a b, at2 d1 a b = Some 0) /\ (forall a b, at2 d2 a b = Some 0)
              /\ (forall a b, at2 d3 a b = Some 0) /\ (forall a b, at2 d4 a b = Some 0)).
  assert (Hset : forall (d : arr2 xreal) i j (x : R),
            (forall a b, at2 d a b = Some 0) -> x = 0 ->
            forall a b, at2 (set2 d i j (Some x)) a b = Some 0).
  { intros d i j x Hd -> a b. unfold set2. cbn [at2].
    destruct (_ && _)%bool; [reflexivity | apply Hd]. }
  match goal with
  | |- exists Ec, bind (for_each ?xs ?body ?s0) _ = _ /\ _ =>
      destruct (for_each_ok _ _ I body xs) with (s := s0) as [d [Hd HId]]
  end.
  - intros x s Hx Hs. apply for_each_ok; [|exact Hs].
    intros y [[[d1 d2] d3] d4] Hy (H1 & H2 & H3 & H4).
    unfold get2. rewrite !HEr, !HEx, !HEy.
    cbn [sub mul two xreal_num xlift2]. rewrite !x_sdiv by assumption. cbn [bind].
    eexists. split; [reflexivity|].
    repeat split; apply Hset; try assumption; unfold Rdiv; lra.
  - repeat split; reflexivity.
  - rewrite Hd. cbn [bind]. destruct d as [[[d1 d2] d3] d4].
    destruct HId as (H1 & H2 & H3 & H4).
    eexists. split; [reflexivity|]. intros i j Hi Hj.
    assert (Hat : forall Ec0 : arr2 xreal,
              at2 (for_pure (range (ng - 2) (ng + (len0 U - 2 * ng) + 2))
                     (fun i Ec =>
                        for_pure (range (ng - 2) (ng + (len1 U - 2 * ng) + 2))
                          (fun j Ec =>
                             set2 Ec i j
                               (add (add (mul quarter
                                            (add (add (add (get2 Ex i j)
                                                           (get2 Ex i (j + 1)%Z))
                                                      (get2 Ey i j))
                                                 (get2 Ey (i + 1)%Z j)))
                                         (mul (mul eighth (Some dy))
                                              (sub (upwind (get3 Fx i j idens)
                                                           (get2 d1 (i - 1)%Z j) (get2 d1 i j))
                                                   (upwind (get3 Fx i (j - 1)%Z idens)
                                                           (get2 d3 (i - 1)%Z j) (get2 d3 i j)))))
                                    (mul (mul eighth (Some dx))
                                         (sub (upwind (get3 Fy i j idens)
                                                      (get2 d2 i (j - 1)%Z) (get2 d2 i j))
                                              (upwind (get3 Fy (i - 1)%Z j idens)
                                                      (get2 d4 i (j - 1)%Z) (get2 d4 i j))))))
                          Ec) Ec0) i j = Some e).
    { intros Ec0.
      apply (loop2_sets _ _ (fun a b => (0 <= a /\ 0 <= b)%Z)
               (fun a b (Ec : arr2 xreal) => at2 Ec a b = Some e)).
      - intros a b s [Ha Hb]. unfold set2, get2. cbn [at2].
        rewrite !H1, !H2, !H3, !H4, !HEx, !HEy, !x_upwind_zero.
        rewrite !(pyidx_nonneg _ a), !(pyidx_nonneg _ b) by lia.
        rewrite !Z.eqb_refl. cbn [andb add sub mul quarter eighth xreal_num xlift2].
        f_equal. lra.
      - intros a b a' b' s [Ha' Hb'] Hne Hs. unfold set2. cbn [at2].
        rewrite !(pyidx_nonneg _ a'), !(pyidx_nonneg _ b') by lia.
        destruct (Z.eqb_spec a a') as [->|_]; [|exact Hs].
        destruct (Z.eqb_spec b b') as [->|_]; [congruence | exact Hs].
      - intros x y Hx Hy. apply in_range in Hx, Hy. lia.
      - left. rewrite !in_range. lia. }
    unfold get2.
    match goal with
    | |- at2 ?E (pyidx (fst (shape2 ?E)) i) (pyidx (snd (shape2 ?E)) j) = _ =>
        rewrite !pyidx_nonneg by lia
    end.
    apply Hat.
Qed.

End UniformEMF.

Section ZeroSpacing.
Context {T : Type} `{Num T}.
Variables (ng idens ixmom iymom iener ixmag iymag irhoX : Z).
Variables (dx dy : T) (U Fx Fy : arr3 T) (Eref : arr2 T) (use_ref : bool).

Lemma range_first (a b : Z) : a < b -> In a (range a b).
Proof. intros Hab. apply in_range. lia. Qed.

(** X16.  When the arrays of the edges can be built and the loop over the
    zones is not empty, [emf] raises [ZeroDivisionError] for a cell spacing
    [dx] or [dy] that compares equal to zero. *)
Theorem emf_zero_spacing_raises (edges : arr2 T * arr2 T * arr2 T) :
  emf_edges idens ixmom iymom ixmag iymag U Fx Fy Eref use_ref = Ok edges ->
  2 * ng < len0 U + 6 -> 2 * ng < len1 U + 6 ->
  eqb dx zero = true \/ eqb dy zero = true ->
  emf ng idens ixmom iymom iener ixmag iymag irhoX dx dy U Fx Fy Eref use_ref
  = Raise ZeroDivisionError.
Proof.
  intros Hedges Hx Hy Hz. unfold emf. cbv zeta. rewrite Hedges. cbn [bind].
  destruct edges as [[Er Ex] Ey]. cbv beta iota.
  match goal with
  | |- bind (for_each ?xs ?body ?s0) _ = _ =>
      assert (Hloop : for_each xs body s0 = Raise ZeroDivisionError)
  end.
  - assert (Hbody : forall i j (d : arr2 T * arr2 T * arr2 T * arr2 T),
              only_zde
                (let '(dEdy_14, dEdx_14, dEdy_34, dEdx_34) := d in
                 y14 <- sdiv (mul two (sub (get2 Er i j) (get2 Ey i j))) dy ;;
                 x14 <- sdiv (mul two (sub (get2 Er i j) (get2 Ex i j))) dx ;;
                 y34 <- sdiv (mul two (sub (get2 Ey i j) (get2 Er i (j - 1)))) dy ;;
                 x34 <- sdiv (mul two (sub (get2 Ex i j) (get2 Er (i - 1) j))) dx ;;
                 Ok (set2 dEdy_14 i j y14, set2 dEdx_14 i j x14,
                     set2 dEdy_34 i j y34, set2 dEdx_34 i j x34))).
    { intros i j [[[d1 d2] d3] d4].
      repeat (apply only_zde_bind; [apply only_zde_sdiv | intros ?]).
      apply only_zde_ok. }
    apply (for_each_raises _ _ _ _ (ng - 3)).
    + apply range_first. lia.
    + intros x s. apply for_each_only_zde. intros y d. apply Hbody.
    + intros s. apply (for_each_raises _ _ _ _ (ng - 3)).
      * apply range_first. lia.
      * intros y d. apply Hbody.
      * intros [[[d1 d2] d3] d4].
        destruct (eqb dy zero) eqn:Hdy.
        -- rewrite (sdiv_raises _ _ Hdy). reflexivity.
        -- destruct Hz as [Hdx|Hdy']; [|discriminate].
           rewrite (sdiv_ok _ _ Hdy). cbn [bind].
           rewrite (sdiv_raises _ _ Hdx). reflexivity.
  - rewrite Hloop. reflexivity.
Qed.

End ZeroSpacing.

(** ** The source term *)

Section SourcesRange.
Context {T : Type} `{Num T}.

(** X17.  [sources] does not depend on the ghost width [ng]: its loops run
    over all zones but the outermost layer, whatever [ng] is. *)
Theorem sources_ignores_ghost_width (idir ng ng' : Z)
    (idens ixmom iymom iener ixmag iymag irhoX : Z) (dx : T) (U Ux : arr3 T) :
  sources idir ng idens ixmom iymom iener ixmag iymag irhoX dx U Ux
  = sources idir ng' idens ixmom iymom iener ixmag iymag irhoX dx U Ux.
Proof.
  unfold sources. cbv zeta.
  replace (ng - ng + 1) with (ng' - ng' + 1) by lia.
  replace (ng + (len0 U - 2 * ng) + ng - 1) with (ng' + (len0 U - 2 * ng') + ng' - 1)
    by lia.
  replace (ng + (len1 U - 2 * ng) + ng - 1) with (ng' + (len1 U - 2 * ng') + ng' - 1)
    by lia.
  reflexivity.
Qed.

End SourcesRange.

(** ** The further properties on sample inputs *)

(** The state of [Sample.U_a]: [sqrt (4 pi)] is not zero in floats. *)
Lemma calc_evals_fails_on_zero_density_only_sample :
  (eqb (vget (row3 Sample.U_a 1 1) 0) zero = true
   /\ calc_evals 1 (row3 Sample.U_a 1 1) 2%float 0 1 2 3 4 5 6 0%float 1%float
      = Raise ZeroDivisionError)
  \/ (eqb (vget (row3 Sample.U_a 1 1) 0) zero = false
      /\ exists ev,
           calc_evals 1 (row3 Sample.U_a 1 1) 2%float 0 1 2 3 4 5 6 0%float 1%float
           = Ok ev
           /\ length ev = 7%nat).
Proof.
  apply (calc_evals_fails_on_zero_density_only 1 0 1 2 3 4 5 6 2%float
           (row3 Sample.U_a 1 1) 0%float 1%float).
  vm_compute. reflexivity.
Defined.

(** A grid whose every zone has the density 0, with 2 ghost cells. *)
Lemma riemann_adiabatic_zero_density_raises_sample :
  riemann_adiabatic 1 2 0 1 2 3 4 5 6 0 0 0 2%float
    Cases.U_void Cases.U_void Sample.B_zero Sample.B_zero = Raise ZeroDivisionError.
Proof.
  apply (riemann_adiabatic_zero_density_raises 1 2 0 1 2 3 4 5 6 0 0 0 2%float
           Cases.U_void Cases.U_void Sample.B_zero Sample.B_zero 1 1);
    [cbn; lia | cbn; lia | left; vm_compute; reflexivity].
Defined.

(** The moving gas on 7 by 7 zones with 3 ghost cells: the outermost layer
    of the flux array is zero. *)
Lemma riemann_adiabatic_writes_computed_range_only_sample :
  exists F,
    riemann_adiabatic 1 3 0 1 2 3 4 5 6 0 0 0 2%float
      Cases.U_flow7 Cases.U_flow7 Cases.B_zero7 Cases.B_zero7 = Ok F
    /\ shape3 F = shape3 Cases.U_flow7
    /\ forall a b k,
         0 <= a < len0 Cases.U_flow7 -> 0 <= b < len1 Cases.U_flow7 ->
         a < 3 - 2 \/ len0 Cases.U_flow7 - 3 + 2 <= a
         \/ b < 3 - 2 \/ len1 Cases.U_flow7 - 3 + 2 <= b ->
         get3 F a b k = zero.
Proof.
  eexists. split; [vm_compute; reflexivity|].
  apply (riemann_adiabatic_writes_computed_range_only 0 1 2 3 4 5 6 1 3 0 0 0 2%float
           Cases.U_flow7 Cases.U_flow7 Cases.B_zero7 Cases.B_zero7);
    [lia | vm_compute; reflexivity].
Defined.

(** The density slot of the zone (1, 1) of a grid of 3 by 3 zones. *)
Lemma sources_writes_momenta_only_sample :
  shape3 (sources 1 1 0 1 2 3 4 5 6 1%float Sample.U_c Sample.Ux_c)
  = (len0 Sample.U_c, len1 Sample.U_c, len2 Sample.U_c)
  /\ get3 (sources 1 1 0 1 2 3 4 5 6 1%float Sample.U_c Sample.Ux_c) 1 1 0 = zero.
Proof.
  apply (sources_writes_momenta_only 0 1 2 3 4 5 6 1 1 1%float Sample.U_c Sample.Ux_c
           1 1 0); cbn; lia.
Defined.

Lemma layout_ok_species : layout_ok 8 0 1 2 3 4 5 6.
Proof.
  unfold layout_ok. split; [|split; [|split; [reflexivity | lia]]].
  - repeat constructor; cbn; intuition lia.
  - repeat constructor; lia.
Qed.

(** The second species of the moving gas with two species *)
Lemma consFlux_species_advected_sample :
  exists F,
    consFlux 1 2%float 0 1 2 3 4 5 6 2 Cases.U_species = Ok F
    /\ vget F 7
       = if 7 <? 6 + 2
         then mul (vget Cases.U_species 7)
                  (div (vget Cases.U_species 1) (vget Cases.U_species 0))
         else zero.
Proof.
  eexists. split; [vm_compute; reflexivity|].
  apply (consFlux_species_advected 0 1 2 3 4 5 6 1 2%float 2 Cases.U_species);
    [exact layout_ok_species | vm_compute; reflexivity | cbn; lia].
Defined.

(** The moving gas: its mass flux along x is its x-momentum 1. *)
Lemma consFlux_mass_flux_is_momentum_sample :
  exists F,
    consFlux 1 (Some 2%R) 0 1 2 3 4 5 6 0 (vfin 6 Sample.flow) = Ok F
    /\ vget F 0 = Some 1%R.
Proof.
  apply (consFlux_mass_flux_is_momentum 0 1 2 3 4 5 6 1 (Some 2%R) 0
           (vfin 6 Sample.flow) 1%R 1%R);
    [exact layout_ok_sample | reflexivity | lra | reflexivity].
Defined.

(** The moving gas, along y and along x with the slots exchanged *)
Lemma consFlux_xy_symmetry_sample :
  match consFlux 2 (Some 2%R) 0 1 2 3 4 5 6 0 (vfin 6 Sample.flow),
        consFlux 1 (Some 2%R) 0 2 1 3 5 4 6 0 (vfin 6 Sample.flow) with
  | Ok Fy, Ok Fx => forall k, vat Fy k = vat Fx k
  | Raise ey, Raise ex => ey = ex
  | _, _ => False
  end.
Proof.
  apply (consFlux_xy_symmetry 0 1 2 3 4 5 6 (Some 2%R) 0 (vfin 6 Sample.flow)).
  exact layout_ok_sample.
Defined.

(** The speeds of the moving gas for gamma = 2, X = 0 and Y = 1 *)
Lemma calc_evals_ordered_sample :
  exists (ev : list xreal) (vx cs ca cf : R),
    calc_evals 1 (vfin 6 Sample.flow) (Some 2%R) 0 1 2 3 4 5 6 (Some 0%R) (Some 1%R)
    = Ok ev
    /\ ev = [Some (vx - cf); Some (vx - ca); Some (vx - cs); Some vx;
             Some (vx + cs); Some (vx + ca); Some (vx + cf)]%R
    /\ vx = (Sample.flow 1 / Sample.flow 0)%R
    /\ (0 <= cs <= ca)%R /\ (ca <= cf)%R
    /\ np_min ev = Some (vx - cf)%R /\ np_max ev = Some (vx + cf)%R.
Proof.
  apply (calc_evals_ordered 1 0 1 2 3 4 5 6 (vfin 6 Sample.flow) 2%R 0%R 1%R Sample.flow);
    try reflexivity; try exact thermal_energy_flow;
    try (unfold Sample.flow; cbn; lra); lra.
Defined.

(** The two cold streams of [Sample] *)
Lemma roe_average_factors_sample :
  exists lc (X Y : R),
    riemann_states 1 0 1 2 3 4 5 6 0 (Some 2%R) (vfin 6 Sample.cold_l)
      (vfin 6 Sample.cold_r) (Some 0%R) (Some 0%R) = Ok lc
    /\ vget (rl_U_av lc) 0 = Some (R_sqrt.sqrt (Sample.cold_l 0 * Sample.cold_r 0))
    /\ rl_X lc = Some X /\ rl_Y lc = Some Y
    /\ (0 <= X)%R /\ (1 <= Y)%R.
Proof.
  apply (roe_average_factors 1 0 1 2 3 4 5 6 0 6 2%R Sample.cold_l Sample.cold_r 0%R 0%R);
    try exact layout_ok_sample; try reflexivity;
    unfold Sample.cold_l, Sample.cold_r; cbn; lra.
Defined.

(** Signals that all move to the right: the blend is the left flux. *)
Lemma riemann_flux_upwind_sample :
  exists v,
    riemann_flux Cases.lc_right (vfin 6 Sample.cold_l) (vfin 6 Sample.cold_r) = Ok v
    /\ forall k, vat v k = if Req_dec_T 0 0 then vat (rl_f_l Cases.lc_right) k
                           else vat (rl_f_r Cases.lc_right) k.
Proof.
  apply (riemann_flux_upwind Cases.lc_right (vfin 6 Sample.cold_l) (vfin 6 Sample.cold_r)
           Sample.cold_l Sample.cold_r (fun k => IZR k) (fun _ => 0%R) 1%R 0%R);
    try reflexivity.
  left. split; lra.
Defined.

(** The zone (4, 4) of the field [Cases.hill] on 9 by 9 zones with 4 ghost
    cells, in the slot 1 *)
Lemma states_edges_about_cell_value_sample :
  let qv := fin3 9 9 6 Cases.hill in
  let q := states 1 4 (Some 1%R) (Some 1%R) 0 1 2 3 4 5 6 0 (Some 2%R) qv
             (fin2 9 9 (fun _ _ => 0%R)) (fin2 9 9 (fun _ _ => 0%R)) in
  exists l r s : R,
    get3 (fst q) (4 + 1) 4 1 = Some l
    /\ get3 (snd q) 4 4 1 = Some r
    /\ get3 (states_dq 1 4 5 qv) 4 4 1 = Some s
    /\ l = (Cases.hill 4 4 1 + s / 2)%R /\ r = (Cases.hill 4 4 1 - s / 2)%R
    /\ ((l + r) / 2)%R = Cases.hill 4 4 1 /\ (l - r)%R = s.
Proof.
  apply (states_edges_about_cell_value 1 4 (Some 1%R) (Some 1%R) 0 1 2 3 4 5 6 0
           (Some 2%R) 9 9 6 Cases.hill (fin2 9 9 (fun _ _ => 0%R))
           (fin2 9 9 (fun _ _ => 0%R)) 4 4 1); lia.
Defined.

(** The same zone, in the slot 4 of the field along x *)
Lemma states_normal_field_copied_sample :
  let qv := fin3 9 9 6 Cases.hill in
  let q := states 1 4 (Some 1%R) (Some 1%R) 0 1 2 3 4 5 6 0 (Some 2%R) qv
             (fin2 9 9 (fun _ _ => 0%R)) (fin2 9 9 (fun _ _ => 0%R)) in
  get3 (fst q) (4 + 1) 4 4 = Some (Cases.hill 4 4 4)
  /\ get3 (snd q) 4 4 4 = Some (Cases.hill 4 4 4).
Proof.
  apply (states_normal_field_copied 1 4 (Some 1%R) (Some 1%R) 0 1 2 3 4 5 6 0
           (Some 2%R) 9 9 6 Cases.hill (fin2 9 9 (fun _ _ => 0%R))
           (fin2 9 9 (fun _ _ => 0%R)) 4 4); cbn; lia.
Defined.

(** The maximum of [Cases.hill]: the values -16, -1, -4 in the zones 3, 4
    and 5, a positive slope in the zone 4 and a left state above -1 at the
    interface of the zones 4 and 5 *)
Lemma states_overshoots_local_maximum_sample :
  let qv := fin3 9 9 6 Cases.hill in
  let q := states 1 4 (Some 1%R) (Some 1%R) 0 1 2 3 4 5 6 0 (Some 2%R) qv
             (fin2 9 9 (fun _ _ => 0%R)) (fin2 9 9 (fun _ _ => 0%R)) in
  exists s l : R,
    get3 (states_dq 1 4 5 qv) 4 4 1 = Some s
    /\ (0 < s)%R
    /\ get3 (fst q) (4 + 1) 4 1 = Some l
    /\ l = (Cases.hill 4 4 1 + s / 2)%R
    /\ (Cases.hill (4 - 1) 4 1 < l)%R /\ (Cases.hill 4 4 1 < l)%R
    /\ (Cases.hill (4 + 1) 4 1 < l)%R.
Proof.
  apply (states_overshoots_local_maximum 1 4 (Some 1%R) (Some 1%R) 0 1 2 3 4 5 6 0
           (Some 2%R) 9 9 6 Cases.hill (fin2 9 9 (fun _ _ => 0%R))
           (fin2 9 9 (fun _ _ => 0%R)) 4 4 1);
    try lia; try (cbn; lia);
    unfold Cases.hill; cbn [Z.eqb Pos.eqb Z.mul Z.sub Z.add Z.opp Pos.mul Pos.add
                             Z.pos_sub Pos.pred_double Pos.succ Pos.sub]; cbn; lra.
Defined.

(** Fluxes and a reference EMF that give the EMF 1 on every edge of a grid
    of 7 by 7 zones with 3 ghost cells *)
Lemma emf_uniform_edges_sample :
  exists Ec,
    emf 3 0 1 2 3 4 5 6 (Some 1%R) (Some 1%R)
      Cases.U7 Cases.Fx_unit Cases.Fy_unit Cases.Eref_unit true = Ok Ec
    /\ forall i j, 3 - 2 <= i < len0 Cases.U7 - 3 + 2 ->
                   3 - 2 <= j < len1 Cases.U7 - 3 + 2 ->
                   get2 Ec i j = Some 1%R.
Proof.
  eapply (emf_uniform_edges 3 0 1 2 3 4 5 6 1%R 1%R 1%R
            Cases.U7 Cases.Fx_unit Cases.Fy_unit Cases.Eref_unit true).
  - reflexivity.
  - intros a b. reflexivity.
  - intros a b. cbn. f_equal. lra.
  - intros a b. reflexivity.
  - lra.
  - lra.
  - lia.
Defined.

(** The arrays of [Sample] on a grid of 3 by 3 zones, with [dx = 0] *)
Lemma emf_zero_spacing_raises_sample :
  emf 1 0 1 2 3 4 5 6 0%float 1%float
    Sample.U_a Sample.Fx_a Sample.Fy_a Sample.Eref_a true = Raise ZeroDivisionError.
Proof.
  eapply (emf_zero_spacing_raises 1 0 1 2 3 4 5 6 0%float 1%float
            Sample.U_a Sample.Fx_a Sample.Fy_a Sample.Eref_a true).
  - vm_compute. reflexivity.
  - cbn. lia.
  - cbn. lia.
  - left. reflexivity.
Defined.

(** The moving gas of [Sample] on both sides, in exact arithmetic: the 7
    speeds are real. *)
Lemma hlle_bounds_sign_sample :
  exists lc,
    riemann_states 1 0 1 2 3 4 5 6 0 (Some 2%R) (vfin 6 Sample.flow)
      (vfin 6 Sample.flow) (Some 0%R) (Some 0%R) = Ok lc
    /\ Forall finite (rl_evals lc)
    /\ length (rl_evals lc) = 7%nat
    /\ exists bp bm : R,
         rl_bp lc = Some bp /\ rl_bm lc = Some bm /\ (bm <= 0 <= bp)%R.
Proof.
  destruct (hlle_bounds_sign 1 0 1 2 3 4 5 6 0 6 2%R Sample.flow Sample.flow 0%R 0%R
              (vfin 6 Sample.flow) (vfin 6 Sample.flow) layout_ok_sample eq_refl
              (fun k => eq_refl) (fun k => eq_refl))
    as [lc [Hlc [Hlen [_ [_ Hreal]]]]];
    [unfold Sample.flow; cbn; lra | unfold Sample.flow; cbn; lra | lra |].
  exists lc. split; [exact Hlc|].
  assert (Hfin : Forall finite (rl_evals lc)).
  { pose proof (riemann_states_inv _ _ _ _ _ _ _ _ _ _ _ _ _ _ _ Hlc) as Hinv.
    destruct Hinv as [_ [_ [_ [_ [_ [_ [_ [_ [_ Hev]]]]]]]]].
    assert (Hrho : (0 < Sample.flow 0)%R) by (unfold Sample.flow; cbn; lra).
    destruct (roe_equal_states 1 0 1 2 3 4 5 6 0 6 2%R Sample.flow 0%R 0%R
                (vfin 6 Sample.flow) (vfin 6 Sample.flow) layout_ok_sample eq_refl
                eq_refl (fun k => eq_refl) (fun k => eq_refl) Hrho ltac:(lra) eq_refl
                lc Hlc)
      as (R1 & R2 & R3 & R4 & R5 & R6 & R7 & R8).
    destruct (calc_evals_real 1 0 1 2 3 4 5 6 (rl_U_av lc) 2%R _ _ _ _ _ _
                R1 R2 R3 R4 R5 R6 Hrho ltac:(lra) thermal_energy_flow)
      as [ev [Hev' Hfin]].
    rewrite R7, R8 in Hev. rewrite Hev in Hev'. injection Hev' as <-. exact Hfin. }
  split; [exact Hfin|]. split; [exact Hlen|]. exact (Hreal Hfin).
Defined.
